(** * IoT network optimisation: transaction scheduling and actuation pipeline

    A shallow embedding of the Go services under [code/API_code/iot]:
    the Mongo-backed store ([internal/database]), the scheduler
    ([internal/scheduler]), the actuation worker ([internal/worker]) and the
    time validation of the HTTP handler ([internal/api]).

    Conventions of the embedding
    - [time.Time] is an instant in [Z]; [time.Until t] is [t - now].
    - Go's [error] is [option err]; [None] is [nil].
    - A Mongo collection keyed by [_id] is a [gmap string _]; every driver
      call is one atomic step on it.  A driver call can also fail for reasons
      outside the store (network, server): the oracle [fails] of the
      environment says which calls do.
    - External collaborators (NEF client, event sender) are oracles of the
      environment; every call to them is logged, so that "is called" and
      "is never called" are statements about the log.
    - The retention loop of the scheduler ([runCleanup], which calls
      [DeleteOldTransactions]) runs on a ticker of its own: [step] is one
      execution of a handler, and [evolve] is a step of the whole system, a
      handler or a run of the cleanup.  Rows are deleted by the cleanup
      only. *)

From stdpp Require Import base gmap strings pretty list fin_maps.
From Stdlib Require Import ZArith Lia.


(** ** api/models *)

Module models.

Record DeviceIpv4Addr := {
  PrivateAddress : option string;
  PublicAddress : option string;
  PublicPort : option Z
}.

Record Device := {
  Ipv4Address : option DeviceIpv4Addr;
  Ipv6Address : option string;
  NetworkAccessIdentifier : option string;
  PhoneNumber : option string
}.

(** Only the fields the pipeline reads; [Config], [ProtocolSettings] and
    [SinkCredential] are carried around unchanged by the code and left out. *)
Record SubscriptionRequest := {
  Protocol : string;
  Sink : string;
  Types : list string
}.

#[global] Instance DeviceIpv4Addr_eq_dec : EqDecision DeviceIpv4Addr.
Proof. solve_decision. Defined.
#[global] Instance Device_eq_dec : EqDecision Device.
Proof. solve_decision. Defined.
#[global] Instance SubscriptionRequest_eq_dec : EqDecision SubscriptionRequest.
Proof. solve_decision. Defined.

End models.

(** ** Errors and the environment of one handler execution *)

Inductive err :=
| ErrNoDocuments                 (* mongo.ErrNoDocuments *)
| ErrDuplicateKey                (* write error E11000 of InsertOne *)
| ErrDriver                      (* any other failure of a driver call *)
| ErrNEF                         (* failure of the device client *)
| ErrSend                        (* failure of the event sender *)
| Errorf (msg : string)          (* fmt.Errorf without a wrapped cause *)
| Wrap (msg : string) (cause : err).

Abbreviation error := (option err).

(** The driver calls made by [mongoDB]'s methods, as the fault oracle sees
    them. *)
Inductive DriverCall :=
| InsertOne (id : string)
| FindOne (id : string)
| Find_pending
| UpdateOne_claim (id action : string)
| UpdateOne_failed (id : string)
| UpdateOne_completed (id : string)
| ReplaceOne_config (deviceID : string)
| FindOne_config (deviceID : string)
| FindOneAndUpdate_status (id deviceID action status : string)
| UpdateOne_notified (id action : string).

(** ** pkg/easyapi *)

Module easyapi.

Record DeviceConfig := {
  PpMaximumLatency : string;
  PpMaximumResponseTime : string
}.

#[global] Instance DeviceConfig_eq_dec : EqDecision DeviceConfig.
Proof. solve_decision. Defined.

(** [Client] is the Go interface; an implementation answers
    [GetDeviceConfig] with a configuration or an error and
    [SetDeviceConfig] with an error or [nil]. *)
Record Client := {
  GetDeviceConfig : models.Device → DeviceConfig + err;
  SetDeviceConfig : models.Device → DeviceConfig → error
}.

(** dummy.go *)
Definition DummyClient : Client := {|
  GetDeviceConfig := λ _,
    inl {| PpMaximumLatency := "100"; PpMaximumResponseTime := "200" |};
  SetDeviceConfig := λ _ _, None
|}.

End easyapi.

(** ** pkg/config *)

Module config.

Record PowerSaving := {
  MaxLatency : string;
  MaxResponseTime : string
}.

Definition default : PowerSaving :=
  {| MaxLatency := "1"; MaxResponseTime := "1" |}.

End config.

(** ** pkg/event *)

Module event.

Definition ActionStart : string := "start".
Definition ActionEnd : string := "end".

Record PowerSavingPayload := {
  Devices : list models.Device;
  Enabled : bool;
  SubscriptionRequest : models.SubscriptionRequest;
  TransactionID : string
}.

Record ScheduleRequestedData := {
  StartAt : Z;
  EndAt : option Z;
  Payload : PowerSavingPayload
}.

Record DeviceActuationRequestData := {
  dar_Device : models.Device;
  dar_Enabled : bool;
  dar_TransactionID : string;
  dar_Action : string;
  dar_SubscriptionRequest : models.SubscriptionRequest
}.

Record AllDevicesCompletedData := {
  adc_TransactionID : string;
  adc_Action : string;
  adc_CompletedAt : Z;
  adc_SubscriptionRequest : models.SubscriptionRequest
}.

Record ErrorNotificationData := {
  en_TransactionID : string;
  en_Status : Z;
  en_Code : string;
  en_Message : string;
  en_Action : string;
  en_SubscriptionRequest : models.SubscriptionRequest
}.

(** What a service hands to [Sender.Send]: the event id and the typed
    payload (the event type is the constructor). *)
Inductive Data :=
| ScheduleRequested (d : ScheduleRequestedData)
| DeviceActuationRequest (d : DeviceActuationRequestData)
| AllDevicesCompleted (d : AllDevicesCompletedData)
| PowerSavingError (d : ErrorNotificationData).

Record Event := { ID : string; data : Data }.

End event.

(** The environment of one handler execution: the clock, the fault oracle of
    the store, the device client and the outcome of each [Send]. *)
Record Env := {
  now : Z;
  fails : DriverCall → bool;
  deviceClient : easyapi.Client;
  sendFails : string → bool
}.

(** An environment in which nothing fails, with the stub device client. *)
Definition quiet (t : Z) : Env := {|
  now := t;
  fails := λ _, false;
  deviceClient := easyapi.DummyClient;
  sendFails := λ _, false
|}.

(** ** internal/database: the data model (database.go) *)

Module database.

Inductive Status :=
| StatusPending | StatusProcessing | StatusCompleted | StatusFailed.

#[global] Instance Status_eq_dec : EqDecision Status.
Proof. solve_decision. Defined.

(** [Status] is one of "pending", "in-progress", "success", "failed"; the
    code keeps it as a free string. *)
Record DeviceActionStatus := {
  das_Status : string;
  das_Timestamp : Z
}.

Record TransactionDevice := {
  DeviceID : string;
  Device : models.Device;
  StartAction : option DeviceActionStatus;
  EndAction : option DeviceActionStatus
}.

Record DeviceOriginalState := {
  dos_DeviceID : string;
  PpMaximumLatency : string;
  PpMaximumResponseTime : string;
  dos_Timestamp : Z
}.

Record Transaction := {
  TransactionID : string;
  StartAt : Z;
  EndAt : option Z;
  Enabled : bool;
  SubscriptionRequest : models.SubscriptionRequest;
  tx_Status : Status;
  CreatedAt : Z;
  UpdatedAt : Z;
  ErrorMessage : string;
  Devices : list TransactionDevice;
  StartActionCompleted : bool;
  EndActionCompleted : bool;
  StartActionNotified : bool;
  EndActionNotified : bool
}.

(** The fields an update document of the code can [$set]. *)
Definition set_CreatedAt (v : Z) (t : Transaction) : Transaction :=
  {| TransactionID := TransactionID t; StartAt := StartAt t; EndAt := EndAt t;
     Enabled := Enabled t; SubscriptionRequest := SubscriptionRequest t;
     tx_Status := tx_Status t; CreatedAt := v; UpdatedAt := UpdatedAt t;
     ErrorMessage := ErrorMessage t; Devices := Devices t;
     StartActionCompleted := StartActionCompleted t;
     EndActionCompleted := EndActionCompleted t;
     StartActionNotified := StartActionNotified t;
     EndActionNotified := EndActionNotified t |}.

Definition set_UpdatedAt (v : Z) (t : Transaction) : Transaction :=
  {| TransactionID := TransactionID t; StartAt := StartAt t; EndAt := EndAt t;
     Enabled := Enabled t; SubscriptionRequest := SubscriptionRequest t;
     tx_Status := tx_Status t; CreatedAt := CreatedAt t; UpdatedAt := v;
     ErrorMessage := ErrorMessage t; Devices := Devices t;
     StartActionCompleted := StartActionCompleted t;
     EndActionCompleted := EndActionCompleted t;
     StartActionNotified := StartActionNotified t;
     EndActionNotified := EndActionNotified t |}.

Definition set_status (v : Status) (t : Transaction) : Transaction :=
  {| TransactionID := TransactionID t; StartAt := StartAt t; EndAt := EndAt t;
     Enabled := Enabled t; SubscriptionRequest := SubscriptionRequest t;
     tx_Status := v; CreatedAt := CreatedAt t; UpdatedAt := UpdatedAt t;
     ErrorMessage := ErrorMessage t; Devices := Devices t;
     StartActionCompleted := StartActionCompleted t;
     EndActionCompleted := EndActionCompleted t;
     StartActionNotified := StartActionNotified t;
     EndActionNotified := EndActionNotified t |}.

Definition set_errorMessage (v : string) (t : Transaction) : Transaction :=
  {| TransactionID := TransactionID t; StartAt := StartAt t; EndAt := EndAt t;
     Enabled := Enabled t; SubscriptionRequest := SubscriptionRequest t;
     tx_Status := tx_Status t; CreatedAt := CreatedAt t; UpdatedAt := UpdatedAt t;
     ErrorMessage := v; Devices := Devices t;
     StartActionCompleted := StartActionCompleted t;
     EndActionCompleted := EndActionCompleted t;
     StartActionNotified := StartActionNotified t;
     EndActionNotified := EndActionNotified t |}.

Definition set_devices (v : list TransactionDevice) (t : Transaction) : Transaction :=
  {| TransactionID := TransactionID t; StartAt := StartAt t; EndAt := EndAt t;
     Enabled := Enabled t; SubscriptionRequest := SubscriptionRequest t;
     tx_Status := tx_Status t; CreatedAt := CreatedAt t; UpdatedAt := UpdatedAt t;
     ErrorMessage := ErrorMessage t; Devices := v;
     StartActionCompleted := StartActionCompleted t;
     EndActionCompleted := EndActionCompleted t;
     StartActionNotified := StartActionNotified t;
     EndActionNotified := EndActionNotified t |}.

(** The two per-device fields [devices.$.startAction] / [devices.$.endAction]
    and the two flags [startActionNotified] / [endActionNotified] that
    [UpdateDeviceActionStatus] selects by name. *)
Inductive ActionField := startAction | endAction.
Inductive NotifiedField := startActionNotified | endActionNotified.

#[global] Instance NotifiedField_eq_dec : EqDecision NotifiedField.
Proof. solve_decision. Defined.

Definition get_notified (f : NotifiedField) (t : Transaction) : bool :=
  match f with
  | startActionNotified => StartActionNotified t
  | endActionNotified => EndActionNotified t
  end.

Definition set_notified (f : NotifiedField) (v : bool) (t : Transaction) : Transaction :=
  {| TransactionID := TransactionID t; StartAt := StartAt t; EndAt := EndAt t;
     Enabled := Enabled t; SubscriptionRequest := SubscriptionRequest t;
     tx_Status := tx_Status t; CreatedAt := CreatedAt t; UpdatedAt := UpdatedAt t;
     ErrorMessage := ErrorMessage t; Devices := Devices t;
     StartActionCompleted := StartActionCompleted t;
     EndActionCompleted := EndActionCompleted t;
     StartActionNotified :=
       match f with startActionNotified => v | _ => StartActionNotified t end;
     EndActionNotified :=
       match f with endActionNotified => v | _ => EndActionNotified t end |}.

Definition get_action (f : ActionField) (d : TransactionDevice) : option DeviceActionStatus :=
  match f with
  | startAction => StartAction d
  | endAction => EndAction d
  end.

Definition set_action (f : ActionField) (v : DeviceActionStatus) (d : TransactionDevice)
  : TransactionDevice :=
  {| DeviceID := DeviceID d; Device := Device d;
     StartAction := match f with startAction => Some v | _ => StartAction d end;
     EndAction := match f with endAction => Some v | _ => EndAction d end |}.

(** The positional operator [$] of an update whose filter has
    [devices.deviceId = deviceID]: the first matching element of the array
    is the one updated; [None] when no element matches (the filter then
    does not match the document). *)
Fixpoint update_first (deviceID : string) (f : TransactionDevice → TransactionDevice)
    (ds : list TransactionDevice) : option (list TransactionDevice) :=
  match ds with
  | [] => None
  | d :: ds' =>
      if String.eqb (DeviceID d) deviceID then Some (f d :: ds')
      else (d ::.) <$> update_first deviceID f ds'
  end.

(** The two collections of [mongoDB]. *)
Record mongoDB := {
  transactions : gmap string Transaction;
  deviceConfigs : gmap string DeviceOriginalState
}.

Definition with_transactions (m : mongoDB) (txs : gmap string Transaction) : mongoDB :=
  {| transactions := txs; deviceConfigs := deviceConfigs m |}.

Definition empty : mongoDB := {| transactions := ∅; deviceConfigs := ∅ |}.

(** ** internal/database: the methods of [mongoDB] *)

(** [UpdateOne] on the transactions collection with a filter
    [{_id: id, ...}]: the result is [MatchedCount] and the store.  [_id] is
    unique, so at most one document matches. *)
Definition updateOne (id : string) (filter : Transaction → bool)
    (update : Transaction → Transaction) (m : mongoDB) : nat * mongoDB :=
  match transactions m !! id with
  | Some t =>
      if filter t
      then (1, with_transactions m (<[id := update t]> (transactions m)))
      else (0, m)
  | None => (0, m)
  end.

Definition CreateTransaction (e : Env) (transaction : Transaction) (m : mongoDB)
  : error * mongoDB :=
  let transaction := set_UpdatedAt (now e) (set_CreatedAt (now e) transaction) in
  if fails e (InsertOne (TransactionID transaction)) then (Some ErrDriver, m)
  else
    match transactions m !! TransactionID transaction with
    | Some _ => (Some ErrDuplicateKey, m)
    | None =>
        (None, with_transactions m
                 (<[TransactionID transaction := transaction]> (transactions m)))
    end.

Definition GetTransaction (e : Env) (transactionID : string) (m : mongoDB)
  : Transaction + err :=
  if fails e (FindOne transactionID) then inr ErrDriver
  else
    match transactions m !! transactionID with
    | Some t => inl t
    | None => inr ErrNoDocuments
    end.

Definition is_pending (t : Transaction) : Prop :=
  tx_Status t = StatusPending ∨ tx_Status t = StatusProcessing.

#[global] Instance is_pending_dec t : Decision (is_pending t).
Proof. unfold is_pending. apply _. Defined.

Definition GetPendingTransactions (e : Env) (m : mongoDB) : list Transaction + err :=
  if fails e Find_pending then inr (Wrap "query pending transactions" ErrDriver)
  else inl (filter is_pending (snd <$> map_to_list (transactions m))).

(** The filter of [ClaimTransaction] besides [_id]:
    [<action>ActionCompleted: {$ne: true}] for the two known actions,
    nothing for any other string. *)
Definition claim_filter (action : string) (t : Transaction) : bool :=
  if String.eqb action "start" then negb (StartActionCompleted t)
  else if String.eqb action "end" then negb (EndActionCompleted t)
  else true.

Definition ClaimTransaction (e : Env) (transactionID action : string) (m : mongoDB)
  : (bool * error) * mongoDB :=
  if fails e (UpdateOne_claim transactionID action) then ((false, Some ErrDriver), m)
  else
    let '(MatchedCount, m') :=
      updateOne transactionID (claim_filter action) (set_UpdatedAt (now e)) m in
    if Nat.eqb MatchedCount 0 then
      match GetTransaction e transactionID m' with
      | inr ErrNoDocuments =>
          ((false, Some (Errorf ("transaction not found: " +:+ transactionID))), m')
      | inr err => ((false, Some err), m')
      | inl _ => ((false, None), m')
      end
    else ((true, None), m').

Definition MarkTransactionFailed (e : Env) (transactionID errorMsg : string)
    (m : mongoDB) : error * mongoDB :=
  if fails e (UpdateOne_failed transactionID) then (Some ErrDriver, m)
  else
    (None, snd (updateOne transactionID (λ _, true)
                  (λ t, set_UpdatedAt (now e)
                          (set_errorMessage errorMsg (set_status StatusFailed t))) m)).

Definition MarkTransactionCompleted (e : Env) (transactionID : string) (m : mongoDB)
  : error * mongoDB :=
  if fails e (UpdateOne_completed transactionID) then (Some ErrDriver, m)
  else
    (None, snd (updateOne transactionID (λ _, true)
                  (λ t, set_UpdatedAt (now e) (set_status StatusCompleted t)) m)).

Definition StoreDeviceOriginalState (e : Env) (deviceID : string)
    (originalState : DeviceOriginalState) (m : mongoDB) : error * mongoDB :=
  let originalState :=
    {| dos_DeviceID := deviceID;
       PpMaximumLatency := PpMaximumLatency originalState;
       PpMaximumResponseTime := PpMaximumResponseTime originalState;
       dos_Timestamp := now e |} in
  if fails e (ReplaceOne_config deviceID) then (Some ErrDriver, m)
  else
    (None, {| transactions := transactions m;
              deviceConfigs := <[deviceID := originalState]> (deviceConfigs m) |}).

Definition GetDeviceOriginalState (e : Env) (deviceID : string) (m : mongoDB)
  : DeviceOriginalState + err :=
  if fails e (FindOne_config deviceID) then inr ErrDriver
  else
    match deviceConfigs m !! deviceID with
    | Some s => inl s
    | None => inr ErrNoDocuments
    end.

(** *** [UpdateDeviceActionStatus]

    The method makes two driver calls, and another client of the store can
    run between them.  Each call is a definition of its own; the method is
    their composition. *)

Definition actionField (action : string) : ActionField :=
  if String.eqb action "end" then endAction else startAction.

Definition notifiedField (action : string) : NotifiedField :=
  if String.eqb action "end" then endActionNotified else startActionNotified.

(** First call: [FindOneAndUpdate] with [ReturnDocument(After)]; the result
    is the post-image. *)
Definition FindOneAndUpdate_deviceStatus (e : Env)
    (transactionID deviceID action status : string) (m : mongoDB)
  : (Transaction * mongoDB) + err :=
  if fails e (FindOneAndUpdate_status transactionID deviceID action status)
  then inr ErrDriver
  else
    match transactions m !! transactionID with
    | None => inr ErrNoDocuments
    | Some t =>
        match update_first deviceID
                (set_action (actionField action)
                   {| das_Status := status; das_Timestamp := now e |})
                (Devices t) with
        | None => inr ErrNoDocuments
        | Some ds =>
            let t' := set_UpdatedAt (now e) (set_devices ds t) in
            inl (t', with_transactions m (<[transactionID := t']> (transactions m)))
        end
    end.

(** The loop over [transaction.Devices]. *)
Definition is_terminal (deviceAction : option DeviceActionStatus) : bool :=
  match deviceAction with
  | Some a => String.eqb (das_Status a) "success" || String.eqb (das_Status a) "failed"
  | None => false
  end.

Definition deviceAction (action : string) (device : TransactionDevice)
  : option DeviceActionStatus :=
  if String.eqb action "start" then StartAction device else EndAction device.

Fixpoint completedCount (action : string) (devices : list TransactionDevice) : nat :=
  match devices with
  | [] => 0
  | device :: rest =>
      (if is_terminal (deviceAction action device) then 1 else 0)
      + completedCount action rest
  end.

Definition all_completed (action : string) (transaction : Transaction) : bool :=
  Nat.eqb (completedCount action (Devices transaction)) (length (Devices transaction))
  && Nat.ltb 0 (length (Devices transaction)).

(** Second call: [UpdateOne] with filter
    [{_id, <action>ActionNotified: false}]; the caller wins when
    [MatchedCount = 1]. *)
Definition UpdateOne_markNotified (e : Env) (transactionID action : string)
    (m : mongoDB) : (bool * error) * mongoDB :=
  if fails e (UpdateOne_notified transactionID action) then ((false, Some ErrDriver), m)
  else
    let '(MatchedCount, m') :=
      updateOne transactionID
        (λ t, negb (get_notified (notifiedField action) t))
        (λ t, set_UpdatedAt (now e) (set_notified (notifiedField action) true t)) m in
    ((Nat.eqb MatchedCount 1, None), m').

Definition UpdateDeviceActionStatus (e : Env)
    (transactionID deviceID action status : string) (m : mongoDB)
  : (bool * error) * mongoDB :=
  match FindOneAndUpdate_deviceStatus e transactionID deviceID action status m with
  | inr err => ((false, Some err), m)
  | inl (transaction, m1) =>
      if all_completed action transaction
      then UpdateOne_markNotified e transactionID action m1
      else ((false, None), m1)
  end.

End database.

(** ** internal/database: the other methods of [mongoDB] *)

Module queries.

Import database.

(** The driver calls of these methods, as their fault oracle sees them. *)
Inductive QueryCall :=
| CountDocuments_config (deviceID : string)
| Find_conflicts
| DeleteMany_old.

(** The loop of [CheckDeviceConfigsExist] from [missing] on. *)
Fixpoint CheckDeviceConfigsExist_loop (failsq : QueryCall → bool)
    (missing deviceIDs : list string) (m : mongoDB) : list string + err :=
  match deviceIDs with
  | [] => inl missing
  | deviceID :: rest =>
      if failsq (CountDocuments_config deviceID)
      then inr (Wrap "check device config existence" ErrDriver)
      else
        let count := match deviceConfigs m !! deviceID with Some _ => 1 | None => 0 end in
        CheckDeviceConfigsExist_loop failsq
          (if Nat.eqb count 0 then missing ++ [deviceID] else missing) rest m
  end.

Definition CheckDeviceConfigsExist (failsq : QueryCall → bool)
    (deviceIDs : list string) (m : mongoDB) : list string + err :=
  CheckDeviceConfigsExist_loop failsq [] deviceIDs m.

Definition GetTransactionDevices (e : Env) (transactionID action : string)
    (m : mongoDB) : list TransactionDevice + err :=
  match GetTransaction e transactionID m with
  | inr err => inr err
  | inl transaction => inl (Devices transaction)
  end.

(** The filter of [CheckDeviceConflicts]:
    [{status: {$in: [pending, processing]}, devices.deviceId: {$in: deviceIDs}}]. *)
Definition conflicts_with (deviceIDs : list string) (t : Transaction) : Prop :=
  is_pending t ∧ Exists (λ d, DeviceID d ∈ deviceIDs) (Devices t).

#[global] Instance conflicts_with_dec deviceIDs t : Decision (conflicts_with deviceIDs t).
Proof. unfold conflicts_with. apply _. Defined.

(** The cursor yields the matching documents in the order of the collection;
    the result is their [_id]s. *)
Definition CheckDeviceConflicts (failsq : QueryCall → bool) (deviceIDs : list string)
    (m : mongoDB) : list string + err :=
  if failsq Find_conflicts then inr ErrDriver
  else inl (fst <$> filter (λ kv, conflicts_with deviceIDs (snd kv))
                      (map_to_list (transactions m))).

(** The filter of [DeleteOldTransactions]:
    [{status: {$in: [completed, failed]}, updatedAt: {$lt: olderThan}}]. *)
Definition is_old (olderThan : Z) (t : Transaction) : Prop :=
  (tx_Status t = StatusCompleted ∨ tx_Status t = StatusFailed)
  ∧ (UpdatedAt t < olderThan)%Z.

#[global] Instance is_old_dec olderThan t : Decision (is_old olderThan t).
Proof. unfold is_old. apply _. Defined.

(** [DeleteMany]: the result is [DeletedCount] and the store. *)
Definition DeleteOldTransactions (failsq : QueryCall → bool) (olderThan : Z)
    (m : mongoDB) : (Z * error) * mongoDB :=
  if failsq DeleteMany_old
  then ((0%Z, Some (Wrap "delete old transactions" ErrDriver)), m)
  else
    let deleted := filter (λ kv, is_old olderThan (snd kv)) (transactions m) in
    let kept := filter (λ kv, ¬ is_old olderThan (snd kv)) (transactions m) in
    ((Z.of_nat (size deleted), None), with_transactions m kept).

End queries.

(** ** The deployment: shared store, broker, one scheduler instance *)

(** [scheduleAction] of scheduler.go. *)
Record scheduleAction := {
  sa_TransactionID : string;
  sa_Action : string;
  sa_SubscriptionRequest : models.SubscriptionRequest
}.

(** A timer made by [time.AfterFunc (delay, func () { s.enqueueScheduleAction
    (...) })]: every closure the scheduler arms has this shape, so a timer is
    its delay and the arguments its closure captured. *)
Record Timer := {
  delay : Z;
  fires : scheduleAction
}.

Inductive NefCall :=
| CallGetDeviceConfig (device : models.Device)
| CallSetDeviceConfig (device : models.Device) (config : easyapi.DeviceConfig).

Record State := {
  store : database.mongoDB;
  (* scheduler memory *)
  timers : gmap string Timer;          (* Scheduler.timers, by "<id>-<action>" *)
  runtime : list Timer;                (* armed by time.AfterFunc, not yet fired *)
  fireChan : list scheduleAction;      (* Scheduler.fireChan *)
  (* the world outside *)
  nefLog : list NefCall;               (* calls made to the device client *)
  sendLog : list event.Event;          (* calls made to Sender.Send *)
  broker : list event.Event            (* events the broker accepted *)
}.

Definition initial : State := {|
  store := database.empty; timers := ∅; runtime := []; fireChan := [];
  nefLog := []; sendLog := []; broker := []
|}.

Definition set_store (m : database.mongoDB) (s : State) : State :=
  {| store := m; timers := timers s; runtime := runtime s; fireChan := fireChan s;
     nefLog := nefLog s; sendLog := sendLog s; broker := broker s |}.

Definition set_scheduler (ts : gmap string Timer) (rt : list Timer)
    (ch : list scheduleAction) (s : State) : State :=
  {| store := store s; timers := ts; runtime := rt; fireChan := ch;
     nefLog := nefLog s; sendLog := sendLog s; broker := broker s |}.

Definition log_nef (c : NefCall) (s : State) : State :=
  {| store := store s; timers := timers s; runtime := runtime s; fireChan := fireChan s;
     nefLog := nefLog s ++ [c]; sendLog := sendLog s; broker := broker s |}.

Definition log_send (ev : event.Event) (accepted : bool) (s : State) : State :=
  {| store := store s; timers := timers s; runtime := runtime s; fireChan := fireChan s;
     nefLog := nefLog s; sendLog := sendLog s ++ [ev];
     broker := if accepted then broker s ++ [ev] else broker s |}.

(** *** The state monad of the handlers *)

Definition M (A : Type) : Type := State → A * State.

Definition ret {A} (a : A) : M A := λ s, (a, s).
Definition bind {A B} (c : M A) (k : A → M B) : M B :=
  λ s, let '(a, s') := c s in k a s'.

Notation "'let*' x ':=' c 'in' k" := (bind c (λ x, k))
  (at level 10, x pattern, c at level 100, k at level 200).

(** A method of the store, run on the store of the state. *)
Definition db {A} (f : database.mongoDB → A * database.mongoDB) : M A :=
  λ s, let '(a, m) := f (store s) in (a, set_store m s).

(** A read-only method of the store. *)
Definition db_read {A} (f : database.mongoDB → A) : M A :=
  λ s, (f (store s), s).

(** [Sender.Send (ctx, eventID, eventType, source, data)]. *)
Definition Send (e : Env) (eventID : string) (d : event.Data) : M error :=
  λ s,
    let ev := {| event.ID := eventID; event.data := d |} in
    if sendFails e eventID then (Some ErrSend, log_send ev false s)
    else (None, log_send ev true s).

Definition GetDeviceConfig (e : Env) (device : models.Device)
  : M (easyapi.DeviceConfig + err) :=
  λ s, (easyapi.GetDeviceConfig (deviceClient e) device,
        log_nef (CallGetDeviceConfig device) s).

Definition SetDeviceConfig (e : Env) (device : models.Device)
    (config : easyapi.DeviceConfig) : M error :=
  λ s, (easyapi.SetDeviceConfig (deviceClient e) device config,
        log_nef (CallSetDeviceConfig device config) s).

(** A [for] loop whose body only has effects. *)
Fixpoint for_each {A} (body : A → M unit) (l : list A) : M unit :=
  match l with
  | [] => ret tt
  | x :: l' => let* _ := body x in for_each body l'
  end.

(** ** internal/scheduler (scheduler.go) *)

Module scheduler.

Import database.

(** [time.Until t], clamped as every timer of the scheduler clamps it:
    [if d < 0 { d = 0 }]. *)
Definition clamp (e : Env) (t : Z) : Z :=
  let d := (t - now e)%Z in
  if (d <? 0)%Z then 0%Z else d.

Definition timerKey (transactionID action : string) : string :=
  transactionID +:+ "-" +:+ action.

(** [time.AfterFunc] followed by [s.timers[key] = timer]. *)
Definition arm (d : Z) (transactionID action : string)
    (subscriptionRequest : models.SubscriptionRequest) : M unit :=
  λ s,
    let t := {| delay := d;
                fires := {| sa_TransactionID := transactionID; sa_Action := action;
                            sa_SubscriptionRequest := subscriptionRequest |} |} in
    (tt, set_scheduler (<[timerKey transactionID action := t]> (timers s))
                       (runtime s ++ [t]) (fireChan s) s).

Definition sendErrorNotification (e : Env) (transactionID action errorCode
    errorMessage : string) (subscriptionRequest : models.SubscriptionRequest)
  : M unit :=
  if String.eqb (models.Sink subscriptionRequest) "" then ret tt
  else
    let errorData :=
      {| event.en_TransactionID := transactionID; event.en_Status := 500;
         event.en_Code := errorCode; event.en_Message := errorMessage;
         event.en_Action := action;
         event.en_SubscriptionRequest := subscriptionRequest |} in
    let eventID := transactionID +:+ "-" +:+ action +:+ "-error" in
    let* _ := Send e eventID (event.PowerSavingError errorData) in
    ret tt.

(** The loop of [handleScheduleRequested] that builds the embedded devices:
    a device without [networkAccessIdentifier] is logged and skipped. *)
Fixpoint transactionDevices (e : Env) (devices : list models.Device)
  : list TransactionDevice :=
  match devices with
  | [] => []
  | device :: rest =>
      match models.NetworkAccessIdentifier device with
      | None => transactionDevices e rest
      | Some deviceID =>
          {| DeviceID := deviceID; Device := device;
             StartAction := Some {| das_Status := "pending"; das_Timestamp := now e |};
             EndAction := None |} :: transactionDevices e rest
      end
  end.

Definition newTransaction (e : Env) (data : event.ScheduleRequestedData)
  : Transaction :=
  {| TransactionID := event.TransactionID (event.Payload data);
     StartAt := event.StartAt data;
     EndAt := event.EndAt data;
     Enabled := event.Enabled (event.Payload data);
     SubscriptionRequest := event.SubscriptionRequest (event.Payload data);
     tx_Status := StatusPending;
     CreatedAt := 0; UpdatedAt := 0; ErrorMessage := "";
     Devices := transactionDevices e (event.Devices (event.Payload data));
     StartActionCompleted := false; EndActionCompleted := false;
     StartActionNotified := false; EndActionNotified := false |}.

(** The handler, from the decoded event data on. *)
Definition handleScheduleRequested (e : Env) (data : event.ScheduleRequestedData)
  : M error :=
  let payload := event.Payload data in
  let transaction := newTransaction e data in
  let* err := db (CreateTransaction e transaction) in
  match err with
  | Some err =>
      let* _ := sendErrorNotification e (event.TransactionID payload)
                  event.ActionStart "INTERNAL_ERROR"
                  "Failed to create transaction in database"
                  (event.SubscriptionRequest payload) in
      ret (Some (Wrap "create transaction" err))
  | None =>
      let startDelay := clamp e (event.StartAt data) in
      let* _ := arm startDelay (event.TransactionID payload) event.ActionStart
                  (event.SubscriptionRequest payload) in
      ret None
  end.

Definition handleAllDevicesCompleted (e : Env) (data : event.AllDevicesCompletedData)
  : M error :=
  if negb (String.eqb (event.adc_Action data) event.ActionStart) then ret None
  else
    let* r := db_read (GetTransaction e (event.adc_TransactionID data)) in
    match r with
    | inr err => ret (Some (Wrap "get transaction" err))
    | inl transaction =>
        match EndAt transaction with
        | None => ret None
        | Some endAt =>
            let endDelay := clamp e endAt in
            let* _ := arm endDelay (event.adc_TransactionID data) event.ActionEnd
                        (SubscriptionRequest transaction) in
            ret None
        end
    end.

(** The body of the loop of [loadPendingSchedules]. *)
Definition loadPendingSchedule (e : Env) (tx : Transaction) : M unit :=
  let* _ :=
    if negb (StartActionCompleted tx)
    then arm (clamp e (StartAt tx)) (TransactionID tx) event.ActionStart
             (SubscriptionRequest tx)
    else ret tt in
  match EndAt tx with
  | Some endAt =>
      if StartActionCompleted tx && negb (EndActionCompleted tx)
      then arm (clamp e endAt) (TransactionID tx) event.ActionEnd
               (SubscriptionRequest tx)
      else ret tt
  | None => ret tt
  end.

Definition loadPendingSchedules (e : Env) : M error :=
  let* r := db_read (GetPendingTransactions e) in
  match r with
  | inr err => ret (Some (Wrap "get pending transactions" err))
  | inl transactions =>
      let* _ := for_each (loadPendingSchedule e) transactions in
      ret None
  end.

(** The closure of a timer: the action goes onto the channel and the timer
    leaves the map. *)
Definition enqueueScheduleAction (transactionID action : string)
    (subscriptionRequest : models.SubscriptionRequest) : M unit :=
  λ s,
    let schedAction :=
      {| sa_TransactionID := transactionID; sa_Action := action;
         sa_SubscriptionRequest := subscriptionRequest |} in
    (tt, set_scheduler (delete (timerKey transactionID action) (timers s))
                       (runtime s) (fireChan s ++ [schedAction]) s).

(** The body of the fan-out loop of [fireSchedule], for the device at
    index [i]. *)
Definition publishActuationRequest (e : Env) (transaction : Transaction)
    (schedAction : scheduleAction) (enabledValue : bool)
    (item : nat * TransactionDevice) : M unit :=
  let '(i, txDevice) := item in
  let actuationData :=
    {| event.dar_Device := Device txDevice;
       event.dar_Enabled := enabledValue;
       event.dar_TransactionID := TransactionID transaction;
       event.dar_Action := sa_Action schedAction;
       event.dar_SubscriptionRequest := sa_SubscriptionRequest schedAction |} in
  let eventID := TransactionID transaction +:+ "-" +:+ sa_Action schedAction
                 +:+ "-device-" +:+ pretty i in
  let* _ := Send e eventID (event.DeviceActuationRequest actuationData) in
  ret tt.

Definition fireSchedule (e : Env) (schedAction : scheduleAction) : M error :=
  let* (claimed, err) :=
    db (ClaimTransaction e (sa_TransactionID schedAction) (sa_Action schedAction)) in
  match err with
  | Some err =>
      let* _ := sendErrorNotification e (sa_TransactionID schedAction)
                  (sa_Action schedAction) "INTERNAL_ERROR"
                  "Failed to claim transaction in database"
                  (sa_SubscriptionRequest schedAction) in
      ret (Some (Wrap "claim transaction" err))
  | None =>
      if negb claimed then ret None
      else
        let* r := db_read (GetTransaction e (sa_TransactionID schedAction)) in
        match r with
        | inr err =>
            let* _ := db (MarkTransactionFailed e (sa_TransactionID schedAction)
                            "failed to retrieve transaction data") in
            let* _ := sendErrorNotification e (sa_TransactionID schedAction)
                        (sa_Action schedAction) "INTERNAL_ERROR"
                        "Failed to retrieve transaction data from database"
                        (sa_SubscriptionRequest schedAction) in
            ret (Some (Wrap "get transaction" err))
        | inl transaction =>
            let enabledValue :=
              if String.eqb (sa_Action schedAction) event.ActionEnd
              then negb (Enabled transaction)
              else Enabled transaction in
            let* _ := for_each
                        (publishActuationRequest e transaction schedAction enabledValue)
                        (imap pair (Devices transaction)) in
            ret None
        end
  end.

End scheduler.

(** ** internal/scheduler: configuration and the retention loop

    An instant counts nanoseconds here, the unit of [time.Duration]. *)

Module retention.

Definition Hour : Z := 3600 * 1000000000.

Definition defaultWorkerCount : Z := 10.
Definition defaultChannelSize : Z := 100.
Definition defaultRetentionPeriod : Z := 168 * Hour.
Definition defaultCleanupInterval : Z := 1 * Hour.

Record Config := {
  WorkerCount : Z;
  ChannelSize : Z;
  RetentionPeriod : Z;
  CleanupInterval : Z
}.

(** The fields of [Scheduler] that [New] takes from the configuration;
    [channelSize] is the capacity of [fireChan]. *)
Record Scheduler := {
  workerCount : Z;
  channelSize : Z;
  retentionPeriod : Z;
  cleanupInterval : Z
}.

Definition New (cfg : option Config) : Scheduler :=
  let cfg :=
    match cfg with
    | None => {| WorkerCount := defaultWorkerCount; ChannelSize := defaultChannelSize;
                 RetentionPeriod := defaultRetentionPeriod;
                 CleanupInterval := defaultCleanupInterval |}
    | Some cfg => cfg
    end in
  let RetentionPeriod' :=
    if (RetentionPeriod cfg =? 0)%Z then defaultRetentionPeriod else RetentionPeriod cfg in
  let CleanupInterval' :=
    if (CleanupInterval cfg =? 0)%Z then defaultCleanupInterval else CleanupInterval cfg in
  {| workerCount := WorkerCount cfg; channelSize := ChannelSize cfg;
     retentionPeriod := RetentionPeriod'; cleanupInterval := CleanupInterval' |}.

(** Unary minus on [int64]: the least value is its own negation. *)
Definition neg64 (d : Z) : Z :=
  if (d =? - 2 ^ 63)%Z then d else (- d)%Z.

(** [runCleanup]: the error of the store is logged and dropped. *)
Definition runCleanup (e : Env) (failsq : queries.QueryCall → bool) (s : Scheduler)
  : M unit :=
  let cutoffTime := (now e + neg64 (retentionPeriod s))%Z in
  let* _ := db (queries.DeleteOldTransactions failsq cutoffTime) in
  ret tt.

End retention.

(** ** internal/worker *)

Module worker.

Import database.

(** The restore branch, the same for (start, disabled) and (end, enabled):
    read the captured original state and apply it. *)
Definition restoreOriginal (e : Env) (device : models.Device) (deviceID : string)
  : M string :=
  let* r := db_read (GetDeviceOriginalState e deviceID) in
  match r with
  | inr _ => ret "failed"
  | inl storedState =>
      let originalConfig :=
        {| easyapi.PpMaximumLatency := PpMaximumLatency storedState;
           easyapi.PpMaximumResponseTime := PpMaximumResponseTime storedState |} in
      let* err := SetDeviceConfig e device originalConfig in
      match err with
      | Some _ => ret "failed"
      | None => ret "success"
      end
  end.

(** The apply branch of (end, disabled), and the tail of (start, enabled). *)
Definition applyPowerSaving (e : Env) (cfg : config.PowerSaving)
    (device : models.Device) : M string :=
  let powerSavingConfig :=
    {| easyapi.PpMaximumLatency := config.MaxLatency cfg;
       easyapi.PpMaximumResponseTime := config.MaxResponseTime cfg |} in
  let* err := SetDeviceConfig e device powerSavingConfig in
  match err with
  | Some _ => ret "failed"
  | None => ret "success"
  end.

(** The branch of (start, enabled): capture, then apply. *)
Definition captureAndApply (e : Env) (cfg : config.PowerSaving)
    (device : models.Device) (deviceID : string) : M string :=
  let* r := GetDeviceConfig e device in
  match r with
  | inr _ => ret "failed"
  | inl currentConfig =>
      let originalState :=
        {| dos_DeviceID := ""; PpMaximumLatency := easyapi.PpMaximumLatency currentConfig;
           PpMaximumResponseTime := easyapi.PpMaximumResponseTime currentConfig;
           dos_Timestamp := 0 |} in
      let* err := db (StoreDeviceOriginalState e deviceID originalState) in
      match err with
      | Some _ => ret "failed"
      | None => applyPowerSaving e cfg device
      end
  end.

(** The [if action == ... else if action == ...] of [processDevice]; the
    result is [finalStatus]. *)
Definition actuate (e : Env) (cfg : config.PowerSaving) (device : models.Device)
    (deviceID action : string) (enabled : bool) : M string :=
  if String.eqb action event.ActionStart then
    if enabled then captureAndApply e cfg device deviceID
    else restoreOriginal e device deviceID
  else if String.eqb action event.ActionEnd then
    if enabled then restoreOriginal e device deviceID
    else applyPowerSaving e cfg device
  else ret "success".

Definition markTransactionCompleteIfDone (e : Env) (transactionID action : string)
  : M error :=
  let* r := db_read (GetTransaction e transactionID) in
  match r with
  | inr err => ret (Some err)
  | inl transaction =>
      let shouldComplete :=
        if String.eqb action event.ActionStart && bool_decide (EndAt transaction = None)
        then true
        else if String.eqb action event.ActionEnd then true
        else false in
      if shouldComplete
      then db (MarkTransactionCompleted e transactionID)
      else ret None
  end.

Definition processDevice (e : Env) (cfg : config.PowerSaving)
    (transactionID : string) (device : models.Device) (deviceID action : string)
    (enabled : bool) (subscriptionRequest : models.SubscriptionRequest) : M error :=
  let* (_, err) :=
    db (UpdateDeviceActionStatus e transactionID deviceID action "in-progress") in
  match err with
  | Some err => ret (Some (Wrap "update status to in-progress" err))
  | None =>
      let* finalStatus := actuate e cfg device deviceID action enabled in
      let* (allComplete, err) :=
        db (UpdateDeviceActionStatus e transactionID deviceID action finalStatus) in
      match err with
      | Some err => ret (Some (Wrap "update device status" err))
      | None =>
          if allComplete then
            let allCompletedData :=
              {| event.adc_TransactionID := transactionID;
                 event.adc_Action := action;
                 event.adc_CompletedAt := now e;
                 event.adc_SubscriptionRequest := subscriptionRequest |} in
            let eventID := transactionID +:+ "-" +:+ action +:+ "-all-completed" in
            let* err := Send e eventID (event.AllDevicesCompleted allCompletedData) in
            match err with
            | Some err => ret (Some (Wrap "send all-devices.completed event" err))
            | None =>
                let* _ := markTransactionCompleteIfDone e transactionID action in
                ret None
            end
          else ret None
      end
  end.

(** [handleActuationRequest], from the decoded event data on.  The Go code
    dereferences [data.Device.NetworkAccessIdentifier]; on [nil] the handler
    panics, which is the [None] of the result. *)
Definition handleActuationRequest (e : Env) (cfg : config.PowerSaving)
    (data : event.DeviceActuationRequestData) : option (M error) :=
  match models.NetworkAccessIdentifier (event.dar_Device data) with
  | None => None
  | Some deviceID =>
      Some (processDevice e cfg (event.dar_TransactionID data) (event.dar_Device data)
              deviceID (event.dar_Action data) (event.dar_Enabled data)
              (event.dar_SubscriptionRequest data))
  end.

End worker.

(** ** internal/api: the time validation of [ActivatePowerSaving] *)

Module api.

(** The anonymous struct of [PowerSavingRequest.TimePeriod]. *)
Record timePeriod := {
  EndDate : option Z;
  StartDate : Z
}.

Record PowerSavingRequest := {
  Devices : list models.Device;
  Enabled : bool;
  SubscriptionRequest : models.SubscriptionRequest;
  TimePeriod : option timePeriod
}.

(** What the handler answers: 202 with the transaction id, or an
    [ErrorInfo] with its HTTP status. *)
Inductive Response :=
| Accepted (transactionId : string)
| ErrorInfo (Status : Z) (Code Message : string).

(** The block of [ActivatePowerSaving] that starts at [var startAt time.Time]:
    the start and end instants of the request, or the answer that rejects
    it. *)
Definition validateTimePeriod (e : Env) (req : PowerSavingRequest)
  : (Z * option Z) + Response :=
  match TimePeriod req with
  | Some period =>
      let startAt := StartDate period in
      let endAt := EndDate period in
      if match endAt with
         | Some endAt => negb (startAt <? endAt)%Z      (* !endAt.After(startAt) *)
         | None => false
         end
      then inr (ErrorInfo 400 "INVALID_ARGUMENT" "endDate must be after startDate")
      else
        let startInPast := (startAt <? now e)%Z in
        let endInPast :=
          match endAt with
          | Some endAt => (endAt <? now e)%Z
          | None => false
          end in
        if startInPast && endInPast
        then inr (ErrorInfo 400 "INVALID_ARGUMENT"
                    "both startDate and endDate are in the past")
        else inl (startAt, endAt)
  | None => inl (now e, None)
  end.

(** The tail of [ActivatePowerSaving], reached when the checks on the
    devices passed: [transactionID] is the fresh UUID, [req] the request
    with the resolved identifiers. *)
Definition ActivatePowerSaving_schedule (e : Env) (transactionID : string)
    (req : PowerSavingRequest) : M Response :=
  match validateTimePeriod e req with
  | inr rejected => ret rejected
  | inl (startAt, endAt) =>
      let scheduleData :=
        {| event.StartAt := startAt; event.EndAt := endAt;
           event.Payload :=
             {| event.Devices := Devices req; event.Enabled := Enabled req;
                event.SubscriptionRequest := SubscriptionRequest req;
                event.TransactionID := transactionID |} |} in
      let* err := Send e transactionID (event.ScheduleRequested scheduleData) in
      match err with
      | Some _ => ret (ErrorInfo 500 "INTERNAL" "failed to schedule request")
      | None => ret (Accepted transactionID)
      end
  end.

End api.

(** ** The system: handlers as steps

    One step is one execution of a handler, in an environment of its own.
    [ScheduleRequested] comes from the API with any content and can be
    delivered again; the other events are delivered from the broker, any
    number of times and in any order.  A restart loses the memory of the
    scheduler and runs [loadPendingSchedules].  Next to the handlers the
    scheduler runs its retention loop ([cleanupWorker]): a step of the whole
    system, [evolve], is a step of a handler or a run of [runCleanup], at any
    time, with any configuration. *)

Section System.

Variable cfg : config.PowerSaving.

Inductive step : State → State → Prop :=
| step_ScheduleRequested e data s :
    step s (snd (scheduler.handleScheduleRequested e data s))
| step_AllDevicesCompleted e ev data s :
    ev ∈ broker s →
    event.data ev = event.AllDevicesCompleted data →
    step s (snd (scheduler.handleAllDevicesCompleted e data s))
| step_timer t before after s :
    runtime s = before ++ t :: after →
    step s (snd (scheduler.enqueueScheduleAction
                   (sa_TransactionID (fires t)) (sa_Action (fires t))
                   (sa_SubscriptionRequest (fires t))
                   (set_scheduler (timers s) (before ++ after) (fireChan s) s)))
| step_fire e schedAction rest s :
    fireChan s = schedAction :: rest →
    step s (snd (scheduler.fireSchedule e schedAction
                   (set_scheduler (timers s) (runtime s) rest s)))
| step_actuation e ev data handler s :
    ev ∈ broker s →
    event.data ev = event.DeviceActuationRequest data →
    worker.handleActuationRequest e cfg data = Some handler →
    step s (snd (handler s))
| step_restart e s :
    step s (snd (scheduler.loadPendingSchedules e (set_scheduler ∅ [] [] s))).

(** A run: the state reached and the states visited, latest first. *)
Inductive run : State → list State → Prop :=
| run_initial : run initial [initial]
| run_step s visited s' : run s visited → step s s' → run s' (s' :: visited).

(** The system with the retention loop of the scheduler: a step of the
    services, or a run of the cleanup. *)
Inductive evolve : State → State → Prop :=
| evolve_step s s' : step s s' → evolve s s'
| evolve_cleanup e failsq sched s :
    evolve s (snd (retention.runCleanup e failsq sched s)).

End System.


(** The calls to [Send] with an [AllDevicesCompleted] for a transaction and a
    notified flag. *)
Definition is_completion (transactionID : string) (f : database.NotifiedField)
    (ev : event.Event) : bool :=
  match event.data ev with
  | event.AllDevicesCompleted d =>
      String.eqb (event.adc_TransactionID d) transactionID
      && bool_decide (database.notifiedField (event.adc_Action d) = f)
  | _ => false
  end.

Definition completions (transactionID : string) (f : database.NotifiedField)
    (s : State) : nat :=
  length (List.filter (is_completion transactionID f) (sendLog s)).

(** ** Concurrent callers of [UpdateDeviceActionStatus]

    The two driver calls of the method are atomic one by one, not together.
    A pool of callers shares the store; a step runs the next driver call of
    one caller, or any other write of the services on the store. *)

Module election.

Import database.

Inductive Phase :=
| Called                                   (* before FindOneAndUpdate *)
| Observed (post : Transaction)            (* holds the post-image *)
| Returned (allCompleted : bool) (err : error).

Record Caller := {
  transactionID : string;
  deviceID : string;
  action : string;
  status : string;
  phase : Phase
}.

Definition at_phase (p : Phase) (c : Caller) : Caller :=
  {| transactionID := transactionID c; deviceID := deviceID c;
     action := action c; status := status c; phase := p |}.

Record Pool := {
  shared : mongoDB;
  callers : list Caller
}.

(** The writes on the store by the rest of the services, the deletion by the
    retention loop among them. *)
Inductive Other :=
| OtherCreate (transaction : Transaction)
| OtherClaim (transactionID action : string)
| OtherMarkFailed (transactionID errorMsg : string)
| OtherMarkCompleted (transactionID : string)
| OtherStoreOriginal (deviceID : string) (originalState : DeviceOriginalState)
| OtherDeleteOld (failsq : queries.QueryCall → bool) (olderThan : Z).

Definition other (e : Env) (o : Other) (m : mongoDB) : mongoDB :=
  match o with
  | OtherCreate transaction => snd (CreateTransaction e transaction m)
  | OtherClaim transactionID action => snd (ClaimTransaction e transactionID action m)
  | OtherMarkFailed transactionID errorMsg =>
      snd (MarkTransactionFailed e transactionID errorMsg m)
  | OtherMarkCompleted transactionID => snd (MarkTransactionCompleted e transactionID m)
  | OtherStoreOriginal deviceID originalState =>
      snd (StoreDeviceOriginalState e deviceID originalState m)
  | OtherDeleteOld failsq olderThan =>
      snd (queries.DeleteOldTransactions failsq olderThan m)
  end.

(** The next move of a caller on the store: its new phase and the store. *)
Definition advance (e : Env) (c : Caller) (m : mongoDB) : Phase * mongoDB :=
  match phase c with
  | Called =>
      match FindOneAndUpdate_deviceStatus e (transactionID c) (deviceID c)
              (action c) (status c) m with
      | inr err => (Returned false (Some err), m)
      | inl (post, m') => (Observed post, m')
      end
  | Observed post =>
      if all_completed (action c) post
      then
        let '((won, err), m') := UpdateOne_markNotified e (transactionID c) (action c) m in
        (Returned won err, m')
      else (Returned false None, m)
  | Returned won err => (Returned won err, m)
  end.

Inductive step : Pool → Pool → Prop :=
| step_call c p :
    phase c = Called →
    step p {| shared := shared p; callers := callers p ++ [c] |}
| step_advance e i c p :
    callers p !! i = Some c →
    step p {| shared := snd (advance e c (shared p));
              callers := <[i := at_phase (fst (advance e c (shared p))) c]> (callers p) |}
| step_other e o p :
    step p {| shared := other e o (shared p); callers := callers p |}.

Definition is_winner (id : string) (f : NotifiedField) (c : Caller) : bool :=
  match phase c with
  | Returned true _ =>
      String.eqb (transactionID c) id && bool_decide (notifiedField (action c) = f)
  | _ => false
  end.

(** The callers that returned [allCompleted = true] for a transaction and
    a notified flag. *)
Definition winners (id : string) (f : NotifiedField) (p : Pool) : nat :=
  length (List.filter (is_winner id f) (callers p)).

Definition notified (id : string) (f : NotifiedField) (m : mongoDB) : bool :=
  match transactions m !! id with
  | Some row => get_notified f row
  | None => false
  end.

End election.

(** * Vocabulary of the properties *)

(** ** Fan-out of the scheduler *)

(** The event the fan-out is to send for the device at position [i]. *)
Definition actuation_event (transactionID action : string) (enabled : bool)
    (subscriptionRequest : models.SubscriptionRequest)
    (i : nat) (d : database.TransactionDevice) : event.Event :=
  {| event.ID := transactionID +:+ "-" +:+ action +:+ "-device-" +:+ pretty i;
     event.data := event.DeviceActuationRequest
       {| event.dar_Device := database.Device d;
          event.dar_Enabled := enabled;
          event.dar_TransactionID := transactionID;
          event.dar_Action := action;
          event.dar_SubscriptionRequest := subscriptionRequest |} |}.

(** ** Example data *)

Module example.

Definition sub : models.SubscriptionRequest :=
  {| models.Protocol := "HTTP"; models.Sink := "http://cb"; models.Types := [] |}.

Definition device (nai : option string) : models.Device :=
  {| models.Ipv4Address := None; models.Ipv6Address := None;
     models.NetworkAccessIdentifier := nai; models.PhoneNumber := None |}.

(** A request for two devices, from 10 to 20. *)
Definition requested : event.ScheduleRequestedData :=
  {| event.StartAt := 10; event.EndAt := Some 20%Z;
     event.Payload :=
       {| event.Devices := [device (Some "a"); device (Some "b")];
          event.Enabled := true; event.SubscriptionRequest := sub;
          event.TransactionID := "T" |} |}.

(** The state after the scheduler handled it at time 5. *)
Definition scheduled : State :=
  snd (scheduler.handleScheduleRequested (quiet 5) requested initial).

(** The state after the worker handled the start of the device "a" at
    time 12. *)
Definition started : State :=
  snd (worker.processDevice (quiet 12) config.default "T" (device (Some "a")) "a"
         "start" true sub scheduled).

Definition row : database.Transaction :=
  database.set_UpdatedAt 5
    (database.set_CreatedAt 5 (scheduler.newTransaction (quiet 5) requested)).

Definition start : scheduleAction :=
  {| sa_TransactionID := "T"; sa_Action := "start"; sa_SubscriptionRequest := sub |}.

Definition finish : scheduleAction :=
  {| sa_TransactionID := "T"; sa_Action := "end"; sa_SubscriptionRequest := sub |}.

(** A request whose start, 3, is in the past at time 5, and whose end, 20,
    is not. *)
Definition request : api.PowerSavingRequest :=
  {| api.Devices := [device (Some "a")]; api.Enabled := true;
     api.SubscriptionRequest := sub;
     api.TimePeriod := Some {| api.EndDate := Some 20%Z; api.StartDate := 3 |} |}.

(** A request for one device with no end, and a run on it: the scheduler
    creates the row and its start timer fires; the scheduler restarts while
    the row is pending, which arms the start timer again; the worker
    actuates the device, which completes the transaction. *)
Definition requested_open : event.ScheduleRequestedData :=
  {| event.StartAt := 10; event.EndAt := None;
     event.Payload :=
       {| event.Devices := [device (Some "a")];
          event.Enabled := true; event.SubscriptionRequest := sub;
          event.TransactionID := "U" |} |}.

Definition start_open : scheduleAction :=
  {| sa_TransactionID := "U"; sa_Action := "start"; sa_SubscriptionRequest := sub |}.

Definition created_open : State :=
  snd (scheduler.handleScheduleRequested (quiet 5) requested_open initial).

Definition fanned_out_open : State :=
  snd (scheduler.fireSchedule (quiet 10) start_open
         (set_scheduler ∅ [] [] created_open)).

Definition restarted_open : State :=
  snd (scheduler.loadPendingSchedules (quiet 11)
         (set_scheduler ∅ [] [] fanned_out_open)).

Definition completed_open : State :=
  snd (worker.processDevice (quiet 12) config.default "U" (device (Some "a")) "a"
         "start" true sub restarted_open).

(** An environment whose device client fails every call. *)
Definition broken (t : Z) : Env :=
  {| now := t; fails := λ _, false;
     deviceClient := {| easyapi.GetDeviceConfig := λ _, inr ErrNEF;
                        easyapi.SetDeviceConfig := λ _ _, Some ErrNEF |};
     sendFails := λ _, false |}.

End example.

(** ** Error notifications of the scheduler *)

Definition error_event (transactionID action errorMessage : string)
    (subscriptionRequest : models.SubscriptionRequest) : event.Event :=
  {| event.ID := transactionID +:+ "-" +:+ action +:+ "-error";
     event.data := event.PowerSavingError
       {| event.en_TransactionID := transactionID; event.en_Status := 500;
          event.en_Code := "INTERNAL_ERROR"; event.en_Message := errorMessage;
          event.en_Action := action;
          event.en_SubscriptionRequest := subscriptionRequest |} |}.

Definition start_timer (e : Env) (data : event.ScheduleRequestedData) : Timer :=
  {| delay := scheduler.clamp e (event.StartAt data);
     fires := {| sa_TransactionID := event.TransactionID (event.Payload data);
                 sa_Action := "start";
                 sa_SubscriptionRequest := event.SubscriptionRequest (event.Payload data) |} |}.

Definition is_error_event (ev : event.Event) : bool :=
  match event.data ev with
  | event.PowerSavingError _ => true
  | _ => false
  end.

(** The scheduler handles the same [ScheduleRequested] once per environment
    of the list, in turn. *)
Fixpoint replay (es : list Env) (data : event.ScheduleRequestedData) (s : State)
  : State :=
  match es with
  | [] => s
  | e :: es' => replay es' data (snd (scheduler.handleScheduleRequested e data s))
  end.

(** C5 as the specification has it: handling a [ScheduleRequested] whose
    transaction already has a row succeeds and sends no error event. *)
Definition duplicate_is_silent : Prop :=
  ∀ t data s,
    is_Some (database.transactions (store s) !! event.TransactionID (event.Payload data)) →
    fst (scheduler.handleScheduleRequested (quiet t) data s) = None
    ∧ List.filter is_error_event
        (sendLog (snd (scheduler.handleScheduleRequested (quiet t) data s)))
      = List.filter is_error_event (sendLog s).

(** ** The claim of the scheduler *)

(** C2 as the specification has it: a claim only matches a row whose status
    is Pending or Processing. *)
Definition claim_filters_status : Prop :=
  ∀ t id action m row,
    database.transactions m !! id = Some row →
    fst (fst (database.ClaimTransaction (quiet t) id action m)) = true →
    database.is_pending row.

(** C2 as the specification has it: a fire whose claim matches no document
    returns no error and sends nothing. *)
Definition unmatched_claim_is_silent : Prop :=
  ∀ t schedAction s,
    fst (fst (database.ClaimTransaction (quiet t) (sa_TransactionID schedAction)
                (sa_Action schedAction) (store s))) = false →
    fst (scheduler.fireSchedule (quiet t) schedAction s) = None
    ∧ sendLog (snd (scheduler.fireSchedule (quiet t) schedAction s)) = sendLog s.

(** ** Actuation by the worker *)

(** The status the store holds for an action of a device of a transaction:
    that of the first element of [devices] with the device id, the one the
    positional update writes. *)
Definition recorded_status (m : database.mongoDB) (transactionID deviceID : string)
    (f : database.ActionField) : option string :=
  row ← database.transactions m !! transactionID;
  d ← List.find (λ d, String.eqb (database.DeviceID d) deviceID) (database.Devices row);
  a ← database.get_action f d;
  Some (database.das_Status a).

Definition power_saving (cfg : config.PowerSaving) : easyapi.DeviceConfig :=
  {| easyapi.PpMaximumLatency := config.MaxLatency cfg;
     easyapi.PpMaximumResponseTime := config.MaxResponseTime cfg |}.

Definition original (st : database.DeviceOriginalState) : easyapi.DeviceConfig :=
  {| easyapi.PpMaximumLatency := database.PpMaximumLatency st;
     easyapi.PpMaximumResponseTime := database.PpMaximumResponseTime st |}.

Definition captured (e : Env) (deviceID : string) (cur : easyapi.DeviceConfig)
  : database.DeviceOriginalState :=
  {| database.dos_DeviceID := deviceID;
     database.PpMaximumLatency := easyapi.PpMaximumLatency cur;
     database.PpMaximumResponseTime := easyapi.PpMaximumResponseTime cur;
     database.dos_Timestamp := now e |}.

(** The capture of (start, enabled) fails: the device client does not answer
    [GetDeviceConfig], or the upsert of the original state fails. *)
Definition capture_fails (e : Env) (device : models.Device) (deviceID : string) : Prop :=
  (∃ err, easyapi.GetDeviceConfig (deviceClient e) device = inr err)
  ∨ fails e (ReplaceOne_config deviceID) = true.

(** "success" or "failed", by the error of a call. *)
Definition outcome (err : error) : string :=
  match err with
  | None => "success"
  | Some _ => "failed"
  end.

(** ** The store *)

(** The five ways [UpdateDeviceActionStatus] can go. *)
Inductive UpdateDeviceActionStatus_case (e : Env) (id dev action status : string)
    (m : database.mongoDB) : bool → error → database.mongoDB → Prop :=
| update_failed err :
    database.FindOneAndUpdate_deviceStatus e id dev action status m = inr err →
    UpdateDeviceActionStatus_case e id dev action status m false (Some err) m
| update_incomplete post m1 :
    database.FindOneAndUpdate_deviceStatus e id dev action status m = inl (post, m1) →
    database.all_completed action post = false →
    UpdateDeviceActionStatus_case e id dev action status m false None m1
| election_failed post m1 :
    database.FindOneAndUpdate_deviceStatus e id dev action status m = inl (post, m1) →
    database.all_completed action post = true →
    fails e (UpdateOne_notified id action) = true →
    UpdateDeviceActionStatus_case e id dev action status m false (Some ErrDriver) m1
| election_lost post m1 :
    database.FindOneAndUpdate_deviceStatus e id dev action status m = inl (post, m1) →
    database.all_completed action post = true →
    fails e (UpdateOne_notified id action) = false →
    database.get_notified (database.notifiedField action) post = true →
    UpdateDeviceActionStatus_case e id dev action status m false None m1
| election_won post m1 :
    database.FindOneAndUpdate_deviceStatus e id dev action status m = inl (post, m1) →
    database.all_completed action post = true →
    fails e (UpdateOne_notified id action) = false →
    database.get_notified (database.notifiedField action) post = false →
    UpdateDeviceActionStatus_case e id dev action status m true None
      (database.with_transactions m1
         (<[id := database.set_UpdatedAt (now e)
                    (database.set_notified (database.notifiedField action) true post)]>
            (database.transactions m1))).


(** What every write of the services keeps of a row: its identity, its end,
    the number of its devices, its completed flags; and a notified flag that
    is set stays set. *)
Definition row_le (row row' : database.Transaction) : Prop :=
  database.TransactionID row' = database.TransactionID row
  ∧ database.EndAt row' = database.EndAt row
  ∧ length (database.Devices row') = length (database.Devices row)
  ∧ database.StartActionCompleted row' = database.StartActionCompleted row
  ∧ database.EndActionCompleted row' = database.EndActionCompleted row
  ∧ (∀ f, database.get_notified f row = true → database.get_notified f row' = true).

(** Rows stay, and evolve by [row_le]. *)
Definition store_le (m m' : database.mongoDB) : Prop :=
  ∀ id row,
    database.transactions m !! id = Some row →
    ∃ row', database.transactions m' !! id = Some row' ∧ row_le row row'.

(** The [AllDevicesCompleted] of the worker. *)
Definition completion_event (e : Env) (transactionID action : string)
    (subscriptionRequest : models.SubscriptionRequest) : event.Event :=
  {| event.ID := transactionID +:+ "-" +:+ action +:+ "-all-completed";
     event.data := event.AllDevicesCompleted
       {| event.adc_TransactionID := transactionID; event.adc_Action := action;
          event.adc_CompletedAt := now e;
          event.adc_SubscriptionRequest := subscriptionRequest |} |}.

(** ** The effect of a handler on the store *)

(** A write that keeps the status of the row. *)
Definition touch (row row' : database.Transaction) : Prop :=
  row_le row row' ∧ database.tx_Status row' = database.tx_Status row.

(** A write of at most the row [id] of the transactions, by [R]. *)
Definition updates (id : string) (R : database.Transaction → database.Transaction → Prop)
    (m m' : database.mongoDB) : Prop :=
  (∀ id', id' ≠ id → database.transactions m' !! id' = database.transactions m !! id')
  ∧ match database.transactions m !! id with
    | Some row => ∃ row', database.transactions m' !! id = Some row' ∧ R row row'
    | None => database.transactions m' !! id = None
    end.

(** ** The effect of a step of the system *)

Definition row_of (s : State) (id : string) : option database.Transaction :=
  database.transactions (store s) !! id.

Definition is_AllDevicesCompleted (ev : event.Event) : Prop :=
  ∃ d, event.data ev = event.AllDevicesCompleted d.

(** The step sent the [AllDevicesCompleted] of a transaction and an action,
    and nothing else: the notified flag of the action was not set before the
    step and is set after it, and after it every device has a terminal status
    for the action. *)
Definition announces (s s' : State) (evs : list event.Event) : Prop :=
  ∃ ev d row row',
    evs = [ev]
    ∧ event.data ev = event.AllDevicesCompleted d
    ∧ row_of s (event.adc_TransactionID d) = Some row
    ∧ row_of s' (event.adc_TransactionID d) = Some row'
    ∧ database.get_notified (database.notifiedField (event.adc_Action d)) row = false
    ∧ database.get_notified (database.notifiedField (event.adc_Action d)) row' = true
    ∧ database.all_completed (event.adc_Action d) row' = true.

(** The end timer of a transaction is armed for a reason: the completion of
    its start phase was received, or a row in the store has its
    [startActionCompleted] set. *)
Definition end_timer_reason (s : State) (t : Timer) : Prop :=
  (∃ ev d, ev ∈ broker s
           ∧ event.data ev = event.AllDevicesCompleted d
           ∧ event.adc_Action d = "start"
           ∧ event.adc_TransactionID d = sa_TransactionID (fires t))
  ∨ (∃ id row, row_of s id = Some row ∧ database.StartActionCompleted row = true).

Record effect (s s' : State) : Prop := {
  eff_old : ∀ id row,
    row_of s id = Some row →
    ∃ row', row_of s' id = Some row'
            ∧ row_le row row'
            ∧ (database.tx_Status row' = database.StatusCompleted →
               database.tx_Status row = database.StatusCompleted
               ∨ database.Devices row' ≠ []);
  eff_new : ∀ id row',
    row_of s id = None → row_of s' id = Some row' →
    database.tx_Status row' = database.StatusPending
    ∧ database.StartActionCompleted row' = false;
  eff_sends : ∃ evs,
    sendLog s' = sendLog s ++ evs
    ∧ (∀ ev, ev ∈ broker s' → ev ∈ broker s ∨ ev ∈ evs)
    ∧ ((∀ ev, ev ∈ evs → ¬ is_AllDevicesCompleted ev) ∨ announces s s' evs);
  eff_timers : ∀ t,
    t ∈ runtime s' →
    t ∈ runtime s ∨ sa_Action (fires t) ≠ "end" ∨ end_timer_reason s t
}.

Definition end_timer (e : Env) (transactionID : string) (endAt : Z)
    (subscriptionRequest : models.SubscriptionRequest) : Timer :=
  {| delay := scheduler.clamp e endAt;
     fires := {| sa_TransactionID := transactionID; sa_Action := "end";
                 sa_SubscriptionRequest := subscriptionRequest |} |}.

(** ** Invariants of the system *)



(** What holds of the transactions without devices: none is Completed, and
    no [AllDevicesCompleted] was sent for one. *)
Definition devices_of_completed (s : State) : Prop :=
  (∀ id row, row_of s id = Some row →
     database.tx_Status row = database.StatusCompleted → database.Devices row ≠ [])
  ∧ (∀ ev d, ev ∈ sendLog s → event.data ev = event.AllDevicesCompleted d →
       ∃ row, row_of s (event.adc_TransactionID d) = Some row
              ∧ database.Devices row ≠ []).

(** The condition of [markTransactionCompleteIfDone]: the start action of a
    transaction without end, or the end action. *)
Definition completes (action : string) (row : database.Transaction) : Prop :=
  (action = "start" ∧ database.EndAt row = None) ∨ action = "end".

(** ** A run of the example

    The request for the device "a" of the transaction "U", without end: the
    scheduler creates the row, the start timer fires, the fan-out publishes
    the actuation request, and the worker handles it. *)

Module walk.

Definition actuation : event.DeviceActuationRequestData :=
  {| event.dar_Device := example.device (Some "a"); event.dar_Enabled := true;
     event.dar_TransactionID := "U"; event.dar_Action := "start";
     event.dar_SubscriptionRequest := example.sub |}.

Definition s1 : State :=
  snd (scheduler.handleScheduleRequested (quiet 5) example.requested_open initial).

Definition s2 : State :=
  snd (scheduler.enqueueScheduleAction "U" "start" example.sub
         (set_scheduler (timers s1) ([] ++ []) (fireChan s1) s1)).

Definition s3 : State :=
  snd (scheduler.fireSchedule (quiet 10) example.start_open
         (set_scheduler (timers s2) (runtime s2) [] s2)).

(** The worker handles the request and the device client answers. *)
Definition s4 : State :=
  snd (worker.processDevice (quiet 12) config.default "U" (example.device (Some "a"))
         "a" "start" true example.sub s3).

(** The broker delivers the request again, and the device client fails. *)
Definition s5 : State :=
  snd (worker.processDevice (example.broken 13) config.default "U"
         (example.device (Some "a")) "a" "start" true example.sub s4).

(** The worker handles the request while the device client fails. *)
Definition s4_failed : State :=
  snd (worker.processDevice (example.broken 12) config.default "U"
         (example.device (Some "a")) "a" "start" true example.sub s3).

End walk.

(** A request whose only device has no network access identifier. *)
Definition anonymous_request : event.ScheduleRequestedData :=
  {| event.StartAt := 10; event.EndAt := None;
     event.Payload :=
       {| event.Devices := [example.device None];
          event.Enabled := true; event.SubscriptionRequest := example.sub;
          event.TransactionID := "E" |} |}.

(** ** A run of the example with an end

    The request for the devices "a" and "b" of the transaction "T", from 10
    to 20: the scheduler creates the row, the start timer fires, the fan-out
    publishes the two actuation requests, the worker handles both, and the
    scheduler receives the completion of the start phase. *)

Module tour.

Definition actuation (nai : string) : event.DeviceActuationRequestData :=
  {| event.dar_Device := example.device (Some nai); event.dar_Enabled := true;
     event.dar_TransactionID := "T"; event.dar_Action := "start";
     event.dar_SubscriptionRequest := example.sub |}.

Definition completion : event.AllDevicesCompletedData :=
  {| event.adc_TransactionID := "T"; event.adc_Action := "start";
     event.adc_CompletedAt := 13; event.adc_SubscriptionRequest := example.sub |}.

Definition s1 : State :=
  snd (scheduler.handleScheduleRequested (quiet 5) example.requested initial).

Definition s2 : State :=
  snd (scheduler.enqueueScheduleAction "T" "start" example.sub
         (set_scheduler (timers s1) ([] ++ []) (fireChan s1) s1)).

Definition s3 : State :=
  snd (scheduler.fireSchedule (quiet 10) example.start
         (set_scheduler (timers s2) (runtime s2) [] s2)).

Definition s4 : State :=
  snd (worker.processDevice (quiet 12) config.default "T" (example.device (Some "a"))
         "a" "start" true example.sub s3).

Definition s5 : State :=
  snd (worker.processDevice (quiet 13) config.default "T" (example.device (Some "b"))
         "b" "start" true example.sub s4).

Definition s6 : State :=
  snd (scheduler.handleAllDevicesCompleted (quiet 14) completion s5).

Definition armed : Timer :=
  {| delay := 6; fires := example.finish |}.

End tour.

(** ** A race of the example

    The row "T" of the example with the device "b" already at "success"; the
    request for the device "a" is delivered twice, and the two handlers write
    "success" one after the other before either runs the election. *)

Module race.

Definition before : database.mongoDB :=
  snd (database.UpdateDeviceActionStatus (quiet 11) "T" "b" "start" "success"
         (store example.scheduled)).

Definition caller : election.Caller :=
  {| election.transactionID := "T"; election.deviceID := "a";
     election.action := "start"; election.status := "success";
     election.phase := election.Called |}.

Definition call (c : election.Caller) (p : election.Pool) : election.Pool :=
  {| election.shared := election.shared p;
     election.callers := election.callers p ++ [c] |}.

(** The caller at position [i] runs its next driver call. *)
Definition move (e : Env) (i : nat) (p : election.Pool) : election.Pool :=
  match election.callers p !! i with
  | Some c =>
      {| election.shared := snd (election.advance e c (election.shared p));
         election.callers :=
           <[i := election.at_phase (fst (election.advance e c (election.shared p))) c]>
             (election.callers p) |}
  | None => p
  end.

Definition start : election.Pool :=
  {| election.shared := before; election.callers := [] |}.

Definition finish : election.Pool :=
  move (quiet 15) 1 (move (quiet 14) 0 (move (quiet 13) 1 (move (quiet 12) 0
    (call caller (call caller start))))).

End race.

(** ** The status of a device *)

(** A move forward along Pending → InProgress → (Success | Failed), or
    none. *)
Definition forward (old new : string) : Prop :=
  old = new
  ∨ (old = "pending" ∧ (new = "in-progress" ∨ new = "success" ∨ new = "failed"))
  ∨ (old = "in-progress" ∧ (new = "success" ∨ new = "failed")).

(** C3 as the specification has it: no step of a run moves the status of a
    device backwards, or changes it once it is terminal. *)
Definition status_monotone : Prop :=
  ∀ cfg s visited s' id dev f old new,
    run cfg s visited → step cfg s s' →
    recorded_status (store s) id dev f = Some old →
    recorded_status (store s') id dev f = Some new →
    forward old new.

(** * The rest of the services

    The checks of the HTTP handler on the subscription and on the devices of
    a request, the status query, and the notifier. *)

(** ** api/models: the checks on a subscription *)

Module subscription.

(** [SinkCredential]: the credential type of the struct itself and the
    fields of the embedded [AccessTokenCredential] the code reads. *)
Record SinkCredential := {
  CredentialType : string;
  AccessToken : string;
  AccessTokenExpiresUtc : Z;
  AccessTokenType : string
}.

Definition HTTP : string := "HTTP".

Definition PowerSaving : string :=
  "org.camaraproject.iot-network-optimization-notification.v1.power-saving".

Definition PowerSavingError : string :=
  "org.camaraproject.iot-network-optimization-notification.v1.power-saving.error".

(** The receiver is a pointer: [None] is [nil]. *)
Definition Validate (sc : option SinkCredential) : error :=
  match sc with
  | None => None
  | Some sc =>
      if negb (String.eqb (CredentialType sc) "ACCESSTOKEN")
      then Some (Errorf ("sink credential type '" +:+ CredentialType sc
                         +:+ "' not implemented (only ACCESSTOKEN supported)"))
      else None
  end.

Definition AuthorizationHeader (sc : option SinkCredential) : string * bool :=
  match sc with
  | None => ("", false)
  | Some sc =>
      if negb (String.eqb (CredentialType sc) "ACCESSTOKEN") then ("", false)
      else if String.eqb (AccessToken sc) ""
              || negb (String.eqb (AccessTokenType sc) "bearer")
      then ("", false)
      else ("Bearer " +:+ AccessToken sc, true)
  end.

Definition ValidateProtocol (sr : models.SubscriptionRequest) : error :=
  if negb (String.eqb (models.Protocol sr) HTTP)
  then Some (Errorf ("subscription protocol '" +:+ models.Protocol sr
                     +:+ "' not implemented; only HTTP supported"))
  else None.

(** The body of the loop of [ValidateTypes] on the two flags
    [(hasPowerSaving, hasPowerSavingError)]. *)
Definition seeType (has : bool * bool) (eventType : string) : bool * bool :=
  if String.eqb eventType PowerSaving then (true, snd has)
  else if String.eqb eventType PowerSavingError then (fst has, true)
  else has.

Definition ValidateTypes (sr : models.SubscriptionRequest) : error :=
  if negb (Nat.eqb (length (models.Types sr)) 2)
  then Some (Errorf ("subscription types must contain exactly 2 event types ('"
                     +:+ PowerSaving +:+ "' and '" +:+ PowerSavingError +:+ "'), got "
                     +:+ pretty (length (models.Types sr))))
  else
    let has := foldl seeType (false, false) (models.Types sr) in
    if negb (fst has) || negb (snd has)
    then Some (Errorf ("subscription types must contain both '" +:+ PowerSaving
                       +:+ "' and '" +:+ PowerSavingError +:+ "'"))
    else None.

End subscription.

(** ** internal/api: the devices of a request, and the status query *)

Module handler.

(** [deviceidentifier.Translator]: [ResolveNetworkAccessIdentifier] answers
    with the identifier, or with an error, of which the handler uses the
    text only. *)
Definition Translator : Type := models.Device → string + string.

(** [req.Devices[i].NetworkAccessIdentifier = &nai]. *)
Definition set_NetworkAccessIdentifier (nai : string) (device : models.Device)
  : models.Device :=
  {| models.Ipv4Address := models.Ipv4Address device;
     models.Ipv6Address := models.Ipv6Address device;
     models.NetworkAccessIdentifier := Some nai;
     models.PhoneNumber := models.PhoneNumber device |}.

Definition set_Devices (devices : list models.Device) (req : api.PowerSavingRequest)
  : api.PowerSavingRequest :=
  {| api.Devices := devices; api.Enabled := api.Enabled req;
     api.SubscriptionRequest := api.SubscriptionRequest req;
     api.TimePeriod := api.TimePeriod req |}.

(** [%v] of a [[]string]. *)
Definition Sprint (l : list string) : string :=
  "[" +:+ String.concat " " l +:+ "]".

(** The loop of [ActivatePowerSaving] over [req.Devices], from the index [i]
    on, with the identifiers [seen] so far: the devices with their resolved
    identifiers and [deviceIDs], or the answer that rejects the request. *)
Fixpoint resolveDevices (translator : Translator) (i : nat) (seen : gset string)
    (devices : list models.Device) : (list models.Device * list string) + api.Response :=
  match devices with
  | [] => inl ([], [])
  | device :: rest =>
      match translator device with
      | inr err =>
          inr (api.ErrorInfo 400 "INVALID_ARGUMENT"
                 ("failed to resolve device identifier at index " +:+ pretty i
                  +:+ ": " +:+ err))
      | inl nai =>
          if bool_decide (nai ∈ seen)
          then inr (api.ErrorInfo 400 "INVALID_ARGUMENT"
                      ("duplicate device in request: " +:+ nai))
          else
            match resolveDevices translator (S i) ({[nai]} ∪ seen) rest with
            | inr rejected => inr rejected
            | inl (devices', deviceIDs) =>
                inl (set_NetworkAccessIdentifier nai device :: devices', nai :: deviceIDs)
            end
      end
  end.

(** [ActivatePowerSaving] from [// Validate request] on, reached when the
    format and subscription checks passed: [transactionID] is the fresh
    UUID. *)
Definition ActivatePowerSaving_devices (e : Env) (failsq : queries.QueryCall → bool)
    (translator : Translator) (transactionID : string) (req : api.PowerSavingRequest)
  : M api.Response :=
  if Nat.eqb (length (api.Devices req)) 0
  then ret (api.ErrorInfo 400 "INVALID_ARGUMENT" "devices list cannot be empty")
  else
    match resolveDevices translator 0 ∅ (api.Devices req) with
    | inr rejected => ret rejected
    | inl (devices, deviceIDs) =>
        let req := set_Devices devices req in
        let* rejected :=
          if negb (api.Enabled req) then
            let* r := db_read (queries.CheckDeviceConfigsExist failsq deviceIDs) in
            match r with
            | inr _ =>
                ret (Some (api.ErrorInfo 500 "INTERNAL"
                             "failed to verify device configurations"))
            | inl missingConfigs =>
                if Nat.ltb 0 (length missingConfigs)
                then ret (Some (api.ErrorInfo 400 "INVALID_ARGUMENT"
                                  ("cannot disable power-saving: no stored configuration for devices: "
                                   +:+ Sprint missingConfigs)))
                else ret None
            end
          else ret None in
        match rejected with
        | Some rejected => ret rejected
        | None =>
            let* r := db_read (queries.CheckDeviceConflicts failsq deviceIDs) in
            match r with
            | inr _ =>
                ret (api.ErrorInfo 500 "INTERNAL" "failed to check device availability")
            | inl conflicts =>
                if Nat.ltb 0 (length conflicts)
                then ret (api.ErrorInfo 409 "CONFLICT"
                            ("one or more devices are already in use by active transactions: "
                             +:+ Sprint conflicts))
                else api.ActivatePowerSaving_schedule e transactionID req
            end
        end
    end.

(** [models.DeviceStatusStatus]. *)
Definition Failed : string := "failed".
Definition InProgress : string := "in-progress".
Definition Pending : string := "pending".
Definition Success : string := "success".

Record DeviceStatus := {
  ds_Device : models.Device;
  ds_Status : string
}.

Record PowerSavingResponse := {
  ActivationStatus : list DeviceStatus;
  TransactionId : string
}.

(** The [switch] on the status of a recorded action; [success] is what the
    case "success" answers. *)
Definition statusOf (success : string) (a : database.DeviceActionStatus) : string :=
  if String.eqb (database.das_Status a) "success" then success
  else if String.eqb (database.das_Status a) "failed" then Failed
  else if String.eqb (database.das_Status a) "in-progress" then InProgress
  else if String.eqb (database.das_Status a) "pending" then Pending
  else Failed.

(** The body of the loop of [GetPowerSaving]. *)
Definition deviceStatus (transaction : database.Transaction)
    (txDevice : database.TransactionDevice) : DeviceStatus :=
  let status :=
    match database.EndAction txDevice with
    | Some a => statusOf Success a
    | None =>
        match database.StartAction txDevice with
        | Some a =>
            statusOf (match database.EndAt transaction with
                      | Some _ => InProgress
                      | None => Success
                      end) a
        | None => Pending
        end
    end in
  {| ds_Device := database.Device txDevice; ds_Status := status |}.


End handler.

(** ** internal/notifier *)

Module notifier.

(** The CloudEvent of a callback and the request that carries it. *)
Inductive Payload :=
| PowerSavingPayload (response : handler.PowerSavingResponse)
| ErrorPayload (transactionId : string) (status : Z) (code message : string).

Record CloudEvent := {
  ce_ID : string;
  ce_Source : string;
  ce_Type : string;
  ce_Time : Z;
  ce_Data : Payload
}.

Record Request := {
  Method : string;
  URL : string;
  ContentType : string;
  Authorization : option string;
  Body : CloudEvent
}.

(** What the libraries do with a callback: the CloudEvent cannot be built
    ([SetData], [json.Marshal]) or the request cannot ([http.NewRequest]),
    and nothing is sent; or [client.Do] is called, and fails or answers with
    a status code. *)
Inductive Delivery :=
| SetDataFails (cause : err)
| MarshalFails (cause : err)
| NewRequestFails (cause : err)
| DoFails (cause : err)
| Responds (StatusCode : Z).

Definition SourceiotAPI : string := "urn:tim:iot-api".
Definition SourceiotNotify : string := "urn:tim:iot-notify".

(** The body of the loop of [handleAllDevicesCompleted]. *)
Definition deviceStatus (action : string) (txDevice : database.TransactionDevice)
  : handler.DeviceStatus :=
  let actionStatus :=
    if String.eqb action event.ActionStart then database.StartAction txDevice
    else database.EndAction txDevice in
  let status :=
    match actionStatus with
    | Some a => handler.statusOf handler.Success a
    | None => handler.Pending
    end in
  {| handler.ds_Device := database.Device txDevice; handler.ds_Status := status |}.

(** From the CloudEvent on, both handlers end alike: the result is the error
    of the handler and the requests given to [client.Do]. *)
Definition deliver (http : Request → Delivery) (req : Request) : error * list Request :=
  match http req with
  | SetDataFails cause => (Some (Wrap "failed to set CloudEvent data" cause), [])
  | MarshalFails cause => (Some (Wrap "failed to marshal CloudEvent" cause), [])
  | NewRequestFails cause => (Some (Wrap "failed to create HTTP request" cause), [])
  | DoFails _ => (None, [req])
  | Responds _ => (None, [req])
  end.

(** [handleAllDevicesCompleted], from the decoded event data on;
    [sinkCredential] is [data.SubscriptionRequest.SinkCredential]. *)
Definition handleAllDevicesCompleted (e : Env) (http : Request → Delivery)
    (sinkCredential : option subscription.SinkCredential)
    (data : event.AllDevicesCompletedData) (m : database.mongoDB)
  : error * list Request :=
  let sink := models.Sink (event.adc_SubscriptionRequest data) in
  if String.eqb sink "" then (None, [])
  else
    match queries.GetTransactionDevices e (event.adc_TransactionID data)
            (event.adc_Action data) m with
    | inr err => (Some (Wrap "failed to get transaction devices" err), [])
    | inl devices =>
        let response :=
          {| handler.ActivationStatus := deviceStatus (event.adc_Action data) <$> devices;
             handler.TransactionId := event.adc_TransactionID data |} in
        let notifEvent :=
          {| ce_ID := event.adc_TransactionID data +:+ "-" +:+ event.adc_Action data;
             ce_Source := SourceiotAPI;
             ce_Type := subscription.PowerSaving;
             ce_Time := now e;
             ce_Data := PowerSavingPayload response |} in
        let authHeader := subscription.AuthorizationHeader sinkCredential in
        deliver http
          {| Method := "POST"; URL := sink;
             ContentType := "application/cloudevents+json";
             Authorization := if snd authHeader then Some (fst authHeader) else None;
             Body := notifEvent |}
    end.

(** [handleErrorNotification], from the decoded event data on. *)
Definition handleErrorNotification (e : Env) (http : Request → Delivery)
    (sinkCredential : option subscription.SinkCredential)
    (errorData : event.ErrorNotificationData) : error * list Request :=
  let sink := models.Sink (event.en_SubscriptionRequest errorData) in
  if String.eqb sink "" then (None, [])
  else
    let notifEvent :=
      {| ce_ID := event.en_TransactionID errorData +:+ "-error";
         ce_Source := SourceiotNotify;
         ce_Type := subscription.PowerSavingError;
         ce_Time := now e;
         ce_Data := ErrorPayload (event.en_TransactionID errorData)
                      (event.en_Status errorData) (event.en_Code errorData)
                      (event.en_Message errorData) |} in
    let authHeader := subscription.AuthorizationHeader sinkCredential in
    deliver http
      {| Method := "POST"; URL := sink;
         ContentType := "application/cloudevents+json";
         Authorization := if snd authHeader then Some (fst authHeader) else None;
         Body := notifEvent |}.

End notifier.

(** ** Vocabulary of the properties of this part *)

(** What a step of the services does to a row: [row_le], and the status
    stays or becomes failed or completed. *)
Definition row_step (row row' : database.Transaction) : Prop :=
  row_le row row'
  ∧ (database.tx_Status row' = database.tx_Status row
     ∨ database.tx_Status row' = database.StatusFailed
     ∨ database.tx_Status row' = database.StatusCompleted).

(** The row the scheduler creates for a request. *)
Definition created (e : Env) (data : event.ScheduleRequestedData) : database.Transaction :=
  database.set_UpdatedAt (now e)
    (database.set_CreatedAt (now e) (scheduler.newTransaction e data)).

(** The start timer the recovery arms for a row. *)
Definition recovered_timer (e : Env) (tx : database.Transaction) : Timer :=
  {| delay := scheduler.clamp e (database.StartAt tx);
     fires := {| sa_TransactionID := database.TransactionID tx;
                 sa_Action := "start";
                 sa_SubscriptionRequest := database.SubscriptionRequest tx |} |}.

(** The scheduler handles the same [AllDevicesCompleted] [n] times. *)
Fixpoint redeliver (n : nat) (e : Env) (data : event.AllDevicesCompletedData)
    (s : State) : State :=
  match n with
  | 0 => s
  | S n' => redeliver n' e data (snd (scheduler.handleAllDevicesCompleted e data s))
  end.

(** ** The retention loop and the completions *)

(** The write did not delete the row of the transaction: when the store
    holds one before, it holds one after. *)
Definition kept (id : string) (m m' : database.mongoDB) : Prop :=
  is_Some (database.transactions m !! id) → is_Some (database.transactions m' !! id).

(** A step of the pool of callers, and a step of the system, that does not
    delete the row of the transaction. *)
Definition pool_keeps (id : string) (p p' : election.Pool) : Prop :=
  election.step p p' ∧ kept id (election.shared p) (election.shared p').

Definition evolve_keeps (cfg : config.PowerSaving) (id : string) (s s' : State) : Prop :=
  evolve cfg s s' ∧ kept id (store s) (store s').

(** C1 as the specification has it, for the system: whatever the system
    does, at most one completion is ever sent for a transaction and an
    action. *)
Definition emitted_once_ever : Prop :=
  ∀ cfg s id f, rtc (evolve cfg) initial s → completions id f s ≤ 1.

(** C1 as the specification has it, for the callers: once the notified flag
    is set, no later call ever returns [allCompleted = true]. *)
Definition no_winner_ever : Prop :=
  ∀ p p' id f,
    rtc election.step p p' →
    election.notified id f (election.shared p) = true →
    election.winners id f p' = election.winners id f p.

(** ** The run of the example, continued past the retention period

    After the transaction "U" has completed, the cleanup runs a week and an
    instant later and deletes its row; the request for "U" is delivered
    again, the scheduler creates the row afresh, the start timer fires, the
    fan-out publishes the actuation request and the worker handles it. *)

Module again.

Definition late : Z := 12 + 168 * retention.Hour + 1.

Definition s5 : State :=
  snd (retention.runCleanup (quiet late) (λ _, false) (retention.New None) walk.s4).

Definition s6 : State :=
  snd (scheduler.handleScheduleRequested (quiet late) example.requested_open s5).

Definition s7 : State :=
  snd (scheduler.enqueueScheduleAction "U" "start" example.sub
         (set_scheduler (timers s6) ([] ++ []) (fireChan s6) s6)).

Definition s8 : State :=
  snd (scheduler.fireSchedule (quiet (late + 1)) example.start_open
         (set_scheduler (timers s7) (runtime s7) [] s7)).

Definition s9 : State :=
  snd (worker.processDevice (quiet (late + 2)) config.default "U"
         (example.device (Some "a")) "a" "start" true example.sub s8).

(** The cleanup runs at 13, before the retention period has passed. *)
Definition early : State :=
  snd (retention.runCleanup (quiet 13) (λ _, false) (retention.New None) walk.s4).

(** The pool of the race, continued: the transaction "T" is marked
    completed and deleted by the retention loop, its row is created again,
    and the statuses of its two devices are written by two new callers. *)
Definition write (e : Env) (o : election.Other) (p : election.Pool) : election.Pool :=
  {| election.shared := election.other e o (election.shared p);
     election.callers := election.callers p |}.

Definition caller_b : election.Caller :=
  {| election.transactionID := "T"; election.deviceID := "b";
     election.action := "start"; election.status := "success";
     election.phase := election.Called |}.

Definition deleted : election.Pool :=
  write (quiet 18) (election.OtherDeleteOld (λ _, false) 17)
    (write (quiet 16) (election.OtherMarkCompleted "T") race.finish).

Definition pool : election.Pool :=
  race.move (quiet 23) 3 (race.move (quiet 22) 3 (race.call race.caller
    (race.move (quiet 21) 2 (race.move (quiet 20) 2 (race.call caller_b
      (write (quiet 19)
         (election.OtherCreate (scheduler.newTransaction (quiet 19) example.requested))
         deleted)))))).

End again.

(** ** The completion the broker did not take *)

(** An environment whose event sender fails every call. *)
Definition deaf (t : Z) : Env :=
  {| now := t; fails := λ _, false; deviceClient := easyapi.DummyClient;
     sendFails := λ _, true |}.

(** C7 as the specification has it: the handler execution that won the
    election, the one that calls [Send] with the [AllDevicesCompleted],
    leaves the transaction Completed when the action is the end action or
    the start action of a transaction without end, the store being at its
    service. *)
Definition winner_always_marks : Prop :=
  ∀ e cfg id device dev action enabled sub s row row',
    let s' := snd (worker.processDevice e cfg id device dev action enabled sub s) in
    row_of s id = Some row →
    row_of s' id = Some row' →
    sendLog s' = sendLog s ++ [completion_event e id action sub] →
    (∀ call, fails e call = false) →
    completes action row →
    database.tx_Status row' = database.StatusCompleted.

(** The run of the example, when the event sender fails as the worker
    handles the request; the broker then delivers the request again, to a
    worker whose event sender works. *)
Module lost.

Definition s4 : State :=
  snd (worker.processDevice (deaf 12) config.default "U" (example.device (Some "a"))
         "a" "start" true example.sub walk.s3).

Definition s5 : State :=
  snd (worker.processDevice (quiet 13) config.default "U" (example.device (Some "a"))
         "a" "start" true example.sub s4).

End lost.

(** ** The devices of a row *)

(** The identifiers of the devices of the row are the same, in the same
    order. *)
Definition same_devices (row row' : database.Transaction) : Prop :=
  database.DeviceID <$> database.Devices row' = database.DeviceID <$> database.Devices row.

(** The store holds a row for the transaction, and the row is pending or
    processing. *)
Definition pending_at (id : string) (s : State) : Prop :=
  ∃ row, row_of s id = Some row ∧ database.is_pending row.

(** A step of the system after which the transaction is pending or
    processing. *)
Definition evolve_pending (cfg : config.PowerSaving) (id : string) (s s' : State) : Prop :=
  evolve cfg s s' ∧ pending_at id s'.

(** ** Two requests for one device

    A translator that answers with the identifier the device carries; the
    handler handles the request of the example at 5 and again at 6, and the
    scheduler then handles the two events. *)

Module twice.

Definition translator : handler.Translator :=
  λ device,
    match models.NetworkAccessIdentifier device with
    | Some nai => inl nai
    | None => inr "no identifier"
    end.

Definition first : api.Response * State :=
  handler.ActivatePowerSaving_devices (quiet 5) (λ _, false) translator "T1"
    example.request initial.

Definition second : api.Response * State :=
  handler.ActivatePowerSaving_devices (quiet 6) (λ _, false) translator "T2"
    example.request (snd first).

Definition data (transactionID : string) : event.ScheduleRequestedData :=
  {| event.StartAt := 3; event.EndAt := Some 20%Z;
     event.Payload :=
       {| event.Devices := [example.device (Some "a")];
          event.Enabled := true; event.SubscriptionRequest := example.sub;
          event.TransactionID := transactionID |} |}.

Definition s1 : State :=
  snd (scheduler.handleScheduleRequested (quiet 7) (data "T1") (snd second)).

Definition s2 : State :=
  snd (scheduler.handleScheduleRequested (quiet 8) (data "T2") s1).

End twice.

(** * Properties *)

(** ** The monad and the logs *)

Lemma for_each_cons {A} (body : A → M unit) x l s :
  for_each body (x :: l) s = for_each body l (snd (body x s)).
Proof. simpl. unfold bind. by destruct (body x s) as [[] s']. Qed.

Lemma Send_sendLog e id d s :
  sendLog (snd (Send e id d s)) = sendLog s ++ [{| event.ID := id; event.data := d |}].
Proof. unfold Send. by destruct (sendFails e id). Qed.

Lemma bind_eq {A B} (c : M A) (k : A → M B) s :
  bind c k s = k (fst (c s)) (snd (c s)).
Proof. unfold bind. by destruct (c s). Qed.

Lemma db_eq {A} (f : database.mongoDB → A * database.mongoDB) s :
  db f s = (fst (f (store s)), set_store (snd (f (store s))) s).
Proof. unfold db. by destruct (f (store s)). Qed.

(** ** Fan-out of the scheduler *)

Lemma publish_from_sendLog e transaction schedAction enabledValue devices k s :
  sendLog (snd (for_each
    (scheduler.publishActuationRequest e transaction schedAction enabledValue)
    (imap (λ i d, (k + i, d)) devices) s))
  = sendLog s ++ imap (λ i, actuation_event (database.TransactionID transaction)
                         (sa_Action schedAction) enabledValue
                         (sa_SubscriptionRequest schedAction) (k + i)) devices.
Proof.
  revert k s. induction devices as [|d devices IH]; intros k s.
  - simpl. by rewrite app_nil_r.
  - rewrite !imap_cons, for_each_cons.
    rewrite (imap_ext _ (λ i d, (S k + i, d)) devices) by (intros; simpl; f_equal; lia).
    rewrite IH. unfold scheduler.publishActuationRequest at 1, bind. simpl.
    destruct (Send _ _ _ s) as [r s1] eqn:HS. simpl.
    assert (s1 = snd (Send e (database.TransactionID transaction +:+ "-" +:+ sa_Action schedAction +:+ "-device-" +:+ pretty (k + 0)) (event.DeviceActuationRequest
           {| event.dar_Device := database.Device d;
          event.dar_Enabled := enabledValue;
          event.dar_TransactionID := database.TransactionID transaction;
          event.dar_Action := sa_Action schedAction;
          event.dar_SubscriptionRequest := sa_SubscriptionRequest schedAction |}) s)) as -> by (by rewrite HS).
    rewrite Send_sendLog, <- app_assoc. simpl. f_equal. f_equal.
    apply imap_ext. intros; simpl. f_equal; lia.
Qed.

(** [ClaimTransaction] claims exactly when the row exists and passes the
    filter on the completed flag; the claim only stamps [updatedAt]. *)
Lemma ClaimTransaction_claimed e id action m r m' :
  database.ClaimTransaction e id action m = ((true, r), m') →
  ∃ row, database.transactions m !! id = Some row
         ∧ database.claim_filter action row = true
         ∧ r = None
         ∧ m' = database.with_transactions m
                  (<[id := database.set_UpdatedAt (now e) row]> (database.transactions m)).
Proof.
  unfold database.ClaimTransaction, database.updateOne.
  destruct (fails e (UpdateOne_claim id action)); [congruence|].
  destruct (database.transactions m !! id) as [row|] eqn:Hrow; simpl.
  - destruct (database.claim_filter action row) eqn:Hf; simpl.
    + intros [= <- <-]. eauto.
    + unfold database.GetTransaction. destruct (fails e (FindOne id)); [congruence|].
      rewrite Hrow. congruence.
  - unfold database.GetTransaction. destruct (fails e (FindOne id)); [congruence|].
    rewrite Hrow. congruence.
Qed.

(** C8. A claimed fan-out sends one [DeviceActuationRequest] per device of the
    transaction, in the order of the list; the event of the device at
    position [i] has the id [<transactionId>-<action>-device-<i>], and its
    [enabled] is the transaction's for the start phase and the negation for
    the end phase. *)
Theorem fireSchedule_fan_out e schedAction s row :
  database.transactions (store s) !! sa_TransactionID schedAction = Some row →
  database.TransactionID row = sa_TransactionID schedAction →
  fst (fst (database.ClaimTransaction e (sa_TransactionID schedAction)
              (sa_Action schedAction) (store s))) = true →
  fails e (FindOne (sa_TransactionID schedAction)) = false →
  let s' := snd (scheduler.fireSchedule e schedAction s) in
  let sent enabled :=
    imap (actuation_event (sa_TransactionID schedAction) (sa_Action schedAction)
            enabled (sa_SubscriptionRequest schedAction)) (database.Devices row) in
  fst (scheduler.fireSchedule e schedAction s) = None
  ∧ (∃ sent, sendLog s' = sendLog s ++ sent
             ∧ length sent = length (database.Devices row))
  ∧ (sa_Action schedAction = event.ActionStart →
     sendLog s' = sendLog s ++ sent (database.Enabled row))
  ∧ (sa_Action schedAction = event.ActionEnd →
     sendLog s' = sendLog s ++ sent (negb (database.Enabled row))).
Proof.
  intros Hrow Hid Hclaim Hfind s' sent.
  destruct (database.ClaimTransaction e (sa_TransactionID schedAction)
              (sa_Action schedAction) (store s)) as [[claimed r] m'] eqn:HC.
  simpl in Hclaim. subst claimed.
  destruct (ClaimTransaction_claimed _ _ _ _ _ _ HC) as (row' & Hrow' & _ & -> & ->).
  rewrite Hrow in Hrow'. injection Hrow' as <-.
  assert (Hrun : scheduler.fireSchedule e schedAction s
    = (None, snd (for_each
        (scheduler.publishActuationRequest e (database.set_UpdatedAt (now e) row) schedAction
           (if String.eqb (sa_Action schedAction) event.ActionEnd
            then negb (database.Enabled row) else database.Enabled row))
        (imap (λ i d, (0 + i, d)) (database.Devices row))
        (set_store (database.with_transactions (store s)
           (<[sa_TransactionID schedAction := database.set_UpdatedAt (now e) row]>
              (database.transactions (store s)))) s)))).
  { unfold scheduler.fireSchedule. rewrite bind_eq, db_eq, HC. simpl.
    rewrite bind_eq. unfold db_read at 1. simpl.
    unfold database.GetTransaction. rewrite Hfind. simpl.
    rewrite lookup_insert_eq. simpl. rewrite bind_eq. reflexivity. }
  subst s'. rewrite Hrun. cbn [fst snd]. rewrite publish_from_sendLog. simpl. rewrite Hid.
  split; [done|]. split; [|split].
  - eexists. split; [reflexivity|]. by rewrite length_imap.
  - intros Ha. subst sent. cbv beta. rewrite Ha. reflexivity.
  - intros Ha. subst sent. cbv beta. rewrite Ha. reflexivity.
Qed.

Lemma fireSchedule_fan_out_witness :
  sendLog (snd (scheduler.fireSchedule (quiet 11) example.finish example.scheduled))
  = [actuation_event "T" "end" false example.sub 0
       {| database.DeviceID := "a"; database.Device := example.device (Some "a");
          database.StartAction := None; database.EndAction := None |};
     actuation_event "T" "end" false example.sub 1
       {| database.DeviceID := "b"; database.Device := example.device (Some "b");
          database.StartAction := None; database.EndAction := None |}].
Proof.
  destruct (fireSchedule_fan_out (quiet 11) example.finish example.scheduled example.row)
    as (_ & _ & _ & H); [vm_compute; reflexivity ..|].
  exact (H eq_refl).
Defined.

(** ** [handleScheduleRequested] *)

Lemma sendErrorNotification_eq e id action code msg sub s :
  scheduler.sendErrorNotification e id action code msg sub s
  = (tt, if String.eqb (models.Sink sub) "" then s
         else log_send {| event.ID := id +:+ "-" +:+ action +:+ "-error";
                          event.data := event.PowerSavingError
                            {| event.en_TransactionID := id; event.en_Status := 500;
                               event.en_Code := code; event.en_Message := msg;
                               event.en_Action := action;
                               event.en_SubscriptionRequest := sub |} |}
                (negb (sendFails e (id +:+ "-" +:+ action +:+ "-error"))) s).
Proof.
  unfold scheduler.sendErrorNotification.
  destruct (String.eqb (models.Sink sub) ""); [done|].
  rewrite bind_eq. unfold Send. by destruct (sendFails e _).
Qed.

(** The row is created: the handler arms the start timer and nothing else. *)
Lemma handleScheduleRequested_created e data s :
  let id := event.TransactionID (event.Payload data) in
  database.transactions (store s) !! id = None →
  fails e (InsertOne id) = false →
  scheduler.handleScheduleRequested e data s
  = (None,
     set_scheduler (<[scheduler.timerKey id "start" := start_timer e data]> (timers s))
       (runtime s ++ [start_timer e data]) (fireChan s)
       (set_store (database.with_transactions (store s)
          (<[id := database.set_UpdatedAt (now e)
                     (database.set_CreatedAt (now e) (scheduler.newTransaction e data))]>
             (database.transactions (store s)))) s)).
Proof.
  intros id Hnone Hok. unfold scheduler.handleScheduleRequested.
  rewrite bind_eq, db_eq. unfold database.CreateTransaction. simpl.
  fold id. rewrite Hok, Hnone. reflexivity.
Qed.

(** The row is not created: the store and the scheduler's memory stay as they
    are, the handler returns the error, and an error event goes out when the
    subscription has a sink. *)
Lemma handleScheduleRequested_failed e data s :
  let id := event.TransactionID (event.Payload data) in
  let sub := event.SubscriptionRequest (event.Payload data) in
  is_Some (database.transactions (store s) !! id) ∨ fails e (InsertOne id) = true →
  ∃ cause,
    (cause = ErrDuplicateKey ∨ cause = ErrDriver)
    ∧ scheduler.handleScheduleRequested e data s
      = (Some (Wrap "create transaction" cause),
         if String.eqb (models.Sink sub) "" then s
         else log_send (error_event id "start" "Failed to create transaction in database" sub)
                (negb (sendFails e (id +:+ "-start-error"))) s).
Proof.
  intros id sub H. unfold scheduler.handleScheduleRequested.
  rewrite bind_eq, db_eq. unfold database.CreateTransaction. simpl. fold id.
  destruct (fails e (InsertOne id)) eqn:Hf.
  - exists ErrDriver. split; [by right|]. simpl.
    rewrite bind_eq, sendErrorNotification_eq. simpl. fold sub.
    destruct s; simpl. by destruct (String.eqb (models.Sink sub) "").
  - destruct H as [[row Hrow]|]; [|done]. rewrite Hrow.
    exists ErrDuplicateKey. split; [by left|]. simpl.
    rewrite bind_eq, sendErrorNotification_eq. simpl. fold sub.
    destruct s; simpl. by destruct (String.eqb (models.Sink sub) "").
Qed.

Lemma replay_store es data s :
  is_Some (database.transactions (store s) !! event.TransactionID (event.Payload data)) →
  store (replay es data s) = store s
  ∧ timers (replay es data s) = timers s
  ∧ runtime (replay es data s) = runtime s.
Proof.
  revert s. induction es as [|e es IH]; intros s Hrow; [done|]. simpl.
  destruct (handleScheduleRequested_failed e data s (or_introl Hrow)) as (cause & _ & ->).
  simpl.
  assert (Hsame : ∀ ev b,
    let s' := if String.eqb (models.Sink (event.SubscriptionRequest (event.Payload data))) ""
              then s else log_send ev b s in
    store s' = store s ∧ timers s' = timers s ∧ runtime s' = runtime s).
  { intros ev b. simpl. by destruct (String.eqb _ ""). }
  specialize (Hsame (error_event (event.TransactionID (event.Payload data)) "start"
    "Failed to create transaction in database"
    (event.SubscriptionRequest (event.Payload data)))
    (negb (sendFails e (event.TransactionID (event.Payload data) +:+ "-start-error")))).
  simpl in Hsame. destruct Hsame as (Hs & Ht & Hr).
  destruct (IH _ ltac:(rewrite Hs; exact Hrow)) as (-> & -> & ->). done.
Qed.

(** C5, as amended.  Handling a [ScheduleRequested] whose transaction already
    has a row leaves the store as it is, so that after any number of replays
    the row is the one the first delivery made, and arms no timer; but the
    handler returns the error of the insert each time, and sends a
    [PowerSavingError] for the start action when the subscription has a
    sink. *)
Theorem handleScheduleRequested_replay e es data s row :
  let id := event.TransactionID (event.Payload data) in
  let sub := event.SubscriptionRequest (event.Payload data) in
  let s' := snd (scheduler.handleScheduleRequested e data s) in
  database.transactions (store s) !! id = Some row →
  (∃ cause, fst (scheduler.handleScheduleRequested e data s)
            = Some (Wrap "create transaction" cause))
  ∧ store s' = store s ∧ timers s' = timers s ∧ runtime s' = runtime s
  ∧ (models.Sink sub ≠ "" →
     sendLog s' = sendLog s
       ++ [error_event id "start" "Failed to create transaction in database" sub])
  ∧ (models.Sink sub = "" → s' = s)
  ∧ store (replay es data s) = store s
  ∧ runtime (replay es data s) = runtime s.
Proof.
  intros id sub s' Hrow. subst s'.
  destruct (handleScheduleRequested_failed e data s (or_introl (mk_is_Some _ _ Hrow)))
    as (cause & _ & ->). fold id sub. simpl.
  split; [eauto|].
  destruct (replay_store es data s (mk_is_Some _ _ Hrow)) as (Hs & _ & Hr).
  destruct (String.eqb_spec (models.Sink sub) "") as [Hsink|Hsink]; simpl;
    repeat split; try done.
Qed.

Lemma handleScheduleRequested_replay_witness :
  fst (scheduler.handleScheduleRequested (quiet 6) example.requested example.scheduled)
    = Some (Wrap "create transaction" ErrDuplicateKey)
  ∧ store (replay [quiet 6; quiet 7; quiet 8] example.requested example.scheduled)
    = store example.scheduled.
Proof.
  destruct (handleScheduleRequested_replay (quiet 6) [quiet 6; quiet 7; quiet 8]
              example.requested example.scheduled example.row)
    as (_ & _ & _ & _ & _ & _ & H & _); [vm_compute; reflexivity|].
  split; [vm_compute; reflexivity|exact H].
Defined.

(** C5, counterexample.  The request of the example is delivered a second time
    in an environment where nothing fails: the handler returns the duplicate
    key error and sends a [PowerSavingError]. *)
Lemma duplicate_is_not_silent :
  fst (scheduler.handleScheduleRequested (quiet 6) example.requested example.scheduled)
    = Some (Wrap "create transaction" ErrDuplicateKey)
  ∧ sendLog (snd (scheduler.handleScheduleRequested (quiet 6) example.requested
                    example.scheduled))
    = [error_event "T" "start" "Failed to create transaction in database" example.sub]
  ∧ ¬ duplicate_is_silent.
Proof.
  split; [vm_compute; reflexivity|]. split; [vm_compute; reflexivity|].
  intros H.
  destruct (H 6%Z example.requested example.scheduled) as [Hret _].
  - vm_compute. eauto.
  - vm_compute in Hret. discriminate.
Qed.

(** ** Time validation of [ActivatePowerSaving] *)

Lemma clamp_past e t : (t ≤ now e)%Z → scheduler.clamp e t = 0%Z.
Proof. unfold scheduler.clamp. intros H. destruct (Z.ltb_spec (t - now e) 0); lia. Qed.

(** C9. The time validation of Submit.  With an [endAt] that is not strictly
    after [startAt] the request fails with INVALID_ARGUMENT; with [startAt]
    and [endAt] both strictly in the past it fails with INVALID_ARGUMENT; with
    only [startAt] in the past, or with no time period, it is accepted (the
    [ScheduleRequested] goes out with that [startAt], resp. with the current
    instant), and the scheduler arms its start timer with delay 0. *)
Theorem ActivatePowerSaving_time_validation e transactionID req s :
  let r := api.ActivatePowerSaving_schedule e transactionID req s in
  let scheduled startAt endAt :=
    {| event.StartAt := startAt; event.EndAt := endAt;
       event.Payload :=
         {| event.Devices := api.Devices req; event.Enabled := api.Enabled req;
            event.SubscriptionRequest := api.SubscriptionRequest req;
            event.TransactionID := transactionID |} |} in
  let accepted startAt endAt :=
    sendFails e transactionID = false →
    r = (api.Accepted transactionID,
         log_send {| event.ID := transactionID;
                     event.data := event.ScheduleRequested (scheduled startAt endAt) |}
           true s)
    ∧ ∀ e' s',
        (now e ≤ now e')%Z →
        database.transactions (store s') !! transactionID = None →
        fails e' (InsertOne transactionID) = false →
        runtime (snd (scheduler.handleScheduleRequested e' (scheduled startAt endAt) s'))
        = runtime s' ++ [{| delay := 0;
                            fires := {| sa_TransactionID := transactionID;
                                        sa_Action := "start";
                                        sa_SubscriptionRequest := api.SubscriptionRequest req |} |}] in
  (∀ startAt endAt,
     api.TimePeriod req = Some {| api.EndDate := Some endAt; api.StartDate := startAt |} →
     (endAt ≤ startAt)%Z →
     r = (api.ErrorInfo 400 "INVALID_ARGUMENT" "endDate must be after startDate", s))
  ∧ (∀ startAt endAt,
     api.TimePeriod req = Some {| api.EndDate := Some endAt; api.StartDate := startAt |} →
     (startAt < now e)%Z → (endAt < now e)%Z →
     ∃ Message, r = (api.ErrorInfo 400 "INVALID_ARGUMENT" Message, s))
  ∧ (∀ startAt endAt,
     api.TimePeriod req = Some {| api.EndDate := endAt; api.StartDate := startAt |} →
     (startAt < now e)%Z →
     (∀ t, endAt = Some t → (startAt < t)%Z ∧ (now e ≤ t)%Z) →
     accepted startAt endAt)
  ∧ (api.TimePeriod req = None → accepted (now e) None).
Proof.
  intros r scheduled accepted.
  assert (Hacc : ∀ startAt endAt,
    api.validateTimePeriod e req = inl (startAt, endAt) →
    (startAt ≤ now e)%Z → accepted startAt endAt).
  { intros startAt endAt Hv Hpast Hsend. subst r. split.
    - unfold api.ActivatePowerSaving_schedule. rewrite Hv, bind_eq.
      unfold Send. rewrite Hsend. reflexivity.
    - intros e' s' Hlater Hnone Hok.
      rewrite (handleScheduleRequested_created e' (scheduled startAt endAt) s' Hnone Hok).
      simpl. unfold start_timer. simpl. rewrite clamp_past by lia. reflexivity. }
  subst r. unfold api.ActivatePowerSaving_schedule.
  split; [|split; [|split]].
  - intros startAt endAt Hreq Hle. unfold api.validateTimePeriod. rewrite Hreq. simpl.
    destruct (Z.ltb_spec startAt endAt); [lia|]. reflexivity.
  - intros startAt endAt Hreq Hs He. unfold api.validateTimePeriod. rewrite Hreq. simpl.
    destruct (Z.ltb_spec startAt endAt); simpl; [|eauto].
    destruct (Z.ltb_spec startAt (now e)); [|lia].
    destruct (Z.ltb_spec endAt (now e)); [|lia]. simpl. eauto.
  - intros startAt endAt Hreq Hs Hend. apply Hacc; [|lia].
    unfold api.validateTimePeriod. rewrite Hreq. simpl.
    destruct endAt as [t|].
    + destruct (Hend t eq_refl).
      destruct (Z.ltb_spec startAt t); [|lia]. simpl.
      destruct (Z.ltb_spec t (now e)); [lia|]. by rewrite andb_false_r.
    + by rewrite andb_false_r.
  - intros Hreq. apply Hacc; [|lia].
    unfold api.validateTimePeriod. by rewrite Hreq.
Qed.

Lemma ActivatePowerSaving_time_validation_witness :
  fst (api.ActivatePowerSaving_schedule (quiet 5) "T" example.request initial)
  = api.Accepted "T".
Proof.
  destruct (ActivatePowerSaving_time_validation (quiet 5) "T" example.request initial)
    as (_ & _ & H & _).
  destruct (H 3%Z (Some 20%Z) eq_refl) as [H1 _].
  - simpl. lia.
  - intros t [= <-]. simpl. lia.
  - reflexivity.
  - rewrite H1. reflexivity.
Defined.

(** ** The claim of the scheduler *)

Lemma ClaimTransaction_eq e id action m :
  fails e (UpdateOne_claim id action) = false →
  fails e (FindOne id) = false →
  database.ClaimTransaction e id action m
  = match database.transactions m !! id with
    | Some row =>
        if database.claim_filter action row
        then ((true, None),
              database.with_transactions m
                (<[id := database.set_UpdatedAt (now e) row]> (database.transactions m)))
        else ((false, None), m)
    | None => ((false, Some (Errorf ("transaction not found: " +:+ id))), m)
    end.
Proof.
  intros H1 H2. unfold database.ClaimTransaction, database.updateOne. rewrite H1.
  destruct (database.transactions m !! id) as [row|] eqn:Hrow.
  - destruct (database.claim_filter action row); simpl; [done|].
    unfold database.GetTransaction. by rewrite H2, Hrow.
  - simpl. unfold database.GetTransaction. by rewrite H2, Hrow.
Qed.

(** C2, as amended.  The claim is a conditional update that sets [updatedAt];
    its filter is the transaction id and [<action>ActionCompleted ≠ true], and
    the status of the row is not part of it.  When the row exists and is
    filtered out, the fire is dropped: no error, nothing sent, no change.
    When there is no row, the fire returns an error and sends a
    [PowerSavingError] if the subscription has a sink.  In both cases no
    [DeviceActuationRequest] is sent. *)
Theorem fireSchedule_claim e schedAction s :
  let id := sa_TransactionID schedAction in
  let action := sa_Action schedAction in
  let claim := database.ClaimTransaction e id action (store s) in
  let fired := scheduler.fireSchedule e schedAction s in
  fails e (UpdateOne_claim id action) = false →
  fails e (FindOne id) = false →
  (∀ row, database.transactions (store s) !! id = Some row →
     fst (fst claim)
       = (if String.eqb action "start" then negb (database.StartActionCompleted row)
          else if String.eqb action "end" then negb (database.EndActionCompleted row)
          else true)
     ∧ (fst (fst claim) = true →
        database.transactions (snd claim)
        = <[id := database.set_UpdatedAt (now e) row]> (database.transactions (store s)))
     ∧ (fst (fst claim) = false → fired = (None, s)))
  ∧ (database.transactions (store s) !! id = None →
     fst claim = (false, Some (Errorf ("transaction not found: " +:+ id)))
     ∧ fired
       = (Some (Wrap "claim transaction" (Errorf ("transaction not found: " +:+ id))),
          if String.eqb (models.Sink (sa_SubscriptionRequest schedAction)) "" then s
          else log_send (error_event id action "Failed to claim transaction in database"
                           (sa_SubscriptionRequest schedAction))
                 (negb (sendFails e (id +:+ "-" +:+ action +:+ "-error"))) s)).
Proof.
  intros id action claim fired H1 H2. subst claim fired.
  unfold scheduler.fireSchedule. rewrite bind_eq, db_eq. fold id action.
  rewrite (ClaimTransaction_eq e id action (store s) H1 H2).
  split.
  - intros row ->. unfold database.claim_filter.
    destruct (if String.eqb action "start" then negb (database.StartActionCompleted row)
              else if String.eqb action "end" then negb (database.EndActionCompleted row)
              else true) eqn:Hf; simpl.
    + repeat split; done.
    + repeat split; try done. intros _. by destruct s.
  - intros ->. simpl. split; [done|].
    rewrite bind_eq, sendErrorNotification_eq. simpl.
    destruct s; simpl. by destruct (String.eqb _ "").
Qed.

Lemma fireSchedule_claim_witness :
  scheduler.fireSchedule (quiet 30) example.finish initial
  = (Some (Wrap "claim transaction" (Errorf "transaction not found: T")),
     log_send (error_event "T" "end" "Failed to claim transaction in database" example.sub)
       true initial).
Proof.
  destruct (fireSchedule_claim (quiet 30) example.finish initial) as [_ H];
    [reflexivity ..|].
  exact (proj2 (H eq_refl)).
Defined.

(** C2, counterexample.  In the run of the example the transaction "U" is
    completed while a second start timer is armed; when that timer fires, the
    claim matches the completed row and the device is actuated again.  And a
    fire for a transaction without a row is not silent: it returns an error
    and sends a [PowerSavingError]. *)
Lemma claim_ignores_status :
  (∃ row, database.transactions (store example.completed_open) !! "U" = Some row
          ∧ database.tx_Status row = database.StatusCompleted)
  ∧ runtime example.completed_open
    = [{| delay := 0; fires := example.start_open |}]
  ∧ fst (database.ClaimTransaction (quiet 13) "U" "start" (store example.completed_open))
    = (true, None)
  ∧ drop (length (sendLog example.completed_open))
      (sendLog (snd (scheduler.fireSchedule (quiet 13) example.start_open
                       example.completed_open)))
    = [actuation_event "U" "start" true example.sub 0
         {| database.DeviceID := "a"; database.Device := example.device (Some "a");
            database.StartAction := None; database.EndAction := None |}]
  ∧ ¬ claim_filters_status
  ∧ ¬ unmatched_claim_is_silent.
Proof.
  split; [eexists; split; vm_compute; reflexivity|].
  split; [vm_compute; reflexivity|].
  split; [vm_compute; reflexivity|].
  split; [vm_compute; reflexivity|].
  split.
  - intros H.
    assert (Hrow : ∃ row,
      database.transactions (store example.completed_open) !! "U" = Some row
      ∧ database.tx_Status row = database.StatusCompleted)
      by (eexists; split; vm_compute; reflexivity).
    destruct Hrow as (row & Hrow & Hst).
    destruct (H 13%Z "U" "start" (store example.completed_open) row Hrow) as [Hp|Hp];
      [vm_compute; reflexivity | congruence | congruence].
  - intros H.
    destruct (H 30%Z example.finish initial) as [Hret _]; [vm_compute; reflexivity|].
    vm_compute in Hret. discriminate.
Qed.

(** ** The store: [UpdateDeviceActionStatus] *)

Lemma update_first_length deviceID f ds ds' :
  database.update_first deviceID f ds = Some ds' → length ds' = length ds.
Proof.
  revert ds'. induction ds as [|d ds IH]; intros ds'; simpl; [done|].
  destruct (String.eqb (database.DeviceID d) deviceID).
  - by intros [= <-].
  - destruct (database.update_first deviceID f ds) as [ds0|]; simpl; [|done].
    intros [= <-]. simpl. f_equal. by apply IH.
Qed.

Lemma update_first_find deviceID f ds ds' :
  (∀ d, database.DeviceID (f d) = database.DeviceID d) →
  database.update_first deviceID f ds = Some ds' →
  ∃ d, List.find (λ d, String.eqb (database.DeviceID d) deviceID) ds = Some d
       ∧ List.find (λ d, String.eqb (database.DeviceID d) deviceID) ds' = Some (f d).
Proof.
  intros Hf. revert ds'. induction ds as [|d ds IH]; intros ds'; simpl; [done|].
  destruct (String.eqb (database.DeviceID d) deviceID) eqn:Hd.
  - intros [= <-]. exists d. split; [done|]. simpl. by rewrite Hf, Hd.
  - destruct (database.update_first deviceID f ds) as [ds0|]; simpl; [|done].
    intros [= <-]. simpl. rewrite Hd. by apply IH.
Qed.

(** What the first driver call does when it succeeds. *)
Lemma FindOneAndUpdate_deviceStatus_inl e id dev action status m post m' :
  database.FindOneAndUpdate_deviceStatus e id dev action status m = inl (post, m') →
  ∃ row ds,
    database.transactions m !! id = Some row
    ∧ database.update_first dev
        (database.set_action (database.actionField action)
           {| database.das_Status := status; database.das_Timestamp := now e |})
        (database.Devices row) = Some ds
    ∧ post = database.set_UpdatedAt (now e) (database.set_devices ds row)
    ∧ m' = database.with_transactions m (<[id := post]> (database.transactions m)).
Proof.
  unfold database.FindOneAndUpdate_deviceStatus.
  destruct (fails e _); [done|].
  destruct (database.transactions m !! id) as [row|]; [|done].
  destruct (database.update_first _ _ _) as [ds|] eqn:Hds; [|done].
  intros [= <- <-]. eauto 10.
Qed.

Lemma UpdateDeviceActionStatus_cases e id dev action status m :
  let r := database.UpdateDeviceActionStatus e id dev action status m in
  UpdateDeviceActionStatus_case e id dev action status m
    (fst (fst r)) (snd (fst r)) (snd r).
Proof.
  unfold database.UpdateDeviceActionStatus.
  destruct (database.FindOneAndUpdate_deviceStatus e id dev action status m)
    as [[post m1]|err] eqn:HF; simpl; [|by constructor].
  destruct (database.all_completed action post) eqn:Hall;
    [|by econstructor 2].
  unfold database.UpdateOne_markNotified, database.updateOne.
  destruct (fails e (UpdateOne_notified id action)) eqn:Hfail; simpl;
    [by econstructor 3|].
  pose proof (FindOneAndUpdate_deviceStatus_inl _ _ _ _ _ _ _ _ HF)
    as (row & ds & Hrow & Hds & Hpost & Hm1).
  assert (Hlook : database.transactions m1 !! id = Some post)
    by (subst m1; simpl; apply lookup_insert_eq).
  rewrite Hlook.
  destruct (database.get_notified (database.notifiedField action) post) eqn:Hn; simpl.
  - by econstructor 4.
  - by apply (election_won e id dev action status m post m1).
Qed.

(** ** The worker *)

(** [processDevice], call by call. *)
Lemma processDevice_eq e cfg id device dev action enabled sub s :
  worker.processDevice e cfg id device dev action enabled sub s
  = let r1 := database.UpdateDeviceActionStatus e id dev action "in-progress" (store s) in
    match snd (fst r1) with
    | Some err => (Some (Wrap "update status to in-progress" err), set_store (snd r1) s)
    | None =>
        let a := worker.actuate e cfg device dev action enabled (set_store (snd r1) s) in
        let r2 := database.UpdateDeviceActionStatus e id dev action (fst a)
                    (store (snd a)) in
        let s2 := set_store (snd r2) (snd a) in
        match snd (fst r2) with
        | Some err => (Some (Wrap "update device status" err), s2)
        | None =>
            if fst (fst r2) then
              let sent :=
                Send e (id +:+ "-" +:+ action +:+ "-all-completed")
                  (event.AllDevicesCompleted
                     {| event.adc_TransactionID := id; event.adc_Action := action;
                        event.adc_CompletedAt := now e;
                        event.adc_SubscriptionRequest := sub |}) s2 in
              match fst sent with
              | Some err => (Some (Wrap "send all-devices.completed event" err), snd sent)
              | None =>
                  (None, snd (worker.markTransactionCompleteIfDone e id action (snd sent)))
              end
            else (None, s2)
        end
    end.
Proof.
  unfold worker.processDevice. rewrite bind_eq, db_eq.
  destruct (database.UpdateDeviceActionStatus e id dev action "in-progress" (store s))
    as [[b1 [err1|]] m1]; simpl; [done|].
  rewrite bind_eq.
  destruct (worker.actuate e cfg device dev action enabled (set_store m1 s))
    as [finalStatus s1]; simpl.
  rewrite bind_eq, db_eq.
  destruct (database.UpdateDeviceActionStatus e id dev action finalStatus (store s1))
    as [[b2 [err2|]] m2]; simpl; [done|].
  destruct b2; [|done].
  rewrite bind_eq.
  destruct (Send _ _ _ _) as [[err3|] s3]; simpl; [done|].
  by rewrite bind_eq.
Qed.

(** The three branches of the actuation. *)
Lemma applyPowerSaving_eq e cfg device s :
  worker.applyPowerSaving e cfg device s
  = (outcome (easyapi.SetDeviceConfig (deviceClient e) device (power_saving cfg)),
     log_nef (CallSetDeviceConfig device (power_saving cfg)) s).
Proof.
  unfold worker.applyPowerSaving. rewrite bind_eq. unfold SetDeviceConfig. simpl.
  fold (power_saving cfg). by destruct (easyapi.SetDeviceConfig _ _ _).
Qed.

Lemma restoreOriginal_eq e device dev s :
  worker.restoreOriginal e device dev s
  = match database.GetDeviceOriginalState e dev (store s) with
    | inl st =>
        (outcome (easyapi.SetDeviceConfig (deviceClient e) device (original st)),
         log_nef (CallSetDeviceConfig device (original st)) s)
    | inr _ => ("failed", s)
    end.
Proof.
  unfold worker.restoreOriginal. rewrite bind_eq. unfold db_read. simpl.
  destruct (database.GetDeviceOriginalState e dev (store s)) as [st|]; [|done].
  rewrite bind_eq. unfold SetDeviceConfig. simpl. fold (original st).
  by destruct (easyapi.SetDeviceConfig _ _ _).
Qed.

Lemma captureAndApply_eq e cfg device dev s :
  worker.captureAndApply e cfg device dev s
  = let s1 := log_nef (CallGetDeviceConfig device) s in
    match easyapi.GetDeviceConfig (deviceClient e) device with
    | inr _ => ("failed", s1)
    | inl cur =>
        if fails e (ReplaceOne_config dev) then ("failed", s1)
        else
          (outcome (easyapi.SetDeviceConfig (deviceClient e) device (power_saving cfg)),
           log_nef (CallSetDeviceConfig device (power_saving cfg))
             (set_store
                {| database.transactions := database.transactions (store s);
                   database.deviceConfigs :=
                     <[dev := captured e dev cur]> (database.deviceConfigs (store s)) |}
                s1))
    end.
Proof.
  unfold worker.captureAndApply. rewrite bind_eq. unfold GetDeviceConfig at 1 2. simpl.
  destruct (easyapi.GetDeviceConfig (deviceClient e) device) as [cur|]; [|done].
  rewrite bind_eq, db_eq. unfold database.StoreDeviceOriginalState. simpl.
  destruct (fails e (ReplaceOne_config dev)); simpl.
  - by destruct s.
  - by rewrite applyPowerSaving_eq.
Qed.

Lemma actuate_terminal e cfg device dev action enabled s :
  fst (worker.actuate e cfg device dev action enabled s) = "success"
  ∨ fst (worker.actuate e cfg device dev action enabled s) = "failed".
Proof.
  unfold worker.actuate.
  destruct (String.eqb action event.ActionStart); [destruct enabled|
    destruct (String.eqb action event.ActionEnd); [destruct enabled|]];
    rewrite ?captureAndApply_eq, ?restoreOriginal_eq, ?applyPowerSaving_eq;
    unfold outcome; simpl;
    repeat match goal with
    | |- context [match ?x with _ => _ end] => destruct x; simpl
    | |- context [if ?x then _ else _] => destruct x; simpl
    end; auto.
Qed.

(** The actuation leaves the transactions, the scheduler and the events as
    they are. *)
Lemma actuate_frame e cfg device dev action enabled s :
  let s' := snd (worker.actuate e cfg device dev action enabled s) in
  database.transactions (store s') = database.transactions (store s)
  ∧ timers s' = timers s ∧ runtime s' = runtime s ∧ fireChan s' = fireChan s
  ∧ sendLog s' = sendLog s ∧ broker s' = broker s.
Proof.
  unfold worker.actuate.
  destruct (String.eqb action event.ActionStart); [destruct enabled|
    destruct (String.eqb action event.ActionEnd); [destruct enabled|]];
    rewrite ?captureAndApply_eq, ?restoreOriginal_eq, ?applyPowerSaving_eq; simpl;
    repeat match goal with
    | |- context [match ?x with _ => _ end] => destruct x; simpl
    | |- context [if ?x then _ else _] => destruct x; simpl
    end; auto 10.
Qed.

Lemma UpdateDeviceActionStatus_deviceConfigs e id dev action status m :
  database.deviceConfigs (snd (database.UpdateDeviceActionStatus e id dev action status m))
  = database.deviceConfigs m.
Proof.
  destruct (UpdateDeviceActionStatus_cases e id dev action status m); try done;
    match goal with
    | H : database.FindOneAndUpdate_deviceStatus _ _ _ _ _ _ = inl _ |- _ =>
        apply FindOneAndUpdate_deviceStatus_inl in H;
        destruct H as (row & ds & _ & _ & _ & ->)
    end; done.
Qed.

Lemma MarkTransactionCompleted_eq e id m :
  database.MarkTransactionCompleted e id m
  = if fails e (UpdateOne_completed id) then (Some ErrDriver, m)
    else (None,
          match database.transactions m !! id with
          | Some row =>
              database.with_transactions m
                (<[id := database.set_UpdatedAt (now e)
                           (database.set_status database.StatusCompleted row)]>
                   (database.transactions m))
          | None => m
          end).
Proof.
  unfold database.MarkTransactionCompleted, database.updateOne.
  destruct (fails e _); [done|]. by destruct (database.transactions m !! id).
Qed.

(** Whether [markTransactionCompleteIfDone] is to complete the transaction. *)
Lemma markTransactionCompleteIfDone_eq e id action s :
  worker.markTransactionCompleteIfDone e id action s
  = match database.GetTransaction e id (store s) with
    | inr err => (Some err, s)
    | inl row =>
        if (String.eqb action "start" && bool_decide (database.EndAt row = None))
           || String.eqb action "end"
        then (fst (database.MarkTransactionCompleted e id (store s)),
              set_store (snd (database.MarkTransactionCompleted e id (store s))) s)
        else (None, s)
    end.
Proof.
  unfold worker.markTransactionCompleteIfDone. rewrite bind_eq. unfold db_read. simpl.
  destruct (database.GetTransaction e id (store s)) as [row|]; [|done].
  unfold event.ActionStart, event.ActionEnd.
  destruct (String.eqb action "start" && bool_decide (database.EndAt row = None));
    simpl; [by rewrite db_eq|].
  destruct (String.eqb action "end"); [by rewrite db_eq|done].
Qed.

Lemma markTransactionCompleteIfDone_frame e id action s :
  let s' := snd (worker.markTransactionCompleteIfDone e id action s) in
  database.deviceConfigs (store s') = database.deviceConfigs (store s)
  ∧ timers s' = timers s ∧ runtime s' = runtime s ∧ fireChan s' = fireChan s
  ∧ nefLog s' = nefLog s ∧ sendLog s' = sendLog s ∧ broker s' = broker s.
Proof.
  rewrite markTransactionCompleteIfDone_eq, MarkTransactionCompleted_eq.
  repeat match goal with
  | |- context [match ?x with _ => _ end] => destruct x; simpl
  | |- context [if ?x then _ else _] => destruct x; simpl
  end; auto 10.
Qed.

(** The calls to the device client and the captured states of a handler
    execution are those of its actuation. *)
Lemma processDevice_actuation e cfg id device dev action enabled sub s :
  let r1 := database.UpdateDeviceActionStatus e id dev action "in-progress" (store s) in
  let a := worker.actuate e cfg device dev action enabled (set_store (snd r1) s) in
  let s' := snd (worker.processDevice e cfg id device dev action enabled sub s) in
  match snd (fst r1) with
  | Some _ => nefLog s' = nefLog s
              ∧ database.deviceConfigs (store s') = database.deviceConfigs (store s)
  | None => nefLog s' = nefLog (snd a)
            ∧ database.deviceConfigs (store s') = database.deviceConfigs (store (snd a))
  end.
Proof.
  intros r1 a s'. subst s' a r1. rewrite processDevice_eq. cbv zeta.
  pose proof (UpdateDeviceActionStatus_deviceConfigs e id dev action "in-progress" (store s))
    as Hc1.
  destruct (database.UpdateDeviceActionStatus e id dev action "in-progress" (store s))
    as [[b1 err1] m1]. simpl in *.
  destruct err1; simpl; [done|].
  destruct (worker.actuate e cfg device dev action enabled (set_store m1 s))
    as [finalStatus s1]. simpl.
  pose proof (UpdateDeviceActionStatus_deviceConfigs e id dev action finalStatus (store s1))
    as Hc2.
  destruct (database.UpdateDeviceActionStatus e id dev action finalStatus (store s1))
    as [[b2 err2] m2]. simpl in *.
  destruct err2; simpl; [done|].
  destruct b2; simpl; [|done].
  unfold Send. destruct (sendFails e _); simpl; [done|].
  match goal with
  | |- context [worker.markTransactionCompleteIfDone e id action ?s0] =>
      destruct (markTransactionCompleteIfDone_frame e id action s0)
        as (-> & _ & _ & _ & -> & _)
  end. done.
Qed.

(** A row update that keeps the devices keeps the recorded statuses. *)
Lemma recorded_status_insert m id row row' id' dev f :
  database.transactions m !! id = Some row →
  database.Devices row' = database.Devices row →
  recorded_status
    (database.with_transactions m (<[id := row']> (database.transactions m))) id' dev f
  = recorded_status m id' dev f.
Proof.
  intros Hrow Hds. unfold recorded_status. simpl.
  destruct (decide (id = id')) as [<-|Hne].
  - rewrite lookup_insert_eq, Hrow. simpl. by rewrite Hds.
  - by rewrite lookup_insert_ne.
Qed.

Lemma get_set_action f v d :
  database.get_action f (database.set_action f v d) = Some v.
Proof. by destruct f. Qed.

(** A successful [UpdateDeviceActionStatus] writes the status it is given,
    whatever the status was. *)
Lemma UpdateDeviceActionStatus_records e id dev action status m :
  let r := database.UpdateDeviceActionStatus e id dev action status m in
  snd (fst r) = None →
  recorded_status (snd r) id dev (database.actionField action) = Some status.
Proof.
  intros r. subst r.
  assert (Hpost : ∀ post m1,
    database.FindOneAndUpdate_deviceStatus e id dev action status m = inl (post, m1) →
    recorded_status m1 id dev (database.actionField action) = Some status
    ∧ database.transactions m1 !! id = Some post).
  { intros post m1 HF.
    apply FindOneAndUpdate_deviceStatus_inl in HF.
    destruct HF as (row & ds & Hrow & Hds & -> & ->).
    split; [|simpl; apply lookup_insert_eq].
    unfold recorded_status. simpl. rewrite lookup_insert_eq. simpl.
    apply update_first_find in Hds; [|by intros []].
    destruct Hds as (d & _ & ->). simpl. by rewrite get_set_action. }
  destruct (UpdateDeviceActionStatus_cases e id dev action status m)
    as [err HF|post m1 HF|post m1 HF|post m1 HF|post m1 HF]; try done;
    intros _; destruct (Hpost _ _ HF) as [Hrec Hlook]; try done.
  by rewrite (recorded_status_insert m1 id post).
Qed.

Lemma markTransactionCompleteIfDone_recorded e id action s id' dev f :
  recorded_status (store (snd (worker.markTransactionCompleteIfDone e id action s))) id' dev f
  = recorded_status (store s) id' dev f.
Proof.
  rewrite markTransactionCompleteIfDone_eq, MarkTransactionCompleted_eq.
  destruct (database.GetTransaction e id (store s)); [|done].
  destruct (_ || _); [|done].
  destruct (fails e _); [done|]. simpl.
  destruct (database.transactions (store s) !! id) as [row|] eqn:Hrow; [|done].
  by apply recorded_status_insert with row.
Qed.

(** A handler execution that returns no error leaves the outcome of its
    actuation as the status of the device. *)
Lemma processDevice_records e cfg id device dev action enabled sub s :
  let r1 := database.UpdateDeviceActionStatus e id dev action "in-progress" (store s) in
  let a := worker.actuate e cfg device dev action enabled (set_store (snd r1) s) in
  let r := worker.processDevice e cfg id device dev action enabled sub s in
  fst r = None →
  snd (fst r1) = None
  ∧ recorded_status (snd r1) id dev (database.actionField action) = Some "in-progress"
  ∧ recorded_status (store (snd r)) id dev (database.actionField action) = Some (fst a).
Proof.
  intros r1 a r. subst r a r1. rewrite processDevice_eq. cbv zeta.
  pose proof (UpdateDeviceActionStatus_records e id dev action "in-progress" (store s))
    as Hrec1.
  destruct (database.UpdateDeviceActionStatus e id dev action "in-progress" (store s))
    as [[b1 err1] m1]. simpl in *.
  destruct err1; simpl; [done|]. specialize (Hrec1 eq_refl).
  destruct (worker.actuate e cfg device dev action enabled (set_store m1 s))
    as [finalStatus s1]. simpl.
  pose proof (UpdateDeviceActionStatus_records e id dev action finalStatus (store s1))
    as Hrec2.
  destruct (database.UpdateDeviceActionStatus e id dev action finalStatus (store s1))
    as [[b2 err2] m2]. simpl in *.
  destruct err2; simpl; [done|]. specialize (Hrec2 eq_refl).
  destruct b2; simpl; [|done].
  unfold Send. destruct (sendFails e _); simpl; [done|].
  intros _. by rewrite markTransactionCompleteIfDone_recorded.
Qed.

(** C6. The operation of the worker, by the table over (action, enabled).
    For a handler execution whose in-progress write succeeded:
    (start, enabled) reads the configuration of the device, stores it as the
    original state of the device and applies the configured power-saving pair;
    (start, disabled) and (end, enabled) apply the original state that the
    store holds for the device, the one the last capture left there, and
    call nothing when the store holds none or cannot be read;
    (end, disabled) applies the power-saving pair; each records the outcome of
    [SetDeviceConfig] as the status.  When the capture of (start, enabled)
    fails, [SetDeviceConfig] is not called and the status recorded is
    "failed". *)
Theorem processDevice_table e cfg id device dev sub s :
  let run action enabled :=
    worker.processDevice e cfg id device dev action enabled sub s in
  let in_progress action :=
    snd (fst (database.UpdateDeviceActionStatus e id dev action "in-progress" (store s)))
    = None in
  let set config := outcome (easyapi.SetDeviceConfig (deviceClient e) device config) in
  let recorded action enabled config :=
    fst (run action enabled) = None →
    recorded_status (store (snd (run action enabled))) id dev (database.actionField action)
    = Some (set config) in
  (∀ cur,
     in_progress "start" →
     easyapi.GetDeviceConfig (deviceClient e) device = inl cur →
     fails e (ReplaceOne_config dev) = false →
     nefLog (snd (run "start" true))
     = nefLog s ++ [CallGetDeviceConfig device;
                    CallSetDeviceConfig device (power_saving cfg)]
     ∧ database.deviceConfigs (store (snd (run "start" true)))
       = <[dev := captured e dev cur]> (database.deviceConfigs (store s))
     ∧ recorded "start" true (power_saving cfg))
  ∧ (capture_fails e device dev →
     (∃ calls, nefLog (snd (run "start" true)) = nefLog s ++ calls
               ∧ ∀ c, c ∈ calls → c = CallGetDeviceConfig device)
     ∧ database.deviceConfigs (store (snd (run "start" true)))
       = database.deviceConfigs (store s)
     ∧ (fst (run "start" true) = None →
        recorded_status (store (snd (run "start" true))) id dev database.startAction
        = Some "failed"))
  ∧ (∀ action enabled,
     (action = "start" ∧ enabled = false) ∨ (action = "end" ∧ enabled = true) →
     in_progress action →
     (∀ st,
        database.deviceConfigs (store s) !! dev = Some st →
        fails e (FindOne_config dev) = false →
        nefLog (snd (run action enabled))
        = nefLog s ++ [CallSetDeviceConfig device (original st)]
        ∧ database.deviceConfigs (store (snd (run action enabled)))
          = database.deviceConfigs (store s)
        ∧ recorded action enabled (original st))
     ∧ (database.deviceConfigs (store s) !! dev = None
        ∨ fails e (FindOne_config dev) = true →
        nefLog (snd (run action enabled)) = nefLog s
        ∧ database.deviceConfigs (store (snd (run action enabled)))
          = database.deviceConfigs (store s)
        ∧ (fst (run action enabled) = None →
           recorded_status (store (snd (run action enabled))) id dev
             (database.actionField action)
           = Some "failed")))
  ∧ (in_progress "end" →
     nefLog (snd (run "end" false))
     = nefLog s ++ [CallSetDeviceConfig device (power_saving cfg)]
     ∧ recorded "end" false (power_saving cfg)).
Proof.
  intros run in_progress set recorded.
  assert (Hcfg : ∀ action,
    database.deviceConfigs
      (snd (database.UpdateDeviceActionStatus e id dev action "in-progress" (store s)))
    = database.deviceConfigs (store s))
    by (intros; apply UpdateDeviceActionStatus_deviceConfigs).
  subst recorded run in_progress set. cbv beta.
  split; [|split; [|split]].
  - intros cur Hin Hget Hput.
    pose proof (processDevice_actuation e cfg id device dev "start" true sub s) as Hact.
    pose proof (processDevice_records e cfg id device dev "start" true sub s) as Hrec.
    cbv zeta in Hact, Hrec. rewrite Hin in Hact. destruct Hact as [-> ->].
    unfold worker.actuate in *. simpl in *.
    rewrite captureAndApply_eq in *. cbv zeta in *. rewrite Hget, Hput in *. simpl in *.
    rewrite Hcfg. rewrite <- app_assoc. repeat split; try done.
    intros Hok. destruct (Hrec Hok) as (_ & _ & Hr). exact Hr.
  - intros Hfail.
    pose proof (processDevice_actuation e cfg id device dev "start" true sub s) as Hact.
    pose proof (processDevice_records e cfg id device dev "start" true sub s) as Hrec.
    cbv zeta in Hact, Hrec.
    destruct (snd (fst (database.UpdateDeviceActionStatus e id dev "start" "in-progress"
                          (store s)))) eqn:Hin.
    { destruct Hact as [-> ->]. split; [|split; [done|]].
      - exists []. rewrite app_nil_r. split; [done|]. by intros c Hc%elem_of_nil.
      - intros Hok. by destruct (Hrec Hok). }
    destruct Hact as [-> ->].
    unfold worker.actuate in *. simpl in *.
    rewrite captureAndApply_eq in *. cbv zeta in *.
    assert (Hcap :
      (match easyapi.GetDeviceConfig (deviceClient e) device with
       | inl cur =>
           if fails e (ReplaceOne_config dev)
           then ("failed",
                 log_nef (CallGetDeviceConfig device)
                   (set_store (snd (database.UpdateDeviceActionStatus e id dev "start"
                                      "in-progress" (store s))) s))
           else (outcome (easyapi.SetDeviceConfig (deviceClient e) device (power_saving cfg)),
                 log_nef (CallSetDeviceConfig device (power_saving cfg))
                   (set_store
                      {| database.transactions :=
                           database.transactions
                             (store (set_store (snd (database.UpdateDeviceActionStatus e id
                                                       dev "start" "in-progress" (store s))) s));
                         database.deviceConfigs :=
                           <[dev := captured e dev cur]>
                             (database.deviceConfigs
                                (store (set_store (snd (database.UpdateDeviceActionStatus e
                                                          id dev "start" "in-progress"
                                                          (store s))) s))) |}
                      (log_nef (CallGetDeviceConfig device)
                         (set_store (snd (database.UpdateDeviceActionStatus e id dev "start"
                                            "in-progress" (store s))) s))))
       | inr _ =>
           ("failed",
            log_nef (CallGetDeviceConfig device)
              (set_store (snd (database.UpdateDeviceActionStatus e id dev "start"
                                 "in-progress" (store s))) s))
       end)
      = ("failed",
         log_nef (CallGetDeviceConfig device)
           (set_store (snd (database.UpdateDeviceActionStatus e id dev "start"
                              "in-progress" (store s))) s))).
    { destruct Hfail as [[err ->]| ->]; [done|].
      by destruct (easyapi.GetDeviceConfig (deviceClient e) device). }
    rewrite Hcap in *. simpl in *. rewrite Hcfg.
    split; [|split; [done|]].
    + exists [CallGetDeviceConfig device]. split; [done|].
      by intros c ->%list_elem_of_singleton.
    + intros Hok. destruct (Hrec Hok) as (_ & _ & Hr). exact Hr.
  - intros action enabled Hcase Hin.
    pose proof (processDevice_actuation e cfg id device dev action enabled sub s) as Hact.
    pose proof (processDevice_records e cfg id device dev action enabled sub s) as Hrec.
    cbv zeta in Hact, Hrec. rewrite Hin in Hact. destruct Hact as [-> ->].
    assert (Hrestore : worker.actuate e cfg device dev action enabled
        (set_store (snd (database.UpdateDeviceActionStatus e id dev action
                           "in-progress" (store s))) s)
      = worker.restoreOriginal e device dev
          (set_store (snd (database.UpdateDeviceActionStatus e id dev action
                             "in-progress" (store s))) s)).
    { unfold worker.actuate. by destruct Hcase as [[-> ->]|[-> ->]]. }
    rewrite Hrestore in *. rewrite restoreOriginal_eq in *.
    unfold database.GetDeviceOriginalState in *. simpl in *. rewrite Hcfg in *.
    split.
    + intros st Hst Hread. rewrite Hread, Hst in *. simpl. rewrite Hcfg.
      split; [done|]. split; [done|].
      intros Hok. destruct (Hrec Hok) as (_ & _ & Hr). exact Hr.
    + intros Hnone.
      assert (Hfailed :
        (if fails e (FindOne_config dev) then inr ErrDriver
         else match database.deviceConfigs (store s) !! dev with
              | Some st => inl st
              | None => inr ErrNoDocuments
              end)
        = inr (if fails e (FindOne_config dev) then ErrDriver else ErrNoDocuments)).
      { destruct Hnone as [-> | ->]; [|done]. by destruct (fails e _). }
      rewrite Hfailed in *. simpl. rewrite Hcfg.
      split; [done|]. split; [done|].
      intros Hok. destruct (Hrec Hok) as (_ & _ & Hr). exact Hr.
  - intros Hin.
    pose proof (processDevice_actuation e cfg id device dev "end" false sub s) as Hact.
    pose proof (processDevice_records e cfg id device dev "end" false sub s) as Hrec.
    cbv zeta in Hact, Hrec. rewrite Hin in Hact. destruct Hact as [-> _].
    unfold worker.actuate in *. simpl in *. rewrite applyPowerSaving_eq in *. simpl.
    split; [done|].
    intros Hok. destruct (Hrec Hok) as (_ & _ & Hr). exact Hr.
Qed.

(** In the run of the example the start of "a" captures the configuration
    the device client answers, 100 and 200, and applies the power-saving
    pair; the end of "a", at 20, applies 100 and 200 again.  While the
    device client fails, the start is recorded as failed. *)
Lemma processDevice_table_witness :
  nefLog (snd (worker.processDevice (quiet 12) config.default "T"
                 (example.device (Some "a")) "a" "start" true example.sub
                 example.scheduled))
  = [CallGetDeviceConfig (example.device (Some "a"));
     CallSetDeviceConfig (example.device (Some "a")) (power_saving config.default)]
  ∧ nefLog (snd (worker.processDevice (quiet 20) config.default "T"
                   (example.device (Some "a")) "a" "end" true example.sub
                   example.started))
    = [CallGetDeviceConfig (example.device (Some "a"));
       CallSetDeviceConfig (example.device (Some "a")) (power_saving config.default);
       CallSetDeviceConfig (example.device (Some "a"))
         {| easyapi.PpMaximumLatency := "100";
            easyapi.PpMaximumResponseTime := "200" |}]
  ∧ recorded_status
      (store (snd (worker.processDevice (example.broken 12) config.default "T"
                     (example.device (Some "a")) "a" "start" true example.sub
                     example.scheduled)))
      "T" "a" database.startAction
    = Some "failed".
Proof.
  split; [|split].
  2: { destruct (processDevice_table (quiet 20) config.default "T"
                   (example.device (Some "a")) "a" example.sub example.started)
         as (_ & _ & H & _).
       destruct (H "end" true) as (Hrestore & _);
         [by right|vm_compute; reflexivity|].
       destruct (Hrestore
                   (captured (quiet 12) "a"
                      {| easyapi.PpMaximumLatency := "100";
                         easyapi.PpMaximumResponseTime := "200" |}))
         as (Hc & _); [vm_compute; reflexivity|reflexivity|].
       exact Hc. }
  - destruct (processDevice_table (quiet 12) config.default "T"
                (example.device (Some "a")) "a" example.sub example.scheduled)
      as (H & _).
    destruct (H {| easyapi.PpMaximumLatency := "100";
                   easyapi.PpMaximumResponseTime := "200" |}) as (Hc & _);
      [vm_compute; reflexivity ..|].
    exact Hc.
  - destruct (processDevice_table (example.broken 12) config.default "T"
                (example.device (Some "a")) "a" example.sub example.scheduled)
      as (_ & H & _).
    destruct H as (_ & _ & Hrec).
    + left. by exists ErrNEF.
    + apply Hrec. vm_compute. reflexivity.
Defined.

(** ** Rows only move forward *)

Lemma row_le_refl row : row_le row row.
Proof. unfold row_le. naive_solver. Qed.

Lemma row_le_trans r1 r2 r3 : row_le r1 r2 → row_le r2 r3 → row_le r1 r3.
Proof. unfold row_le. intros (?&?&?&?&?&?) (?&?&?&?&?&?). repeat split; try congruence; eauto. Qed.

Lemma store_le_refl m : store_le m m.
Proof. intros id row H. eauto using row_le_refl. Qed.

Lemma store_le_trans m1 m2 m3 : store_le m1 m2 → store_le m2 m3 → store_le m1 m3.
Proof.
  intros H12 H23 id row H.
  destruct (H12 _ _ H) as (row2 & H2 & Hle2).
  destruct (H23 _ _ H2) as (row3 & H3 & Hle3).
  eauto using row_le_trans.
Qed.

Lemma store_le_update m id row row' :
  database.transactions m !! id = Some row →
  row_le row row' →
  store_le m (database.with_transactions m (<[id := row']> (database.transactions m))).
Proof.
  intros Hrow Hle id' r Hr. simpl.
  destruct (decide (id = id')) as [<-|Hne].
  - rewrite lookup_insert_eq. rewrite Hrow in Hr. injection Hr as <-. eauto.
  - rewrite lookup_insert_ne by done. eauto using row_le_refl.
Qed.

Lemma store_le_new m id row' :
  database.transactions m !! id = None →
  store_le m (database.with_transactions m (<[id := row']> (database.transactions m))).
Proof.
  intros Hnone id' r Hr. simpl.
  destruct (decide (id = id')) as [<-|Hne]; [congruence|].
  rewrite lookup_insert_ne by done. eauto using row_le_refl.
Qed.

Lemma store_le_transactions m m' :
  database.transactions m' = database.transactions m → store_le m m'.
Proof. intros H id row Hr. rewrite H. eauto using row_le_refl. Qed.

Lemma updateOne_le id filter update m :
  (∀ row, row_le row (update row)) →
  store_le m (snd (database.updateOne id filter update m)).
Proof.
  intros Hup. unfold database.updateOne.
  destruct (database.transactions m !! id) as [row|] eqn:Hrow; [|apply store_le_refl].
  destruct (filter row); [|apply store_le_refl].
  simpl. by apply store_le_update with row.
Qed.

Lemma row_le_set_UpdatedAt t row : row_le row (database.set_UpdatedAt t row).
Proof. unfold row_le. simpl. naive_solver. Qed.

Lemma row_le_set_status st row : row_le row (database.set_status st row).
Proof. unfold row_le. simpl. naive_solver. Qed.

Lemma row_le_set_errorMessage msg row : row_le row (database.set_errorMessage msg row).
Proof. unfold row_le. simpl. naive_solver. Qed.

Lemma row_le_set_notified f row : row_le row (database.set_notified f true row).
Proof.
  unfold row_le. simpl. repeat split; try done.
  intros f'. destruct f, f'; simpl; auto.
Qed.

Lemma row_le_set_devices ds row :
  length ds = length (database.Devices row) → row_le row (database.set_devices ds row).
Proof. unfold row_le. simpl. naive_solver. Qed.

Lemma CreateTransaction_le e transaction m :
  store_le m (snd (database.CreateTransaction e transaction m)).
Proof.
  unfold database.CreateTransaction.
  destruct (fails e _); [apply store_le_refl|].
  destruct (database.transactions m !! _) eqn:Hrow; [apply store_le_refl|].
  simpl. by apply store_le_new.
Qed.

Lemma ClaimTransaction_le e id action m :
  store_le m (snd (database.ClaimTransaction e id action m)).
Proof.
  unfold database.ClaimTransaction.
  destruct (fails e _); [apply store_le_refl|].
  pose proof (updateOne_le id (database.claim_filter action)
                (database.set_UpdatedAt (now e)) m (row_le_set_UpdatedAt (now e))) as H.
  destruct (database.updateOne _ _ _ m) as [n m']. simpl in H.
  destruct (Nat.eqb n 0); [|done].
  by destruct (database.GetTransaction e id m') as [|[]].
Qed.

Lemma MarkTransactionFailed_le e id msg m :
  store_le m (snd (database.MarkTransactionFailed e id msg m)).
Proof.
  unfold database.MarkTransactionFailed.
  destruct (fails e _); [apply store_le_refl|]. simpl.
  apply updateOne_le. intros row.
  eauto using row_le_trans, row_le_set_UpdatedAt, row_le_set_status, row_le_set_errorMessage.
Qed.

Lemma MarkTransactionCompleted_le e id m :
  store_le m (snd (database.MarkTransactionCompleted e id m)).
Proof.
  unfold database.MarkTransactionCompleted.
  destruct (fails e _); [apply store_le_refl|]. simpl.
  apply updateOne_le. intros row.
  eauto using row_le_trans, row_le_set_UpdatedAt, row_le_set_status.
Qed.

Lemma StoreDeviceOriginalState_le e dev st m :
  store_le m (snd (database.StoreDeviceOriginalState e dev st m)).
Proof.
  unfold database.StoreDeviceOriginalState.
  destruct (fails e _); [apply store_le_refl|]. by apply store_le_transactions.
Qed.

Lemma FindOneAndUpdate_deviceStatus_le e id dev action status m post m' :
  database.FindOneAndUpdate_deviceStatus e id dev action status m = inl (post, m') →
  store_le m m'.
Proof.
  intros HF. apply FindOneAndUpdate_deviceStatus_inl in HF.
  destruct HF as (row & ds & Hrow & Hds & -> & ->).
  apply store_le_update with row; [done|].
  apply update_first_length in Hds.
  eapply row_le_trans; [by apply row_le_set_devices|apply row_le_set_UpdatedAt].
Qed.

Lemma UpdateOne_markNotified_le e id action m :
  store_le m (snd (database.UpdateOne_markNotified e id action m)).
Proof.
  unfold database.UpdateOne_markNotified.
  destruct (fails e _); [apply store_le_refl|].
  match goal with
  | |- context [database.updateOne id ?f ?u m] =>
      pose proof (updateOne_le id f u m) as H;
      destruct (database.updateOne id f u m) as [n m']
  end.
  simpl in *. apply H. intros row.
  eauto using row_le_trans, row_le_set_UpdatedAt, row_le_set_notified.
Qed.

(** ** The election among concurrent callers *)

Lemma notified_le m m' id f :
  store_le m m' → election.notified id f m = true → election.notified id f m' = true.
Proof.
  unfold election.notified. intros Hle.
  destruct (database.transactions m !! id) as [row|] eqn:Hrow; [|done].
  destruct (Hle _ _ Hrow) as (row' & -> & Hrl). intros H.
  by apply Hrl.
Qed.

(** Every write of the services but the deletion of the retention loop keeps
    the rows. *)
Lemma other_le e o m :
  (∀ failsq olderThan, o ≠ election.OtherDeleteOld failsq olderThan) →
  store_le m (election.other e o m).
Proof.
  intros Hno. destruct o; simpl;
    eauto using CreateTransaction_le, ClaimTransaction_le, MarkTransactionFailed_le,
      MarkTransactionCompleted_le, StoreDeviceOriginalState_le.
  by destruct (Hno failsq olderThan).
Qed.

Lemma advance_le e c m : store_le m (snd (election.advance e c m)).
Proof.
  unfold election.advance. destruct (election.phase c) as [|post|won err].
  - destruct (database.FindOneAndUpdate_deviceStatus _ _ _ _ _ _) as [[post m']|] eqn:HF;
      [|apply store_le_refl].
    by apply FindOneAndUpdate_deviceStatus_le in HF.
  - destruct (database.all_completed _ post); [|apply store_le_refl].
    pose proof (UpdateOne_markNotified_le e (election.transactionID c) (election.action c) m).
    by destruct (database.UpdateOne_markNotified _ _ _ _) as [[won err] m'].
  - apply store_le_refl.
Qed.

(** The second driver call returns [true] exactly when its filter matched a
    document ([MatchedCount = 1]): the flag was not set, and now is. *)
Lemma UpdateOne_markNotified_won e id action m :
  let filter t := negb (database.get_notified (database.notifiedField action) t) in
  let update t :=
    database.set_UpdatedAt (now e)
      (database.set_notified (database.notifiedField action) true t) in
  fst (fst (database.UpdateOne_markNotified e id action m)) = true ↔
  fails e (UpdateOne_notified id action) = false
  ∧ fst (database.updateOne id filter update m) = 1.
Proof.
  unfold database.UpdateOne_markNotified. simpl.
  destruct (fails e _); simpl; [intuition congruence|].
  destruct (database.updateOne _ _ _ m) as [n m']. simpl.
  destruct (Nat.eqb_spec n 1); intuition congruence.
Qed.

Lemma UpdateOne_markNotified_flag e id action m :
  fst (fst (database.UpdateOne_markNotified e id action m)) = true →
  election.notified id (database.notifiedField action) m = false
  ∧ election.notified id (database.notifiedField action)
      (snd (database.UpdateOne_markNotified e id action m)) = true.
Proof.
  unfold database.UpdateOne_markNotified, database.updateOne, election.notified.
  destruct (fails e _); simpl; [done|].
  destruct (database.transactions m !! id) as [row|] eqn:Hrow; simpl; [|done].
  destruct (database.get_notified (database.notifiedField action) row) eqn:Hn;
    simpl; [done|].
  intros _. split; [done|]. rewrite lookup_insert_eq.
  by destruct (database.notifiedField action).
Qed.

(** Counting in a list after the update of one position. *)
Lemma count_insert {A} (P : A → bool) (l : list A) i x y :
  l !! i = Some x →
  length (List.filter P (<[i := y]> l)) + (if P x then 1 else 0)
  = length (List.filter P l) + (if P y then 1 else 0).
Proof.
  revert i. induction l as [|a l IH]; intros [|i]; simpl; try done.
  - intros [= ->]. destruct (P x), (P y); simpl; lia.
  - intros H. specialize (IH _ H). destruct (P a); simpl; lia.
Qed.

(** A move of a caller makes it a winner only by winning the election on
    its flag. *)
Lemma advance_winner e c m id f :
  let c' := election.at_phase (fst (election.advance e c m)) c in
  election.is_winner id f c' = election.is_winner id f c
  ∨ (election.is_winner id f c = false ∧ election.is_winner id f c' = true
     ∧ election.notified id f m = false
     ∧ election.notified id f (snd (election.advance e c m)) = true).
Proof.
  unfold election.advance, election.is_winner. simpl.
  destruct (election.phase c) as [|post|won err] eqn:Hph; simpl.
  - destruct (database.FindOneAndUpdate_deviceStatus _ _ _ _ _ _) as [[post m']|];
      simpl; auto.
  - destruct (database.all_completed _ post); simpl; [|auto].
    pose proof (UpdateOne_markNotified_flag e (election.transactionID c)
                  (election.action c) m) as Hflag.
    destruct (database.UpdateOne_markNotified _ _ _ _) as [[won err] m']. simpl in *.
    destruct won; [|auto].
    destruct (String.eqb_spec (election.transactionID c) id) as [<-|]; simpl; [|auto].
    destruct (bool_decide_reflect (database.notifiedField (election.action c) = f))
      as [<-|]; [|auto].
    right. destruct (Hflag eq_refl). auto.
  - auto.
Qed.

(** ** Which row a method writes *)

Lemma touch_refl row : touch row row.
Proof. split; [apply row_le_refl|done]. Qed.

Lemma touch_trans r1 r2 r3 : touch r1 r2 → touch r2 r3 → touch r1 r3.
Proof. intros [? ?] [? ?]. split; [by eapply row_le_trans|congruence]. Qed.

Lemma updates_refl id (R : database.Transaction → database.Transaction → Prop) m :
  (∀ row, R row row) → updates id R m m.
Proof.
  intros HR. split; [done|].
  destruct (database.transactions m !! id); eauto.
Qed.

Lemma updates_trans id (R1 R2 R3 : database.Transaction → database.Transaction → Prop)
    m1 m2 m3 :
  (∀ a b c, R1 a b → R2 b c → R3 a c) →
  updates id R1 m1 m2 → updates id R2 m2 m3 → updates id R3 m1 m3.
Proof.
  intros HR (Ho1 & H1) (Ho2 & H2).
  split; [intros id' Hne; rewrite Ho2, Ho1; done|].
  destruct (database.transactions m1 !! id) as [row|].
  - destruct H1 as (row2 & Hrow2 & HR1). rewrite Hrow2 in H2.
    destruct H2 as (row3 & Hrow3 & HR2). eauto.
  - by rewrite H1 in H2.
Qed.

Lemma updates_insert id (R : database.Transaction → database.Transaction → Prop) m row row' :
  database.transactions m !! id = Some row →
  R row row' →
  updates id R m (database.with_transactions m (<[id := row']> (database.transactions m))).
Proof.
  intros Hrow HR. split.
  - intros id' Hne. simpl. by rewrite lookup_insert_ne.
  - rewrite Hrow. simpl. rewrite lookup_insert_eq. eauto.
Qed.

Lemma updateOne_updates id filter update (R : database.Transaction → database.Transaction → Prop) m :
  (∀ row, R row row) → (∀ row, R row (update row)) →
  updates id R m (snd (database.updateOne id filter update m)).
Proof.
  intros Hrefl Hup. unfold database.updateOne.
  destruct (database.transactions m !! id) as [row|] eqn:Hrow; [|by apply updates_refl].
  destruct (filter row); [|by apply updates_refl].
  simpl. by apply updates_insert with row.
Qed.

Lemma touch_set_UpdatedAt t row : touch row (database.set_UpdatedAt t row).
Proof. split; [apply row_le_set_UpdatedAt|done]. Qed.

Lemma ClaimTransaction_updates e id action m :
  updates id touch m (snd (database.ClaimTransaction e id action m)).
Proof.
  unfold database.ClaimTransaction.
  destruct (fails e _); [apply updates_refl, touch_refl|].
  pose proof (updateOne_updates id (database.claim_filter action)
                (database.set_UpdatedAt (now e)) touch m touch_refl
                (touch_set_UpdatedAt (now e))) as H.
  destruct (database.updateOne _ _ _ m) as [n m']. simpl in H.
  destruct (Nat.eqb n 0); [|done].
  by destruct (database.GetTransaction e id m') as [|[]].
Qed.

Lemma MarkTransactionFailed_updates e id msg m :
  updates id (λ row row', row_le row row'
                ∧ (database.tx_Status row' = database.tx_Status row
                   ∨ database.tx_Status row' = database.StatusFailed))
    m (snd (database.MarkTransactionFailed e id msg m)).
Proof.
  unfold database.MarkTransactionFailed.
  destruct (fails e _); simpl.
  - apply updates_refl. intros row. split; [apply row_le_refl|by left].
  - apply updateOne_updates.
    + intros row. split; [apply row_le_refl|by left].
    + intros row. split; [|by right].
      eapply row_le_trans; [apply row_le_set_status|].
      eapply row_le_trans; [apply row_le_set_errorMessage|apply row_le_set_UpdatedAt].
Qed.

Lemma MarkTransactionCompleted_updates e id m :
  updates id (λ row row', row_le row row' ∧ database.Devices row' = database.Devices row
                ∧ (∀ f, database.get_notified f row' = database.get_notified f row)
                ∧ (database.tx_Status row' = database.tx_Status row
                   ∨ database.tx_Status row' = database.StatusCompleted))
    m (snd (database.MarkTransactionCompleted e id m)).
Proof.
  unfold database.MarkTransactionCompleted.
  destruct (fails e _); simpl.
  - apply updates_refl. intros row. split; [apply row_le_refl|auto].
  - apply updateOne_updates.
    + intros row. split; [apply row_le_refl|auto].
    + intros row. split; [|split; [done|split; [by intros []|by right]]].
      eapply row_le_trans; [apply row_le_set_status|apply row_le_set_UpdatedAt].
Qed.

Lemma FindOneAndUpdate_deviceStatus_updates e id dev action status m post m' :
  database.FindOneAndUpdate_deviceStatus e id dev action status m = inl (post, m') →
  updates id touch m m'.
Proof.
  intros HF. apply FindOneAndUpdate_deviceStatus_inl in HF.
  destruct HF as (row & ds & Hrow & Hds & -> & ->).
  apply updates_insert with row; [done|]. split; [|done].
  apply update_first_length in Hds.
  eapply row_le_trans; [by apply row_le_set_devices|apply row_le_set_UpdatedAt].
Qed.

Lemma UpdateDeviceActionStatus_updates e id dev action status m :
  updates id touch m (snd (database.UpdateDeviceActionStatus e id dev action status m)).
Proof.
  destruct (UpdateDeviceActionStatus_cases e id dev action status m)
    as [err HF|post m1 HF|post m1 HF|post m1 HF|post m1 HF];
    try (by apply updates_refl, touch_refl);
    try (by apply FindOneAndUpdate_deviceStatus_updates in HF).
  pose proof (FindOneAndUpdate_deviceStatus_updates _ _ _ _ _ _ _ _ HF) as Hup.
  apply FindOneAndUpdate_deviceStatus_inl in HF.
  destruct HF as (row & ds & Hrow & Hds & Hpost & Hm1).
  eapply updates_trans; [apply touch_trans|exact Hup|].
  apply updates_insert with post; [subst m1; simpl; apply lookup_insert_eq|].
  split; [|done].
  eapply row_le_trans; [apply row_le_set_notified|apply row_le_set_UpdatedAt].
Qed.

(** A transaction without devices is never written by
    [UpdateDeviceActionStatus]: the filter on [devices.deviceId] cannot
    match. *)
Lemma UpdateDeviceActionStatus_no_devices e id dev action status m :
  (∀ row, database.transactions m !! id = Some row → database.Devices row = []) →
  ∃ err, database.UpdateDeviceActionStatus e id dev action status m
         = ((false, Some err), m)
         ∧ (err = ErrDriver ∨ err = ErrNoDocuments).
Proof.
  intros Hempty. unfold database.UpdateDeviceActionStatus,
    database.FindOneAndUpdate_deviceStatus.
  destruct (fails e _); [eauto|].
  destruct (database.transactions m !! id) as [row|] eqn:Hrow; [|eauto].
  rewrite (Hempty row eq_refl). simpl. eauto.
Qed.

(** ** The effect of each handler *)

(** A handler that leaves the transactions as they are. *)
Lemma effect_rows_same s s' :
  database.transactions (store s') = database.transactions (store s) →
  (∀ id row, row_of s id = Some row →
     ∃ row', row_of s' id = Some row' ∧ row_le row row'
             ∧ (database.tx_Status row' = database.StatusCompleted →
                database.tx_Status row = database.StatusCompleted
                ∨ database.Devices row' ≠ []))
  ∧ (∀ id row', row_of s id = None → row_of s' id = Some row' →
       database.tx_Status row' = database.StatusPending
       ∧ database.StartActionCompleted row' = false).
Proof.
  intros H. unfold row_of. rewrite H. split.
  - intros id row Hrow. exists row. eauto using row_le_refl.
  - intros id row' H1 H2. congruence.
Qed.

Lemma effect_sends_none s s' :
  sendLog s' = sendLog s → broker s' = broker s →
  ∃ evs, sendLog s' = sendLog s ++ evs
         ∧ (∀ ev, ev ∈ broker s' → ev ∈ broker s ∨ ev ∈ evs)
         ∧ ((∀ ev, ev ∈ evs → ¬ is_AllDevicesCompleted ev) ∨ announces s s' evs).
Proof.
  intros Hs Hb. exists []. rewrite app_nil_r, Hb. repeat split; auto.
  left. by intros ev Hev%elem_of_nil.
Qed.

Lemma effect_sends_one s s' ev accepted :
  ¬ is_AllDevicesCompleted ev →
  sendLog s' = sendLog (log_send ev accepted s) →
  broker s' = broker (log_send ev accepted s) →
  ∃ evs, sendLog s' = sendLog s ++ evs
         ∧ (∀ ev, ev ∈ broker s' → ev ∈ broker s ∨ ev ∈ evs)
         ∧ ((∀ ev, ev ∈ evs → ¬ is_AllDevicesCompleted ev) ∨ announces s s' evs).
Proof.
  intros Hev Hs Hb. exists [ev]. rewrite Hs, Hb. simpl. split; [done|]. split.
  - intros ev'. destruct accepted; [|auto].
    rewrite elem_of_app. tauto.
  - left. by intros ev' ->%list_elem_of_singleton.
Qed.

Lemma error_event_not_completion id action msg sub :
  ¬ is_AllDevicesCompleted (error_event id action msg sub).
Proof. by intros [d Hd]. Qed.

Lemma handleScheduleRequested_effect e data s :
  effect s (snd (scheduler.handleScheduleRequested e data s)).
Proof.
  set (id := event.TransactionID (event.Payload data)).
  assert (Hfailed :
    is_Some (database.transactions (store s) !! id) ∨ fails e (InsertOne id) = true →
    effect s (snd (scheduler.handleScheduleRequested e data s))).
  { intros H. destruct (handleScheduleRequested_failed e data s H) as (cause & _ & ->).
    simpl. fold id.
    destruct (String.eqb (models.Sink _) "");
    (split;
     [ apply effect_rows_same; done
     | apply effect_rows_same; done
     | first [ by apply effect_sends_none
             | eapply effect_sends_one;
               [apply error_event_not_completion|reflexivity|reflexivity] ]
     | intros t; simpl; auto ]). }
  destruct (row_of s id) as [row|] eqn:Hrow.
  { apply Hfailed. left. unfold row_of in Hrow. by rewrite Hrow. }
  destruct (fails e (InsertOne id)) eqn:Hf; [by apply Hfailed; right|].
  rewrite (handleScheduleRequested_created e data s Hrow Hf). simpl. fold id.
  split.
  - intros id' row Hrow'. exists row. unfold row_of in *. simpl.
    rewrite lookup_insert_ne by congruence. eauto using row_le_refl.
  - intros id' row'. unfold row_of. simpl.
    destruct (decide (id = id')) as [<-|Hne].
    + rewrite lookup_insert_eq. by intros _ [= <-].
    + rewrite lookup_insert_ne by done. congruence.
  - by apply effect_sends_none.
  - intros t. simpl. rewrite elem_of_app, list_elem_of_singleton.
    intros [Ht| ->]; [by left|]. right. left. done.
Qed.

(** [handleAllDevicesCompleted] arms the end timer exactly when the action is
    "start", the row is read, and the row has an end. *)
Lemma handleAllDevicesCompleted_eq e data s :
  scheduler.handleAllDevicesCompleted e data s
  = if negb (String.eqb (event.adc_Action data) "start") then (None, s)
    else
      match database.GetTransaction e (event.adc_TransactionID data) (store s) with
      | inr err => (Some (Wrap "get transaction" err), s)
      | inl transaction =>
          match database.EndAt transaction with
          | None => (None, s)
          | Some endAt =>
              let t := end_timer e (event.adc_TransactionID data) endAt
                         (database.SubscriptionRequest transaction) in
              (None,
               set_scheduler
                 (<[scheduler.timerKey (event.adc_TransactionID data) "end" := t]> (timers s))
                 (runtime s ++ [t]) (fireChan s) s)
          end
      end.
Proof.
  unfold scheduler.handleAllDevicesCompleted, event.ActionStart.
  destruct (negb (String.eqb (event.adc_Action data) "start")); [done|].
  rewrite bind_eq. unfold db_read. simpl.
  destruct (database.GetTransaction e _ (store s)) as [transaction|]; [|done].
  destruct (database.EndAt transaction); done.
Qed.

Lemma handleAllDevicesCompleted_effect e ev data s :
  ev ∈ broker s →
  event.data ev = event.AllDevicesCompleted data →
  effect s (snd (scheduler.handleAllDevicesCompleted e data s)).
Proof.
  intros Hev Hdata. rewrite handleAllDevicesCompleted_eq.
  assert (Hsame : effect s s).
  { split; [apply effect_rows_same; done|apply effect_rows_same; done
           |by apply effect_sends_none|auto]. }
  destruct (String.eqb_spec (event.adc_Action data) "start") as [Hstart|]; simpl; [|done].
  destruct (database.GetTransaction e _ (store s)) as [transaction|]; [|done].
  destruct (database.EndAt transaction) as [endAt|]; [|done].
  simpl. split; [apply effect_rows_same; done|apply effect_rows_same; done
                |by apply effect_sends_none|].
  intros t. simpl. rewrite elem_of_app, list_elem_of_singleton.
  intros [Ht| ->]; [by left|]. right. right. left.
  exists ev, data. done.
Qed.

Lemma enqueueScheduleAction_effect t before after s :
  runtime s = before ++ t :: after →
  effect s (snd (scheduler.enqueueScheduleAction
                   (sa_TransactionID (fires t)) (sa_Action (fires t))
                   (sa_SubscriptionRequest (fires t))
                   (set_scheduler (timers s) (before ++ after) (fireChan s) s))).
Proof.
  intros Hrt. simpl.
  split; [apply effect_rows_same; done|apply effect_rows_same; done
         |by apply effect_sends_none|].
  intros t'. simpl. rewrite Hrt, !elem_of_app, elem_of_cons. tauto.
Qed.

(** The timers [loadPendingSchedules] arms. *)

Lemma loadPendingSchedule_spec e tx s :
  let s' := snd (scheduler.loadPendingSchedule e tx s) in
  store s' = store s ∧ sendLog s' = sendLog s ∧ broker s' = broker s
  ∧ nefLog s' = nefLog s
  ∧ ∃ armed,
      runtime s' = runtime s ++ armed
      ∧ ∀ t, t ∈ armed →
          (sa_Action (fires t) = "start"
           ∧ database.StartActionCompleted tx = false
           ∧ t = {| delay := scheduler.clamp e (database.StartAt tx);
                    fires := {| sa_TransactionID := database.TransactionID tx;
                                sa_Action := "start";
                                sa_SubscriptionRequest := database.SubscriptionRequest tx |} |})
          ∨ (∃ endAt,
               database.EndAt tx = Some endAt
               ∧ database.StartActionCompleted tx = true
               ∧ database.EndActionCompleted tx = false
               ∧ t = end_timer e (database.TransactionID tx) endAt
                       (database.SubscriptionRequest tx)).
Proof.
  unfold scheduler.loadPendingSchedule. rewrite bind_eq.
  destruct (database.StartActionCompleted tx) eqn:Hsc; simpl.
  - destruct (database.EndAt tx) as [endAt|] eqn:Hend; simpl.
    + destruct (database.EndActionCompleted tx) eqn:Hec; simpl.
      * repeat split; try done. exists []. rewrite app_nil_r. split; [done|].
        by intros t Ht%elem_of_nil.
      * repeat split; try done. eexists. split; [reflexivity|].
        intros t ->%list_elem_of_singleton. right. exists endAt. done.
    + repeat split; try done. exists []. rewrite app_nil_r. split; [done|].
      by intros t Ht%elem_of_nil.
  - destruct (database.EndAt tx) as [endAt|] eqn:Hend; simpl.
    + repeat split; try done. eexists. split; [reflexivity|].
      intros t ->%list_elem_of_singleton. left. done.
    + repeat split; try done. eexists. split; [reflexivity|].
      intros t ->%list_elem_of_singleton. left. done.
Qed.

Lemma loadPendingSchedules_loop e txs s :
  let s' := snd (for_each (scheduler.loadPendingSchedule e) txs s) in
  store s' = store s ∧ sendLog s' = sendLog s ∧ broker s' = broker s
  ∧ nefLog s' = nefLog s
  ∧ ∃ armed,
      runtime s' = runtime s ++ armed
      ∧ ∀ t, t ∈ armed →
          ∃ tx, tx ∈ txs
            ∧ ((sa_Action (fires t) = "start"
                ∧ database.StartActionCompleted tx = false
                ∧ t = {| delay := scheduler.clamp e (database.StartAt tx);
                         fires := {| sa_TransactionID := database.TransactionID tx;
                                     sa_Action := "start";
                                     sa_SubscriptionRequest :=
                                       database.SubscriptionRequest tx |} |})
               ∨ (∃ endAt,
                    database.EndAt tx = Some endAt
                    ∧ database.StartActionCompleted tx = true
                    ∧ database.EndActionCompleted tx = false
                    ∧ t = end_timer e (database.TransactionID tx) endAt
                            (database.SubscriptionRequest tx))).
Proof.
  revert s. induction txs as [|tx txs IH]; intros s.
  - simpl. repeat split; try done. exists []. rewrite app_nil_r. split; [done|].
    by intros t Ht%elem_of_nil.
  - rewrite for_each_cons.
    destruct (loadPendingSchedule_spec e tx s) as (Hs1 & Hl1 & Hb1 & Hn1 & a1 & Hr1 & Ha1).
    destruct (IH (snd (scheduler.loadPendingSchedule e tx s)))
      as (Hs2 & Hl2 & Hb2 & Hn2 & a2 & Hr2 & Ha2).
    cbv zeta. rewrite Hs2, Hl2, Hb2, Hn2, Hr2, Hr1, <- app_assoc.
    repeat split; try done. exists (a1 ++ a2). split; [done|].
    intros t [Ht|Ht]%elem_of_app.
    + exists tx. split; [by left|]. by apply Ha1.
    + destruct (Ha2 t Ht) as (tx' & Htx' & H). exists tx'. split; [by right|done].
Qed.

Lemma GetPendingTransactions_rows e m txs tx :
  database.GetPendingTransactions e m = inl txs →
  tx ∈ txs →
  database.is_pending tx ∧ ∃ id, database.transactions m !! id = Some tx.
Proof.
  unfold database.GetPendingTransactions. destruct (fails e _); [done|].
  intros [= <-] Htx. apply list_elem_of_filter in Htx. destruct Htx as [Hp Htx].
  split; [done|].
  apply list_elem_of_fmap in Htx. destruct Htx as ([id tx'] & -> & Hin).
  apply elem_of_map_to_list in Hin. eauto.
Qed.

Lemma loadPendingSchedules_effect e s :
  effect s (snd (scheduler.loadPendingSchedules e (set_scheduler ∅ [] [] s))).
Proof.
  unfold scheduler.loadPendingSchedules. rewrite bind_eq. unfold db_read. simpl.
  destruct (database.GetPendingTransactions e (store s)) as [txs|] eqn:Hp; simpl.
  - rewrite bind_eq. simpl.
    destruct (loadPendingSchedules_loop e txs (set_scheduler ∅ [] [] s))
      as (Hs & Hl & Hb & _ & armed & Hr & Ha).
    cbv zeta in *. simpl in *.
    split; [apply effect_rows_same; by rewrite Hs|apply effect_rows_same; by rewrite Hs
           |by apply effect_sends_none|].
    intros t. rewrite Hr. intros Ht.
    destruct (Ha t Ht) as (tx & Htx & [(Hst & _)|(endAt & _ & Hsc & _ & _)]).
    + right. left. by rewrite Hst.
    + right. right. right.
      destruct (GetPendingTransactions_rows e (store s) txs tx Hp Htx) as (_ & id & Hid).
      exists id, tx. done.
  - split; [apply effect_rows_same; done|apply effect_rows_same; done
           |by apply effect_sends_none|].
    intros t. simpl. by intros Ht%elem_of_nil.
Qed.

Lemma effect_rows_updates s s' id (R : database.Transaction → database.Transaction → Prop) :
  updates id R (store s) (store s') →
  (∀ row row', R row row' →
     row_le row row'
     ∧ (database.tx_Status row' = database.StatusCompleted →
        database.tx_Status row = database.StatusCompleted ∨ database.Devices row' ≠ [])) →
  (∀ id row, row_of s id = Some row →
     ∃ row', row_of s' id = Some row' ∧ row_le row row'
             ∧ (database.tx_Status row' = database.StatusCompleted →
                database.tx_Status row = database.StatusCompleted
                ∨ database.Devices row' ≠ []))
  ∧ (∀ id row', row_of s id = None → row_of s' id = Some row' →
       database.tx_Status row' = database.StatusPending
       ∧ database.StartActionCompleted row' = false).
Proof.
  intros (Hother & Hid) HR. unfold row_of. split.
  - intros id' row Hrow. destruct (decide (id' = id)) as [->|Hne].
    + rewrite Hrow in Hid. destruct Hid as (row' & Hrow' & Hrel).
      exists row'. split; [done|]. by apply HR.
    + rewrite (Hother id' Hne). exists row. eauto using row_le_refl.
  - intros id' row' Hnone Hsome. destruct (decide (id' = id)) as [->|Hne].
    + rewrite Hnone in Hid. congruence.
    + rewrite (Hother id' Hne) in Hsome. congruence.
Qed.

Lemma effect_transfer s0 s s' :
  store s0 = store s → sendLog s0 = sendLog s → broker s0 = broker s →
  (∀ t, t ∈ runtime s0 → t ∈ runtime s) →
  effect s0 s' → effect s s'.
Proof.
  intros Hst Hl Hb Hr [Hold Hnew Hsends Htimers].
  unfold announces, end_timer_reason, row_of in *. rewrite Hst, Hl, Hb in *.
  split; try done.
  intros t Ht. destruct (Htimers t Ht) as [?|[?|?]]; auto.
Qed.

Lemma publish_frame e transaction schedAction enabledValue items s :
  let s' := snd (for_each
                   (scheduler.publishActuationRequest e transaction schedAction enabledValue)
                   items s) in
  store s' = store s ∧ runtime s' = runtime s ∧ nefLog s' = nefLog s
  ∧ ∃ evs, sendLog s' = sendLog s ++ evs
           ∧ (∀ ev, ev ∈ broker s' → ev ∈ broker s ∨ ev ∈ evs)
           ∧ (∀ ev, ev ∈ evs → ¬ is_AllDevicesCompleted ev).
Proof.
  revert s. induction items as [|[i d] items IH]; intros s.
  - simpl. repeat split; try done. exists []. rewrite app_nil_r.
    repeat split; auto. by intros ev Hev%elem_of_nil.
  - rewrite for_each_cons.
    match goal with
    | |- context [for_each ?body items ?s1] =>
        destruct (IH s1) as (Hs & Hr & Hn & evs & Hl & Hb & Hk)
    end.
    cbv zeta. rewrite Hs, Hr, Hn, Hl.
    unfold scheduler.publishActuationRequest in *. rewrite bind_eq in *.
    unfold Send in *.
    destruct (sendFails e _); simpl in *.
    + repeat split; try done. eexists (_ :: evs). split; [by rewrite <- app_assoc|].
      split.
      * intros ev Hev. destruct (Hb ev Hev); [by left|right; by right].
      * intros ev [->|Hev]%elem_of_cons; [by intros [? ?]|by apply Hk].
    + repeat split; try done. eexists (_ :: evs). split; [by rewrite <- app_assoc|].
      split.
      * intros ev Hev. destruct (Hb ev Hev) as [[?| ->%list_elem_of_singleton]%elem_of_app|?].
        -- by left.
        -- right. by left.
        -- right. by right.
      * intros ev [->|Hev]%elem_of_cons; [by intros [? ?]|by apply Hk].
Qed.

Lemma fireSchedule_effect e schedAction s :
  effect s (snd (scheduler.fireSchedule e schedAction s)).
Proof.
  unfold scheduler.fireSchedule. rewrite bind_eq, db_eq.
  pose proof (ClaimTransaction_updates e (sa_TransactionID schedAction)
                (sa_Action schedAction) (store s)) as Hclaim.
  destruct (database.ClaimTransaction e _ _ (store s)) as [[claimed err] m1].
  simpl in Hclaim. simpl.
  assert (Htouch : ∀ row row', touch row row' →
     row_le row row'
     ∧ (database.tx_Status row' = database.StatusCompleted →
        database.tx_Status row = database.StatusCompleted ∨ database.Devices row' ≠ [])).
  { intros row row' [Hle Hst]. split; [done|]. rewrite Hst. auto. }
  destruct err as [err|].
  { rewrite bind_eq, sendErrorNotification_eq. simpl.
    destruct (String.eqb (models.Sink _) "");
      (split;
       [ eapply effect_rows_updates; [exact Hclaim|exact Htouch]
       | eapply effect_rows_updates; [exact Hclaim|exact Htouch]
       | first [ by apply effect_sends_none
               | eapply effect_sends_one; [|reflexivity|reflexivity]; by intros [? ?] ]
       | intros t; simpl; auto ]). }
  destruct claimed; simpl.
  2: { split; [ eapply effect_rows_updates; [exact Hclaim|exact Htouch]
              | eapply effect_rows_updates; [exact Hclaim|exact Htouch]
              | by apply effect_sends_none | auto ]. }
  rewrite bind_eq. unfold db_read at 1. simpl.
  destruct (database.GetTransaction e _ m1) as [transaction|err].
  - rewrite bind_eq.
    match goal with
    | |- context [for_each ?body ?items ?s1] =>
        destruct (publish_frame e transaction schedAction
                    (if String.eqb (sa_Action schedAction) event.ActionEnd
                     then negb (database.Enabled transaction)
                     else database.Enabled transaction) items s1)
          as (Hs & Hr & _ & evs & Hl & Hb & Hk)
    end.
    cbv zeta in *. simpl in *.
    split.
    + eapply effect_rows_updates; [rewrite Hs; exact Hclaim|exact Htouch].
    + eapply effect_rows_updates; [rewrite Hs; exact Hclaim|exact Htouch].
    + exists evs. auto.
    + intros t. rewrite Hr. auto.
  - rewrite bind_eq, db_eq. simpl. rewrite bind_eq, sendErrorNotification_eq. simpl.
    pose proof (MarkTransactionFailed_updates e (sa_TransactionID schedAction)
                  "failed to retrieve transaction data" m1) as Hfail.
    assert (Hboth : updates (sa_TransactionID schedAction)
              (λ row row', row_le row row'
                 ∧ (database.tx_Status row' = database.tx_Status row
                    ∨ database.tx_Status row' = database.StatusFailed))
              (store s) (snd (database.MarkTransactionFailed e
                                (sa_TransactionID schedAction)
                                "failed to retrieve transaction data" m1))).
    { eapply updates_trans; [|exact Hclaim|exact Hfail].
      intros a b c [Hab Hst] [Hbc [Hst'|Hst']]; (split; [by eapply row_le_trans|]).
      - left. congruence.
      - by right. }
    assert (HR : ∀ row row',
       row_le row row'
       ∧ (database.tx_Status row' = database.tx_Status row
          ∨ database.tx_Status row' = database.StatusFailed) →
       row_le row row'
       ∧ (database.tx_Status row' = database.StatusCompleted →
          database.tx_Status row = database.StatusCompleted
          ∨ database.Devices row' ≠ [])).
    { intros row row' [Hle [Hst|Hst]]; (split; [done|]); rewrite Hst; [auto|done]. }
    destruct (String.eqb (models.Sink _) "");
      (split;
       [ eapply effect_rows_updates; [exact Hboth|exact HR]
       | eapply effect_rows_updates; [exact Hboth|exact HR]
       | first [ by apply effect_sends_none
               | eapply effect_sends_one; [|reflexivity|reflexivity]; by intros [? ?] ]
       | intros t; simpl; auto ]).
Qed.

(** ** The effect of the worker *)

Lemma updates_same id (R : database.Transaction → database.Transaction → Prop) m m' :
  (∀ row, R row row) →
  database.transactions m' = database.transactions m → updates id R m m'.
Proof.
  intros HR H. split; [by rewrite H|]. rewrite H.
  destruct (database.transactions m !! id); eauto.
Qed.

Lemma markTransactionCompleteIfDone_updates e id action s :
  updates id (λ row row', row_le row row'
                ∧ database.Devices row' = database.Devices row
                ∧ (∀ f, database.get_notified f row' = database.get_notified f row)
                ∧ (database.tx_Status row' = database.tx_Status row
                   ∨ database.tx_Status row' = database.StatusCompleted))
    (store s) (store (snd (worker.markTransactionCompleteIfDone e id action s))).
Proof.
  rewrite markTransactionCompleteIfDone_eq.
  assert (Hrefl : ∀ row : database.Transaction,
    row_le row row ∧ database.Devices row = database.Devices row
    ∧ (∀ f, database.get_notified f row = database.get_notified f row)
    ∧ (database.tx_Status row = database.tx_Status row
       ∨ database.tx_Status row = database.StatusCompleted))
    by (intros; split; [apply row_le_refl|auto]).
  destruct (database.GetTransaction e id (store s)); [|by apply updates_refl].
  destruct (_ || _); [|by apply updates_refl].
  simpl. apply MarkTransactionCompleted_updates.
Qed.

Lemma all_completed_devices action row row' :
  database.Devices row' = database.Devices row →
  database.all_completed action row' = database.all_completed action row.
Proof. unfold database.all_completed. by intros ->. Qed.

Lemma all_completed_nonempty action row :
  database.all_completed action row = true → database.Devices row ≠ [].
Proof.
  unfold database.all_completed. intros [_ H]%andb_true_iff Hnil.
  rewrite Hnil in H. done.
Qed.

(** [markTransactionCompleteIfDone] on a row it can read and write: the row
    becomes Completed when the action is the end action, or the start action
    of a transaction without end; otherwise nothing changes.  The devices
    play no part. *)
Lemma markTransactionCompleteIfDone_completes e id action s row :
  row_of s id = Some row →
  fails e (FindOne id) = false →
  fails e (UpdateOne_completed id) = false →
  (completes action row →
   worker.markTransactionCompleteIfDone e id action s
   = (None,
      set_store
        (database.with_transactions (store s)
           (<[id := database.set_UpdatedAt (now e)
                      (database.set_status database.StatusCompleted row)]>
              (database.transactions (store s)))) s))
  ∧ (¬ completes action row →
     worker.markTransactionCompleteIfDone e id action s = (None, s)).
Proof.
  intros Hrow Hfind Hupd. unfold row_of in Hrow.
  rewrite markTransactionCompleteIfDone_eq, MarkTransactionCompleted_eq.
  unfold database.GetTransaction. rewrite Hfind, Hupd, Hrow. simpl.
  unfold completes. split.
  - intros [[-> Hend]| ->]; simpl.
    + by rewrite bool_decide_eq_true_2.
    + done.
  - intros Hnot.
    destruct (String.eqb_spec action "start") as [->|]; simpl.
    + destruct (bool_decide_reflect (database.EndAt row = None)); simpl; [|done].
      destruct Hnot. by left.
    + destruct (String.eqb_spec action "end") as [->|]; [|done].
      destruct Hnot. by right.
Qed.

(** The two ways a handler execution of the worker can go: it writes the row
    of the transaction without changing its status and sends nothing; or it
    wins the election, in which case it sends the one [AllDevicesCompleted],
    the flag of the action goes from unset to set, every device has a
    terminal status for the action, and the status of the row is the one it
    had or Completed. *)
Lemma processDevice_outcome e cfg id device dev action enabled sub s :
  let s' := snd (worker.processDevice e cfg id device dev action enabled sub s) in
  let f := database.notifiedField action in
  timers s' = timers s ∧ runtime s' = runtime s ∧ fireChan s' = fireChan s
  ∧ ((updates id touch (store s) (store s')
      ∧ sendLog s' = sendLog s ∧ broker s' = broker s)
     ∨ (∃ row row',
          row_of s id = Some row ∧ row_of s' id = Some row'
          ∧ updates id row_le (store s) (store s')
          ∧ database.get_notified f row = false
          ∧ database.get_notified f row' = true
          ∧ database.all_completed action row' = true
          ∧ (database.tx_Status row' = database.tx_Status row
             ∨ database.tx_Status row' = database.StatusCompleted)
          ∧ sendLog s' = sendLog s ++ [completion_event e id action sub]
          ∧ (broker s' = broker s
             ∨ (broker s' = broker s ++ [completion_event e id action sub]
                ∧ (fails e (FindOne id) = false →
                   fails e (UpdateOne_completed id) = false →
                   completes action row →
                   database.tx_Status row' = database.StatusCompleted))))).
Proof.
  intros s' f. subst s'. rewrite processDevice_eq. cbv zeta.
  pose proof (UpdateDeviceActionStatus_updates e id dev action "in-progress" (store s))
    as Hup1.
  destruct (database.UpdateDeviceActionStatus e id dev action "in-progress" (store s))
    as [[b1 err1] m1]. simpl in Hup1. simpl.
  destruct err1 as [err1|]; simpl.
  { repeat split; try done. left. done. }
  pose proof (actuate_frame e cfg device dev action enabled (set_store m1 s))
    as (Htx & Ht & Hr & Hc & Hl & Hb).
  destruct (worker.actuate e cfg device dev action enabled (set_store m1 s))
    as [finalStatus sa]. simpl in *.
  assert (Hupa : updates id touch (store s) (store sa)).
  { eapply updates_trans; [apply touch_trans|exact Hup1|].
    apply updates_same; [apply touch_refl|done]. }
  pose proof (UpdateDeviceActionStatus_updates e id dev action finalStatus (store sa))
    as Hup2.
  destruct (UpdateDeviceActionStatus_cases e id dev action finalStatus (store sa))
    as [err HF|post m2 HF Hall|post m2 HF Hall Hfail|post m2 HF Hall Hfail Hn
       |post m2 HF Hall Hfail Hn].
  1-4: simpl; repeat split; try done; left;
       (split; [|done]); eapply updates_trans; [apply touch_trans|exact Hupa|];
       first [ by apply updates_refl, touch_refl
             | by apply FindOneAndUpdate_deviceStatus_updates in HF ].
  (* the election is won *)
  simpl.
  pose proof (FindOneAndUpdate_deviceStatus_updates _ _ _ _ _ _ _ _ HF) as Hupf.
  pose proof (FindOneAndUpdate_deviceStatus_inl _ _ _ _ _ _ _ _ HF)
    as (rowa & ds & Hrowa & Hds & Hpost & Hm2).
  (* the row before the handler *)
  destruct Hupa as [Hothera Hida].
  destruct (database.transactions (store s) !! id) as [row|] eqn:Hrow;
    [|congruence].
  destruct Hida as (rowa' & Hrowa' & Htouch). rewrite Hrowa in Hrowa'.
  injection Hrowa' as <-.
  assert (Hpost_le : row_le rowa post).
  { subst post. apply update_first_length in Hds.
    eapply row_le_trans; [by apply row_le_set_devices|apply row_le_set_UpdatedAt]. }
  assert (Hrow_post : row_le row post) by (eapply row_le_trans; [apply Htouch|done]).
  assert (Hflag : database.get_notified f row = false).
  { destruct (database.get_notified f row) eqn:Hf; [|done].
    destruct Hrow_post as (_ & _ & _ & _ & _ & Hmono).
    subst f. rewrite (Hmono _ Hf) in Hn. done. }
  set (row2 := database.set_UpdatedAt (now e) (database.set_notified f true post)).
  set (s2 := set_store
               (database.with_transactions m2 (<[id := row2]> (database.transactions m2)))
               sa).
  assert (Hrow2 : row_of s2 id = Some row2)
    by (unfold row_of; simpl; apply lookup_insert_eq).
  assert (Hup_s2 : updates id row_le (store s) (store s2)).
  { split.
    - intros id' Hne. simpl. rewrite lookup_insert_ne by done.
      destruct Hupf as [Ho _]. rewrite (Ho id' Hne). by apply Hothera.
    - rewrite Hrow. exists row2. split; [exact Hrow2|].
      eapply row_le_trans; [exact Hrow_post|].
      eapply row_le_trans; [apply row_le_set_notified|apply row_le_set_UpdatedAt]. }
  assert (Hle2 : row_le row row2).
  { destruct Hup_s2 as [_ H]. rewrite Hrow in H. destruct H as (r & Hr2 & Hle).
    unfold row_of in Hrow2. rewrite Hrow2 in Hr2. by injection Hr2 as <-. }
  assert (Hst2 : database.tx_Status row2 = database.tx_Status row).
  { subst row2 post. simpl. apply Htouch. }
  assert (Hn2 : database.get_notified f row2 = true) by (subst row2; by destruct f).
  assert (Hall2 : database.all_completed action row2 = true) by exact Hall.
  fold f. fold row2. fold s2.
  unfold Send. fold (completion_event e id action sub).
  destruct (sendFails e _); simpl.
  { repeat split; try done. right. exists row, row2.
    split; [done|]. split; [exact Hrow2|]. split; [exact Hup_s2|].
    split; [done|]. split; [done|]. split; [done|]. split; [by left|].
    split; [by rewrite Hl|by left]. }
  match goal with
  | |- context [worker.markTransactionCompleteIfDone e id action ?s3] =>
      pose proof (markTransactionCompleteIfDone_completes e id action s3 row2 Hrow2)
        as Hcompletes;
      pose proof (markTransactionCompleteIfDone_updates e id action s3
                  : updates id _ (store s2) _) as Hmark;
      pose proof (markTransactionCompleteIfDone_frame e id action s3)
        as (_ & Ht3 & Hr3 & Hc3 & _ & Hl3 & Hb3)
  end.
  cbv zeta in *.
  rewrite Ht3, Hr3, Hc3, Hl3, Hb3. simpl.
  repeat split; try done. right.
  destruct Hmark as [Hother3 Hid3].
  unfold row_of in Hrow2. rewrite Hrow2 in Hid3.
  destruct Hid3 as (row3 & Hrow3 & Hle3 & Hds3 & Hfl3 & Hst3).
  exists row, row3. split; [done|]. split; [exact Hrow3|].
  split.
  { eapply updates_trans; [apply row_le_trans|exact Hup_s2|].
    split; [exact Hother3|]. rewrite Hrow2. eauto. }
  split; [done|]. split; [by rewrite Hfl3|].
  split; [by rewrite (all_completed_devices action row2 row3 Hds3)|].
  split; [rewrite <- Hst2; exact Hst3|].
  split; [by rewrite Hl|]. right. split; [by rewrite Hb|].
  intros Hfind Hupd Hcond.
  assert (Hcond2 : completes action row2).
  { destruct Hcond as [[Ha Hend]|Ha]; [left|by right]. split; [done|].
    destruct Hle2 as (_ & -> & _). done. }
  destruct (Hcompletes Hfind Hupd) as [Heq _]. rewrite (Heq Hcond2) in Hrow3.
  simpl in Hrow3. rewrite lookup_insert_eq in Hrow3. by injection Hrow3 as <-.
Qed.

Lemma processDevice_effect e cfg id device dev action enabled sub s :
  effect s (snd (worker.processDevice e cfg id device dev action enabled sub s)).
Proof.
  destruct (processDevice_outcome e cfg id device dev action enabled sub s)
    as (_ & Hr & _ & [(Hup & Hl & Hb)|Hwon]).
  - split.
    + eapply effect_rows_updates; [exact Hup|].
      intros row row' [Hle Hst]. split; [done|]. rewrite Hst. auto.
    + eapply effect_rows_updates; [exact Hup|].
      intros row row' [Hle Hst]. split; [done|]. rewrite Hst. auto.
    + by apply effect_sends_none.
    + intros t. rewrite Hr. auto.
  - destruct Hwon as (row & row' & Hrow & Hrow' & Hup & Hf & Hf' & Hall & Hst & Hl & Hb).
    destruct Hup as [Hother Hid].
    split.
    + intros id' r Hr'. unfold row_of in *.
      destruct (decide (id' = id)) as [->|Hne].
      * rewrite Hrow in Hr'. injection Hr' as <-. rewrite Hrow in Hid.
        destruct Hid as (row'' & Hrow'' & Hle). rewrite Hrow' in Hrow''.
        injection Hrow'' as <-. exists row'. split; [done|]. split; [done|].
        intros _. right. by apply all_completed_nonempty with action.
      * rewrite (Hother id' Hne). exists r. eauto using row_le_refl.
    + intros id' r. unfold row_of in *.
      destruct (decide (id' = id)) as [->|Hne]; [congruence|].
      rewrite (Hother id' Hne). congruence.
    + exists [completion_event e id action sub]. split; [done|]. split.
      * intros ev. destruct Hb as [-> | [-> _]]; [auto|].
        rewrite elem_of_app. tauto.
      * right. exists (completion_event e id action sub), 
          {| event.adc_TransactionID := id; event.adc_Action := action;
             event.adc_CompletedAt := now e; event.adc_SubscriptionRequest := sub |},
          row, row'.
        done.
    + intros t. rewrite Hr. auto.
Qed.

(** Every step of the system has the effect. *)
Lemma step_effect cfg s s' : step cfg s s' → effect s s'.
Proof.
  intros [e data s0|e ev data s0 Hev Hdata|t before after s0 Hrt
         |e schedAction rest s0 Hch|e ev data handler s0 Hev Hdata Hh|e s0].
  - apply handleScheduleRequested_effect.
  - by apply handleAllDevicesCompleted_effect with ev.
  - by apply enqueueScheduleAction_effect.
  - apply effect_transfer with (set_scheduler (timers s0) (runtime s0) rest s0);
      try done. apply fireSchedule_effect.
  - unfold worker.handleActuationRequest in Hh.
    destruct (models.NetworkAccessIdentifier _); [|done].
    injection Hh as <-. apply processDevice_effect.
  - apply loadPendingSchedules_effect.
Qed.

(** ** Invariants of the system *)

Lemma is_completion_AllDevicesCompleted id f ev :
  is_completion id f ev = true → is_AllDevicesCompleted ev.
Proof.
  unfold is_completion, is_AllDevicesCompleted.
  destruct (event.data ev); try done. eauto.
Qed.

Lemma filter_none {A} (P : A → bool) (l : list A) :
  (∀ x, x ∈ l → P x = false) → List.filter P l = [].
Proof.
  induction l as [|x l IH]; [done|]. intros H. simpl.
  rewrite (H x) by (by left). apply IH. intros y Hy. apply H. by right.
Qed.

Lemma effect_notified s s' id f :
  effect s s' →
  election.notified id f (store s) = true → election.notified id f (store s') = true.
Proof.
  intros [Hold _ _ _]. unfold election.notified.
  destruct (database.transactions (store s) !! id) as [row|] eqn:Hrow; [|done].
  destruct (Hold id row Hrow) as (row' & Hrow' & Hle & _).
  unfold row_of in Hrow'. rewrite Hrow'. apply Hle.
Qed.

Lemma completions_step s s' id f :
  effect s s' →
  completions id f s ≤ (if election.notified id f (store s) then 1 else 0) →
  completions id f s' ≤ (if election.notified id f (store s') then 1 else 0).
Proof.
  intros Heff Hinv.
  pose proof (effect_notified s s' id f Heff) as Hmono.
  destruct Heff as [_ _ (evs & Hl & _ & Hevs) _].
  unfold completions in *. rewrite Hl, List.filter_app, length_app.
  assert (Hquiet : List.filter (is_completion id f) evs = [] →
    length (List.filter (is_completion id f) (sendLog s))
    + length (List.filter (is_completion id f) evs)
    ≤ (if election.notified id f (store s') then 1 else 0)).
  { intros ->. simpl. destruct (election.notified id f (store s)).
    - rewrite Hmono by done. lia.
    - destruct (election.notified id f (store s')); lia. }
  destruct Hevs as [Hnone|(ev & d & row & row' & -> & Hd & Hrow & Hrow' & Hf & Hf' & _)].
  - apply Hquiet, filter_none. intros ev Hev.
    destruct (is_completion id f ev) eqn:Hc; [|done].
    apply is_completion_AllDevicesCompleted in Hc. by destruct (Hnone ev Hev).
  - destruct (is_completion id f ev) eqn:Hc.
    + simpl. rewrite Hc. simpl.
      unfold is_completion in Hc. rewrite Hd in Hc.
      apply andb_true_iff in Hc. destruct Hc as [Hid%String.eqb_eq Hfd%bool_decide_eq_true].
      subst id f.
      unfold election.notified, row_of in *. rewrite Hrow, Hf in Hinv.
      rewrite Hrow', Hf'. lia.
    + apply Hquiet. simpl. by rewrite Hc.
Qed.




Lemma devices_of_completed_step s s' :
  effect s s' → devices_of_completed s → devices_of_completed s'.
Proof.
  intros [Hold Hnew (evs & Hl & _ & Hevs) _] [Hst Hsent]. split.
  - intros id row' Hrow' Hcompleted.
    destruct (row_of s id) as [row|] eqn:Hrow.
    + destruct (Hold id row Hrow) as (row'' & Hrow'' & Hle & Hstatus).
      rewrite Hrow' in Hrow''. injection Hrow'' as <-.
      destruct (Hstatus Hcompleted) as [Hc|]; [|done].
      specialize (Hst id row Hrow Hc).
      destruct Hle as (_ & _ & Hlen & _). intros Hnil. rewrite Hnil in Hlen.
      destruct (database.Devices row); done.
    + destruct (Hnew id row' Hrow Hrow'). congruence.
  - intros ev d. rewrite Hl. intros [Hin|Hin]%elem_of_app Hd.
    + destruct (Hsent ev d Hin Hd) as (row & Hrow & Hne).
      destruct (Hold _ row Hrow) as (row' & Hrow' & Hle & _).
      exists row'. split; [done|].
      destruct Hle as (_ & _ & Hlen & _). intros Hnil. rewrite Hnil in Hlen.
      destruct (database.Devices row); done.
    + destruct Hevs as [Hnone|(ev0 & d0 & row & row' & -> & Hd0 & _ & Hrow' & _ & _ & Hall)].
      { destruct (Hnone ev Hin). by exists d. }
      apply list_elem_of_singleton in Hin. subst ev0.
      rewrite Hd in Hd0. injection Hd0 as <-.
      exists row'. split; [done|]. by apply all_completed_nonempty with (event.adc_Action d).
Qed.

Lemma devices_of_completed_run cfg s visited :
  run cfg s visited → devices_of_completed s.
Proof.
  induction 1 as [|s visited s' _ IH Hstep].
  - split.
    + intros id row. unfold row_of. simpl. by rewrite lookup_empty.
    + intros ev d Hev. by apply elem_of_nil in Hev.
  - eapply devices_of_completed_step; [by eapply step_effect|done].
Qed.

(** ** The claims on the worker's completion *)

Lemma app_singleton_neq {A} (l : list A) x : l ≠ l ++ [x].
Proof. intros H. apply (f_equal length) in H. rewrite length_app in H. simpl in H. lia. Qed.

(** A handler execution that returns [allCompleted = true] leaves the flag
    of its action set. *)
Lemma UpdateDeviceActionStatus_won e id dev action status m :
  fst (fst (database.UpdateDeviceActionStatus e id dev action status m)) = true →
  election.notified id (database.notifiedField action)
    (snd (database.UpdateDeviceActionStatus e id dev action status m)) = true.
Proof.
  unfold database.UpdateDeviceActionStatus.
  destruct (database.FindOneAndUpdate_deviceStatus e id dev action status m)
    as [[post m1]|err]; [|done].
  destruct (database.all_completed action post); [|done].
  intros Hwon. by destruct (UpdateOne_markNotified_flag e id action m1 Hwon).
Qed.

(** The send of a handler execution: it sends nothing, or it has written the
    statuses of its device, which sets the flag and leaves the status of the
    row, and calls [Send]; it returns the error of [Send] at once, and calls
    [markTransactionCompleteIfDone] only when [Send] returned none. *)
Lemma processDevice_send e cfg id device dev action enabled sub s :
  let r := worker.processDevice e cfg id device dev action enabled sub s in
  let ev := completion_event e id action sub in
  (sendLog (snd r) = sendLog s ∧ broker (snd r) = broker s)
  ∨ ∃ s2,
      updates id touch (store s) (store s2)
      ∧ election.notified id (database.notifiedField action) (store s2) = true
      ∧ sendLog s2 = sendLog s ∧ broker s2 = broker s
      ∧ r = if sendFails e (event.ID ev)
            then (Some (Wrap "send all-devices.completed event" ErrSend),
                  log_send ev false s2)
            else (None,
                  snd (worker.markTransactionCompleteIfDone e id action
                         (log_send ev true s2))).
Proof.
  intros r ev. subst r ev. rewrite processDevice_eq. cbv zeta.
  pose proof (UpdateDeviceActionStatus_updates e id dev action "in-progress" (store s))
    as Hup1.
  destruct (database.UpdateDeviceActionStatus e id dev action "in-progress" (store s))
    as [[b1 err1] m1]. simpl in Hup1. simpl.
  destruct err1 as [err1|]; simpl; [by left|].
  pose proof (actuate_frame e cfg device dev action enabled (set_store m1 s))
    as (Htx & _ & _ & _ & Hl & Hb).
  destruct (worker.actuate e cfg device dev action enabled (set_store m1 s))
    as [finalStatus sa]. simpl in *.
  pose proof (UpdateDeviceActionStatus_updates e id dev action finalStatus (store sa))
    as Hup2.
  pose proof (UpdateDeviceActionStatus_won e id dev action finalStatus (store sa))
    as Hwon.
  destruct (database.UpdateDeviceActionStatus e id dev action finalStatus (store sa))
    as [[b2 err2] m2]. simpl in *.
  destruct err2 as [err2|]; simpl; [by left|].
  destruct b2; simpl; [|by left].
  right. exists (set_store m2 sa). simpl.
  split.
  { eapply updates_trans; [apply touch_trans| |exact Hup2].
    eapply updates_trans; [apply touch_trans|exact Hup1|].
    apply updates_same; [apply touch_refl|done]. }
  split; [by apply Hwon|]. split; [done|]. split; [done|].
  unfold Send. simpl. by destruct (sendFails e _).
Qed.

(** C7, as amended.  [markTransactionCompleteIfDone] loads the row and marks
    the transaction Completed exactly when the action is the end action, or
    the start action of a transaction without [endAt]; it checks that and
    nothing else, so the outcome of the devices plays no part.  The winner
    of the election calls it only after its [Send] of the
    [AllDevicesCompleted] returned no error: then, the store being at its
    service, the transaction is Completed.  When its [Send] fails the handler
    returns that error at once and the status of the transaction stays as
    it was, although the notified flag is set; and an execution of the
    handler that finds the flag set sends nothing and leaves the status as
    it is.  No execution of the worker's handler makes a transaction
    Failed. *)
Theorem winner_marks_completed e cfg id device dev action enabled sub s :
  let r := worker.processDevice e cfg id device dev action enabled sub s in
  let s' := snd r in
  let ev := completion_event e id action sub in
  let f := database.notifiedField action in
  (∀ row,
     row_of s id = Some row →
     fails e (FindOne id) = false →
     fails e (UpdateOne_completed id) = false →
     let marked := snd (worker.markTransactionCompleteIfDone e id action s) in
     (completes action row →
      row_of marked id
      = Some (database.set_UpdatedAt (now e)
                (database.set_status database.StatusCompleted row)))
     ∧ (¬ completes action row → marked = s))
  ∧ (∀ row,
       row_of s id = Some row →
       sendLog s' = sendLog s ++ [ev] →
       sendFails e (event.ID ev) = false →
       fails e (FindOne id) = false →
       fails e (UpdateOne_completed id) = false →
       completes action row →
       fst r = None
       ∧ broker s' = broker s ++ [ev]
       ∧ ∃ row', row_of s' id = Some row'
                 ∧ database.tx_Status row' = database.StatusCompleted)
  ∧ (∀ row,
       row_of s id = Some row →
       sendLog s' = sendLog s ++ [ev] →
       sendFails e (event.ID ev) = true →
       fst r = Some (Wrap "send all-devices.completed event" ErrSend)
       ∧ broker s' = broker s
       ∧ ∃ row', row_of s' id = Some row'
                 ∧ database.tx_Status row' = database.tx_Status row
                 ∧ database.get_notified f row' = true)
  ∧ (∀ row,
       row_of s id = Some row →
       database.get_notified f row = true →
       sendLog s' = sendLog s
       ∧ ∃ row', row_of s' id = Some row'
                 ∧ database.tx_Status row' = database.tx_Status row
                 ∧ database.get_notified f row' = true)
  ∧ (∀ id' row',
       row_of s' id' = Some row' →
       database.tx_Status row' = database.StatusFailed →
       ∃ row, row_of s id' = Some row
              ∧ database.tx_Status row = database.StatusFailed).
Proof.
  intros r s' ev f. split; [|split; [|split; [|split]]].
  - intros row Hrow Hfind Hupd marked. subst marked.
    destruct (markTransactionCompleteIfDone_completes e id action s row Hrow Hfind Hupd)
      as [Hyes Hno].
    split.
    + intros Hc. rewrite (Hyes Hc). unfold row_of. simpl. apply lookup_insert_eq.
    + intros Hc. by rewrite (Hno Hc).
  - intros row Hrow Hsent Hsend Hfind Hupd Hc.
    destruct (processDevice_send e cfg id device dev action enabled sub s)
      as [[Hl _]|(s2 & [_ Hid] & _ & Hl2 & Hb2 & Hr)].
    { fold r s' in Hl. rewrite Hl in Hsent. by apply app_singleton_neq in Hsent. }
    fold r ev in Hr. rewrite Hsend in Hr.
    unfold row_of in Hrow. rewrite Hrow in Hid. destruct Hid as (row2 & Hrow2 & Hle & Hst).
    assert (Hc2 : completes action row2).
    { destruct Hle as (_ & Hend & _). unfold completes in *. by rewrite Hend. }
    destruct (markTransactionCompleteIfDone_completes e id action (log_send ev true s2)
                row2 Hrow2 Hfind Hupd) as [Hyes _].
    subst s'. rewrite Hr. simpl. rewrite (Hyes Hc2). simpl.
    split; [done|]. split; [by rewrite Hb2|].
    eexists. unfold row_of. simpl. split; [apply lookup_insert_eq|done].
  - intros row Hrow Hsent Hsend.
    destruct (processDevice_send e cfg id device dev action enabled sub s)
      as [[Hl _]|(s2 & [_ Hid] & Hn & Hl2 & Hb2 & Hr)].
    { fold r s' in Hl. rewrite Hl in Hsent. by apply app_singleton_neq in Hsent. }
    fold r ev in Hr. rewrite Hsend in Hr.
    unfold row_of in Hrow. rewrite Hrow in Hid. destruct Hid as (row2 & Hrow2 & Hle & Hst).
    subst s'. rewrite Hr. simpl. split; [done|]. split; [done|].
    exists row2. unfold row_of. split; [done|]. split; [done|].
    unfold election.notified in Hn. by rewrite Hrow2 in Hn.
  - intros row Hrow Hflag.
    destruct (processDevice_outcome e cfg id device dev action enabled sub s)
      as (_ & _ & _ & [([_ Hid] & Hl & _)|Hwon]).
    + fold r s' in Hid, Hl. split; [done|].
      unfold row_of in *. rewrite Hrow in Hid.
      destruct Hid as (row' & Hrow' & Hle & Hst). exists row'.
      split; [done|]. split; [done|]. by apply Hle.
    + destruct Hwon as (row0 & _ & Hrow0 & _ & _ & Hf0 & _).
      rewrite Hrow in Hrow0. injection Hrow0 as <-. fold f in Hf0. congruence.
  - intros id' row' Hrow' Hfailed.
    destruct (processDevice_outcome e cfg id device dev action enabled sub s)
      as (_ & _ & _ & [([Hother Hid] & _)|Hwon]).
    + fold r s' in Hother, Hid. unfold row_of in *.
      destruct (decide (id' = id)) as [->|Hne].
      * destruct (database.transactions (store s) !! id) as [row|]; [|congruence].
        destruct Hid as (r' & Hr' & _ & Hst). rewrite Hrow' in Hr'. injection Hr' as <-.
        exists row. split; [done|congruence].
      * rewrite (Hother id' Hne) in Hrow'. eauto.
    + destruct Hwon as (row & r' & Hr & Hr' & [Hother _] & _ & _ & _ & Hst & _).
      fold r s' in Hr', Hother. unfold row_of in *.
      destruct (decide (id' = id)) as [->|Hne].
      * rewrite Hrow' in Hr'. injection Hr' as <-.
        exists row. split; [done|]. destruct Hst; congruence.
      * rewrite (Hother id' Hne) in Hrow'. eauto.
Qed.

(** In the run of the example the device client fails, so the one device of
    the transaction is Failed; the transaction is Completed all the same. *)
Lemma winner_marks_completed_witness :
  recorded_status (store walk.s4_failed) "U" "a" database.startAction = Some "failed"
  ∧ ∃ row', row_of walk.s4_failed "U" = Some row'
            ∧ database.tx_Status row' = database.StatusCompleted.
Proof.
  split; [vm_compute; reflexivity|].
  assert (Hrow : ∃ row, row_of walk.s3 "U" = Some row ∧ database.EndAt row = None)
    by (eexists; split; vm_compute; reflexivity).
  destruct Hrow as (row & Hrow & Hend).
  destruct (winner_marks_completed (example.broken 12) config.default "U"
              (example.device (Some "a")) "a" "start" true example.sub walk.s3)
    as (_ & H & _).
  destruct (H row Hrow) as (_ & _ & Hdone);
    [vm_compute; reflexivity|reflexivity|reflexivity|reflexivity|by left|].
  exact Hdone.
Defined.

(** C7, counterexample.  In the run of the example the worker handles the
    request for the one device of "U", a transaction without end, while the
    event sender fails: the handler wins the election and calls [Send],
    which fails; it returns that error, the flag of the start action is set
    and the transaction stays pending.  The broker delivers the request
    again, to a worker whose sender works: the handler finds the flag set,
    sends nothing, and the transaction stays pending. *)
Lemma completion_lost :
  fst (worker.processDevice (deaf 12) config.default "U" (example.device (Some "a"))
         "a" "start" true example.sub walk.s3)
  = Some (Wrap "send all-devices.completed event" ErrSend)
  ∧ sendLog lost.s4
    = sendLog walk.s3 ++ [completion_event (deaf 12) "U" "start" example.sub]
  ∧ broker lost.s4 = broker walk.s3
  ∧ election.notified "U" database.startActionNotified (store lost.s4) = true
  ∧ database.tx_Status <$> row_of lost.s4 "U" = Some database.StatusPending
  ∧ sendLog lost.s5 = sendLog lost.s4
  ∧ database.tx_Status <$> row_of lost.s5 "U" = Some database.StatusPending
  ∧ ¬ winner_always_marks.
Proof.
  assert (Hrow : ∃ row, row_of walk.s3 "U" = Some row ∧ database.EndAt row = None)
    by (eexists; split; vm_compute; reflexivity).
  assert (Hrow' : ∃ row', row_of lost.s4 "U" = Some row'
                          ∧ database.tx_Status row' = database.StatusPending)
    by (eexists; split; vm_compute; reflexivity).
  repeat (split; [vm_compute; reflexivity|]).
  intros H. destruct Hrow as (row & Hrow & Hend). destruct Hrow' as (row' & Hrow' & Hst).
  assert (Hc : database.tx_Status row' = database.StatusCompleted).
  { apply (H (deaf 12) config.default "U" (example.device (Some "a")) "a" "start" true
             example.sub walk.s3 row row' Hrow Hrow');
      [vm_compute; reflexivity|done|by left]. }
  congruence.
Qed.

(** ** Transactions without devices *)

Lemma transactionDevices_skipped e devices :
  (∀ d, d ∈ devices → models.NetworkAccessIdentifier d = None) →
  scheduler.transactionDevices e devices = [].
Proof.
  induction devices as [|d devices IH]; [done|]. intros H. simpl.
  rewrite (H d) by (by left). apply IH. intros d' Hd'. apply H. by right.
Qed.

Lemma processDevice_no_devices e cfg id device dev action enabled sub s :
  (∀ row, row_of s id = Some row → database.Devices row = []) →
  ∃ err, worker.processDevice e cfg id device dev action enabled sub s
         = (Some (Wrap "update status to in-progress" err), s).
Proof.
  intros Hempty. rewrite processDevice_eq. cbv zeta.
  destruct (UpdateDeviceActionStatus_no_devices e id dev action "in-progress" (store s)
              Hempty) as (err & -> & _).
  simpl. exists err. by destruct s.
Qed.

(** C10. For a transaction whose list of devices is empty,
    [UpdateDeviceActionStatus] returns [allCompleted = false] (the filter on
    the device matches nothing, and the completion check asks for
    [totalDevices > 0]), the handler of the worker changes nothing and sends
    nothing, and along every run of the system the transaction is never
    Completed and no [AllDevicesCompleted] is sent for it.  Such a transaction
    is created when every requested device lacks its network access
    identifier: [handleScheduleRequested] skips the devices and returns no
    error. *)
Theorem no_devices_never_completed :
  (∀ e id dev action status m,
     (∀ row, database.transactions m !! id = Some row → database.Devices row = []) →
     fst (fst (database.UpdateDeviceActionStatus e id dev action status m)) = false
     ∧ snd (database.UpdateDeviceActionStatus e id dev action status m) = m)
  ∧ (∀ action row,
       database.all_completed action row = true → 0 < length (database.Devices row))
  ∧ (∀ e cfg id device dev action enabled sub s,
       (∀ row, row_of s id = Some row → database.Devices row = []) →
       snd (worker.processDevice e cfg id device dev action enabled sub s) = s)
  ∧ (∀ cfg s visited id row,
       run cfg s visited →
       row_of s id = Some row → database.Devices row = [] →
       database.tx_Status row ≠ database.StatusCompleted
       ∧ ∀ ev d, ev ∈ sendLog s → event.data ev = event.AllDevicesCompleted d →
                 event.adc_TransactionID d ≠ id)
  ∧ (∀ e data s,
       (∀ d, d ∈ event.Devices (event.Payload data) →
             models.NetworkAccessIdentifier d = None) →
       row_of s (event.TransactionID (event.Payload data)) = None →
       fails e (InsertOne (event.TransactionID (event.Payload data))) = false →
       fst (scheduler.handleScheduleRequested e data s) = None
       ∧ ∃ row, row_of (snd (scheduler.handleScheduleRequested e data s))
                  (event.TransactionID (event.Payload data)) = Some row
                ∧ database.Devices row = []
                ∧ database.tx_Status row = database.StatusPending).
Proof.
  split; [|split; [|split; [|split]]].
  - intros e id dev action status m Hempty.
    by destruct (UpdateDeviceActionStatus_no_devices e id dev action status m Hempty)
      as (err & -> & _).
  - intros action row [_ H%Nat.ltb_lt]%andb_true_iff. done.
  - intros e cfg id device dev action enabled sub s Hempty.
    by destruct (processDevice_no_devices e cfg id device dev action enabled sub s Hempty)
      as (err & ->).
  - intros cfg s visited id row Hrun Hrow Hnil.
    destruct (devices_of_completed_run cfg s visited Hrun) as [Hst Hsent]. split.
    + intros Hc. by apply (Hst id row Hrow Hc).
    + intros ev d Hev Hd Hid. destruct (Hsent ev d Hev Hd) as (row' & Hrow' & Hne).
      rewrite Hid, Hrow in Hrow'. injection Hrow' as <-. done.
  - intros e data s Hnai Hnone Hok.
    rewrite (handleScheduleRequested_created e data s Hnone Hok). simpl.
    split; [done|]. eexists. unfold row_of. simpl. rewrite lookup_insert_eq.
    split; [reflexivity|]. simpl. split; [|done].
    by apply transactionDevices_skipped.
Qed.

(** The request of the example whose device has no identifier makes a row
    without devices, which a run does not complete. *)
Lemma no_devices_never_completed_witness :
  fst (scheduler.handleScheduleRequested (quiet 5) anonymous_request initial) = None
  ∧ ∃ row, row_of (snd (scheduler.handleScheduleRequested (quiet 5) anonymous_request
                          initial)) "E" = Some row
           ∧ database.Devices row = []
           ∧ database.tx_Status row ≠ database.StatusCompleted.
Proof.
  destruct no_devices_never_completed as (_ & _ & _ & Hrun & Hcreate).
  destruct (Hcreate (quiet 5) anonymous_request initial)
    as (Hret & row & Hrow & Hnil & _).
  - intros d Hd. apply list_elem_of_singleton in Hd. by subst d.
  - reflexivity.
  - reflexivity.
  - split; [exact Hret|]. exists row. split; [exact Hrow|]. split; [exact Hnil|].
    refine (proj1 (Hrun config.default _ _ "E" row _ Hrow Hnil)).
    apply run_step with initial; [apply run_initial|].
    apply step_ScheduleRequested.
Defined.

(** ** The end timer *)






(** The run of the example with an end. *)
Lemma tour_run :
  run config.default tour.s6
    [tour.s6; tour.s5; tour.s4; tour.s3; tour.s2; tour.s1; initial].
Proof.
  apply run_step with tour.s5.
  apply run_step with tour.s4.
  apply run_step with tour.s3.
  apply run_step with tour.s2.
  apply run_step with tour.s1.
  apply run_step with initial.
  - apply run_initial.
  - apply step_ScheduleRequested.
  - apply (step_timer config.default
             {| delay := 5; fires := example.start |} [] [] tour.s1).
    vm_compute. reflexivity.
  - apply (step_fire config.default (quiet 10) example.start [] tour.s2).
    vm_compute. reflexivity.
  - apply (step_actuation config.default (quiet 12)
             {| event.ID := "T-start-device-0";
                event.data := event.DeviceActuationRequest (tour.actuation "a") |}
             (tour.actuation "a")
             (worker.processDevice (quiet 12) config.default "T"
                (example.device (Some "a")) "a" "start" true example.sub) tour.s3).
    + vm_compute. apply list_elem_of_here.
    + reflexivity.
    + reflexivity.
  - apply (step_actuation config.default (quiet 13)
             {| event.ID := "T-start-device-1";
                event.data := event.DeviceActuationRequest (tour.actuation "b") |}
             (tour.actuation "b")
             (worker.processDevice (quiet 13) config.default "T"
                (example.device (Some "b")) "b" "start" true example.sub) tour.s4).
    + vm_compute. apply list_elem_of_further, list_elem_of_here.
    + reflexivity.
    + reflexivity.
  - apply (step_AllDevicesCompleted config.default (quiet 14)
             {| event.ID := "T-start-all-completed";
                event.data := event.AllDevicesCompleted tour.completion |}
             tour.completion tour.s5).
    + vm_compute. do 2 apply list_elem_of_further. apply list_elem_of_here.
    + reflexivity.
Defined.


(** ** At most one completion *)

Lemma completedCount_le action ds :
  database.completedCount action ds ≤ length ds.
Proof.
  induction ds as [|d ds IH]; simpl; [done|].
  destruct (database.is_terminal _); simpl; lia.
Qed.

Lemma completedCount_all action ds :
  database.completedCount action ds = length ds →
  ∀ d, d ∈ ds → database.is_terminal (database.deviceAction action d) = true.
Proof.
  induction ds as [|d0 ds IH]; simpl; intros H d Hd; [by apply elem_of_nil in Hd|].
  pose proof (completedCount_le action ds).
  destruct (database.is_terminal (database.deviceAction action d0)) eqn:Ht;
    simpl in H; [|lia].
  apply elem_of_cons in Hd. destruct Hd as [->|Hd]; [done|].
  apply IH; [lia|done].
Qed.

Lemma find_elem_of {A} (P : A → bool) (l : list A) x :
  List.find P l = Some x → x ∈ l.
Proof.
  induction l as [|a l IH]; simpl; [done|].
  destruct (P a); [intros [= ->]; by left|]. intros H. right. by apply IH.
Qed.

(** When every device is terminal after the write of a status for the start
    or the end action, the status written is terminal. *)
Lemma all_completed_written e id dev action status m post m1 :
  database.FindOneAndUpdate_deviceStatus e id dev action status m = inl (post, m1) →
  database.all_completed action post = true →
  action = "start" ∨ action = "end" →
  status = "success" ∨ status = "failed".
Proof.
  intros HF [Hall _]%andb_true_iff Haction.
  apply Nat.eqb_eq in Hall.
  apply FindOneAndUpdate_deviceStatus_inl in HF.
  destruct HF as (row & ds & _ & Hds & -> & _). simpl in Hall.
  apply update_first_find in Hds; [|by intros []].
  destruct Hds as (d & _ & Hfind). apply find_elem_of in Hfind.
  pose proof (completedCount_all action ds Hall _ Hfind) as Hterm.
  destruct Haction as [-> | ->]; simpl in Hterm;
    apply orb_true_iff in Hterm; destruct Hterm as [H%String.eqb_eq|H%String.eqb_eq]; auto.
Qed.

(** A caller that runs its two driver calls with nothing in between does what
    the method does. *)
Lemma advance_sequential e c m :
  election.phase c = election.Called →
  let r := database.UpdateDeviceActionStatus e (election.transactionID c)
             (election.deviceID c) (election.action c) (election.status c) m in
  let a1 := election.advance e c m in
  let a2 := election.advance e (election.at_phase (fst a1) c) (snd a1) in
  fst a2 = election.Returned (fst (fst r)) (snd (fst r)) ∧ snd a2 = snd r.
Proof.
  intros Hph. unfold election.advance, database.UpdateDeviceActionStatus. rewrite Hph.
  destruct (database.FindOneAndUpdate_deviceStatus _ _ _ _ _ _) as [[post m1]|err];
    simpl; [|done].
  destruct (database.all_completed _ post); simpl; [|done].
  by destruct (database.UpdateOne_markNotified _ _ _ _) as [[won err] m2].
Qed.

Lemma race_steps e i p : rtc election.step p (race.move e i p).
Proof.
  unfold race.move. destruct (election.callers p !! i) as [c|] eqn:Hc; [|done].
  apply rtc_once. by apply election.step_advance.
Qed.

(** ** The status of a device *)

(** The run of the example without end, up to the first actuation. *)
Lemma walk_run :
  run config.default walk.s4 [walk.s4; walk.s3; walk.s2; walk.s1; initial].
Proof.
  apply run_step with walk.s3.
  apply run_step with walk.s2.
  apply run_step with walk.s1.
  apply run_step with initial.
  - apply run_initial.
  - apply step_ScheduleRequested.
  - apply (step_timer config.default
             {| delay := 5; fires := example.start_open |} [] [] walk.s1).
    vm_compute. reflexivity.
  - apply (step_fire config.default (quiet 10) example.start_open [] walk.s2).
    vm_compute. reflexivity.
  - apply (step_actuation config.default (quiet 12)
             {| event.ID := "U-start-device-0";
                event.data := event.DeviceActuationRequest walk.actuation |}
             walk.actuation
             (worker.processDevice (quiet 12) config.default "U"
                (example.device (Some "a")) "a" "start" true example.sub) walk.s3).
    + vm_compute. apply list_elem_of_here.
    + reflexivity.
    + reflexivity.
Qed.

(** The second delivery of the actuation request, while the device client
    fails, is a step of the system. *)
Lemma walk_redelivery : step config.default walk.s4 walk.s5.
Proof.
  apply (step_actuation config.default (example.broken 13)
           {| event.ID := "U-start-device-0";
              event.data := event.DeviceActuationRequest walk.actuation |}
           walk.actuation
           (worker.processDevice (example.broken 13) config.default "U"
              (example.device (Some "a")) "a" "start" true example.sub) walk.s4).
  - vm_compute. apply list_elem_of_here.
  - reflexivity.
  - reflexivity.
Qed.

(** C3, as amended.  [UpdateDeviceActionStatus] writes the status it is given
    whatever the status of the device was; an execution of the handler that
    returns no error writes "in-progress" first and leaves "success" or
    "failed".  On the first delivery that is Pending → InProgress →
    (Success | Failed); on a later delivery the status goes back to InProgress
    and then to the outcome of the repeated actuation. *)
Theorem processDevice_rewrites_status e cfg id device dev action enabled sub s :
  fst (worker.processDevice e cfg id device dev action enabled sub s) = None →
  let f := database.actionField action in
  let s' := snd (worker.processDevice e cfg id device dev action enabled sub s) in
  recorded_status
    (snd (database.UpdateDeviceActionStatus e id dev action "in-progress" (store s)))
    id dev f = Some "in-progress"
  ∧ (recorded_status (store s') id dev f = Some "success"
     ∨ recorded_status (store s') id dev f = Some "failed")
  ∧ (∀ status m,
       snd (fst (database.UpdateDeviceActionStatus e id dev action status m)) = None →
       recorded_status
         (snd (database.UpdateDeviceActionStatus e id dev action status m)) id dev f
       = Some status).
Proof.
  intros Hok f s'.
  destruct (processDevice_records e cfg id device dev action enabled sub s Hok)
    as (_ & Hfirst & Hlast).
  split; [exact Hfirst|]. split.
  - fold s' in Hlast. fold f in Hlast. rewrite Hlast.
    destruct (actuate_terminal e cfg device dev action enabled
                (set_store (snd (database.UpdateDeviceActionStatus e id dev action
                                   "in-progress" (store s))) s)) as [-> | ->]; auto.
  - intros status m. apply UpdateDeviceActionStatus_records.
Qed.

Lemma processDevice_rewrites_status_witness :
  recorded_status
    (snd (database.UpdateDeviceActionStatus (example.broken 13) "U" "a" "start"
            "in-progress" (store walk.s4)))
    "U" "a" database.startAction = Some "in-progress".
Proof.
  destruct (processDevice_rewrites_status (example.broken 13) config.default "U"
              (example.device (Some "a")) "a" "start" true example.sub walk.s4)
    as (H & _); [vm_compute; reflexivity|].
  exact H.
Defined.

(** C3, counterexample.  After the first delivery the start status of the
    device "a" of "U" is "success".  The request is delivered again while the
    device client fails: the first write of the handler takes the status back
    to "in-progress", and the handler leaves it at "failed". *)
Lemma status_regresses :
  recorded_status (store walk.s4) "U" "a" database.startAction = Some "success"
  ∧ recorded_status
      (snd (database.UpdateDeviceActionStatus (example.broken 13) "U" "a" "start"
              "in-progress" (store walk.s4)))
      "U" "a" database.startAction = Some "in-progress"
  ∧ recorded_status (store walk.s5) "U" "a" database.startAction = Some "failed"
  ∧ ¬ status_monotone.
Proof.
  split; [vm_compute; reflexivity|].
  split; [vm_compute; reflexivity|].
  split; [vm_compute; reflexivity|].
  intros H.
  assert (Hf : forward "success" "failed").
  { apply (H config.default walk.s4 _ walk.s5 "U" "a" database.startAction
             "success" "failed" walk_run walk_redelivery);
      vm_compute; reflexivity. }
  destruct Hf as [Hf|[[Hf _]|[Hf _]]]; discriminate.
Qed.

(** * The rest of the services: properties *)

(** ** The original state of a device *)

(** X1.  The original state of a device is stored under the identifier of
    the call, whatever identifier and timestamp the argument carries, and a
    later read of that identifier gives back the two values stored; the
    states of the other devices and the transactions are untouched, and a
    second store replaces the first. *)
Theorem original_state_round_trip e dev st m :
  fails e (ReplaceOne_config dev) = false →
  let stored := {| database.dos_DeviceID := dev;
                   database.PpMaximumLatency := database.PpMaximumLatency st;
                   database.PpMaximumResponseTime := database.PpMaximumResponseTime st;
                   database.dos_Timestamp := now e |} in
  let m' := snd (database.StoreDeviceOriginalState e dev st m) in
  fst (database.StoreDeviceOriginalState e dev st m) = None
  ∧ (∀ e', fails e' (FindOne_config dev) = false →
       database.GetDeviceOriginalState e' dev m' = inl stored)
  ∧ (∀ e' dev', dev' ≠ dev →
       database.GetDeviceOriginalState e' dev' m' = database.GetDeviceOriginalState e' dev' m)
  ∧ database.transactions m' = database.transactions m
  ∧ (∀ e' st',
       fails e' (ReplaceOne_config dev) = false →
       snd (database.StoreDeviceOriginalState e' dev st' m')
       = snd (database.StoreDeviceOriginalState e' dev st' m)).
Proof.
  intros Hok stored m'. subst m'. unfold database.StoreDeviceOriginalState.
  rewrite Hok. simpl. repeat split.
  - intros e' He'. unfold database.GetDeviceOriginalState. rewrite He'. simpl.
    by rewrite lookup_insert_eq.
  - intros e' dev' Hne. unfold database.GetDeviceOriginalState. simpl.
    by rewrite lookup_insert_ne.
  - intros e' st' He'. rewrite He'. simpl. by rewrite insert_insert_eq.
Qed.

Lemma original_state_round_trip_witness :
  database.GetDeviceOriginalState (quiet 9) "a"
    (snd (database.StoreDeviceOriginalState (quiet 7) "a"
            {| database.dos_DeviceID := "zz"; database.PpMaximumLatency := "100";
               database.PpMaximumResponseTime := "200"; database.dos_Timestamp := 0 |}
            database.empty))
  = inl {| database.dos_DeviceID := "a"; database.PpMaximumLatency := "100";
           database.PpMaximumResponseTime := "200"; database.dos_Timestamp := 7 |}.
Proof.
  apply (original_state_round_trip (quiet 7) "a"
           {| database.dos_DeviceID := "zz"; database.PpMaximumLatency := "100";
              database.PpMaximumResponseTime := "200"; database.dos_Timestamp := 0 |}
           database.empty); reflexivity.
Defined.

(** ** The check of the stored configurations *)

Lemma CheckDeviceConfigsExist_loop_ok failsq missing deviceIDs m :
  (∀ d, d ∈ deviceIDs → failsq (queries.CountDocuments_config d) = false) →
  queries.CheckDeviceConfigsExist_loop failsq missing deviceIDs m
  = inl (missing ++ filter (λ d, database.deviceConfigs m !! d = None) deviceIDs).
Proof.
  revert missing. induction deviceIDs as [|d ds IH]; intros missing Hok; simpl.
  - by rewrite app_nil_r.
  - rewrite (Hok d) by by left.
    rewrite IH by (intros; apply Hok; by right).
    rewrite filter_cons.
    destruct (decide (database.deviceConfigs m !! d = None)) as [Hn|Hn].
    + rewrite Hn. simpl. by rewrite <- app_assoc.
    + by destruct (database.deviceConfigs m !! d).
Qed.

Lemma CheckDeviceConfigsExist_loop_fails failsq missing deviceIDs m d :
  d ∈ deviceIDs → failsq (queries.CountDocuments_config d) = true →
  queries.CheckDeviceConfigsExist_loop failsq missing deviceIDs m
  = inr (Wrap "check device config existence" ErrDriver).
Proof.
  revert missing. induction deviceIDs as [|d' ds IH]; intros missing Hin Hd; simpl.
  - by apply elem_of_nil in Hin.
  - destruct (failsq (queries.CountDocuments_config d')) eqn:Hd'; [done|].
    apply elem_of_cons in Hin as [->|Hin]; [congruence|]. by apply IH.
Qed.

(** X2.  [CheckDeviceConfigsExist] answers with the identifiers of its
    argument that have no stored original state, in the order of the
    argument and as often as they occur there; it fails as soon as one count
    fails, and then says nothing of the other devices. *)
Theorem CheckDeviceConfigsExist_missing failsq deviceIDs m :
  ((∀ d, d ∈ deviceIDs → failsq (queries.CountDocuments_config d) = false) →
   queries.CheckDeviceConfigsExist failsq deviceIDs m
   = inl (filter (λ d, database.deviceConfigs m !! d = None) deviceIDs))
  ∧ (∀ d, d ∈ deviceIDs → failsq (queries.CountDocuments_config d) = true →
     queries.CheckDeviceConfigsExist failsq deviceIDs m
     = inr (Wrap "check device config existence" ErrDriver))
  ∧ (∀ missing d,
       queries.CheckDeviceConfigsExist failsq deviceIDs m = inl missing →
       (d ∈ missing ↔ d ∈ deviceIDs ∧ database.deviceConfigs m !! d = None)).
Proof.
  unfold queries.CheckDeviceConfigsExist. split; [|split].
  - intros Hok. by rewrite CheckDeviceConfigsExist_loop_ok.
  - intros d Hin Hd. by eapply CheckDeviceConfigsExist_loop_fails.
  - intros missing d Hr.
    destruct (decide (Forall (λ d, failsq (queries.CountDocuments_config d) = false)
                        deviceIDs)) as [Hall|Hex].
    + rewrite Forall_forall in Hall.
      rewrite CheckDeviceConfigsExist_loop_ok in Hr by done. simpl in Hr.
      injection Hr as <-. rewrite list_elem_of_filter. tauto.
    + apply not_Forall_Exists in Hex; [|apply _].
      apply Exists_exists in Hex as (d' & Hin & Hd').
      apply not_false_is_true in Hd'.
      by rewrite (CheckDeviceConfigsExist_loop_fails _ _ _ _ d') in Hr.
Qed.

Lemma CheckDeviceConfigsExist_missing_witness :
  queries.CheckDeviceConfigsExist (λ _, false) ["b"; "a"; "b"]
    (snd (database.StoreDeviceOriginalState (quiet 7) "a"
            {| database.dos_DeviceID := ""; database.PpMaximumLatency := "100";
               database.PpMaximumResponseTime := "200"; database.dos_Timestamp := 0 |}
            database.empty))
  = inl ["b"; "b"].
Proof.
  exact (proj1 (CheckDeviceConfigsExist_missing (λ _, false) ["b"; "a"; "b"]
                  (snd (database.StoreDeviceOriginalState (quiet 7) "a"
                          {| database.dos_DeviceID := "";
                             database.PpMaximumLatency := "100";
                             database.PpMaximumResponseTime := "200";
                             database.dos_Timestamp := 0 |}
                          database.empty)))
           (λ _ _, eq_refl)).
Defined.

(** ** The check of the conflicts *)

Lemma conflicts_with_spec deviceIDs row :
  queries.conflicts_with deviceIDs row ↔
  database.is_pending row
  ∧ ∃ d, d ∈ database.Devices row ∧ database.DeviceID d ∈ deviceIDs.
Proof. unfold queries.conflicts_with. by rewrite Exists_exists. Qed.

Lemma CheckDeviceConflicts_elem failsq deviceIDs m ids id :
  queries.CheckDeviceConflicts failsq deviceIDs m = inl ids →
  id ∈ ids ↔
  ∃ row, database.transactions m !! id = Some row
         ∧ queries.conflicts_with deviceIDs row.
Proof.
  unfold queries.CheckDeviceConflicts.
  destruct (failsq queries.Find_conflicts); [done|]. intros [= <-].
  rewrite list_elem_of_fmap. split.
  - intros ([id' row] & -> & [Hc Hin]%list_elem_of_filter).
    apply elem_of_map_to_list in Hin. by exists row.
  - intros (row & Hrow & Hc). exists (id, row). split; [done|].
    apply list_elem_of_filter. split; [done|]. by apply elem_of_map_to_list.
Qed.

(** X3.  [CheckDeviceConflicts] answers with the identifiers, each once, of
    the transactions whose status is pending or processing and that hold one
    of the devices asked for; a completed or failed transaction is never a
    conflict, and no transaction is one for an empty list of devices. *)
Theorem CheckDeviceConflicts_active failsq deviceIDs m :
  failsq queries.Find_conflicts = false →
  ∃ ids,
    queries.CheckDeviceConflicts failsq deviceIDs m = inl ids
    ∧ NoDup ids
    ∧ (∀ id, id ∈ ids ↔
         ∃ row, database.transactions m !! id = Some row
                ∧ database.is_pending row
                ∧ ∃ d, d ∈ database.Devices row ∧ database.DeviceID d ∈ deviceIDs)
    ∧ (∀ id row, database.transactions m !! id = Some row →
         database.tx_Status row = database.StatusCompleted
         ∨ database.tx_Status row = database.StatusFailed →
         id ∉ ids)
    ∧ (deviceIDs = [] → ids = []).
Proof.
  intros Hok.
  assert (Hr : ∃ ids, queries.CheckDeviceConflicts failsq deviceIDs m = inl ids).
  { unfold queries.CheckDeviceConflicts. rewrite Hok. eauto. }
  destruct Hr as [ids Hr]. exists ids. split; [done|].
  assert (Hspec : ∀ id, id ∈ ids ↔
            ∃ row, database.transactions m !! id = Some row
                   ∧ database.is_pending row
                   ∧ ∃ d, d ∈ database.Devices row ∧ database.DeviceID d ∈ deviceIDs).
  { intros id. rewrite (CheckDeviceConflicts_elem _ _ _ _ _ Hr).
    by setoid_rewrite conflicts_with_spec. }
  split; [|split; [done|split]].
  - unfold queries.CheckDeviceConflicts in Hr. rewrite Hok in Hr.
    injection Hr as <-.
    eapply sublist_NoDup; [apply (NoDup_fst_map_to_list (database.transactions m))|].
    apply fmap_sublist, sublist_filter.
  - intros id row Hrow Hst (row' & Hrow' & [Hp|Hp] & _)%Hspec;
      rewrite Hrow in Hrow'; injection Hrow' as <-; destruct Hst; congruence.
  - intros ->. destruct ids as [|id ids]; [done|].
    destruct (proj1 (Hspec id)) as (row & _ & _ & d & _ & Hd); [by left|].
    by apply elem_of_nil in Hd.
Qed.

Lemma CheckDeviceConflicts_active_witness :
  ∃ ids,
    queries.CheckDeviceConflicts (λ _, false) ["b"] (store example.scheduled) = inl ids
    ∧ "T" ∈ ids.
Proof.
  destruct (CheckDeviceConflicts_active (λ _, false) ["b"] (store example.scheduled)
              eq_refl) as (ids & Hr & _ & Hspec & _).
  exists ids. split; [exact Hr|].
  apply Hspec. eexists. split; [reflexivity|]. split; [by left|].
  eexists. split; [apply list_elem_of_lookup_2 with 1; reflexivity|]. simpl. by left.
Defined.

Lemma transactionDevices_elem e devices device d :
  device ∈ devices → models.NetworkAccessIdentifier device = Some d →
  ∃ txDevice, txDevice ∈ scheduler.transactionDevices e devices
              ∧ database.DeviceID txDevice = d
              ∧ database.Device txDevice = device.
Proof.
  induction devices as [|device' devices IH]; intros Hin Hd.
  - by apply elem_of_nil in Hin.
  - simpl. apply elem_of_cons in Hin as [<-|Hin].
    + rewrite Hd. eexists. split; [by left|done].
    + destruct (IH Hin Hd) as (txDevice & Hx & Hid & Hdev).
      exists txDevice. split; [|done].
      destruct (models.NetworkAccessIdentifier device'); [by right|done].
Qed.

(** ** The retention of the transactions *)

Lemma DeleteOldTransactions_eq failsq olderThan m :
  failsq queries.DeleteMany_old = false →
  queries.DeleteOldTransactions failsq olderThan m
  = ((Z.of_nat (size (filter (λ kv, queries.is_old olderThan (snd kv))
                        (database.transactions m))), None),
     database.with_transactions m
       (filter (λ kv, ¬ queries.is_old olderThan (snd kv)) (database.transactions m))).
Proof. intros H. unfold queries.DeleteOldTransactions. by rewrite H. Qed.

Lemma DeleteOldTransactions_lookup failsq olderThan m id row :
  failsq queries.DeleteMany_old = false →
  database.transactions (snd (queries.DeleteOldTransactions failsq olderThan m)) !! id
    = Some row
  ↔ database.transactions m !! id = Some row ∧ ¬ queries.is_old olderThan row.
Proof.
  intros H. rewrite DeleteOldTransactions_eq by done. simpl.
  by rewrite map_lookup_filter_Some.
Qed.

(** X5.  [DeleteOldTransactions] removes the transactions that are completed
    or failed and were last updated before the bound, and no other: a
    pending or processing transaction stays whatever its age, the rows that
    stay are unchanged, the original states of the devices are untouched,
    the count returned is the number of rows removed, and a second call
    with the same bound removes nothing.  When the driver fails nothing is
    removed. *)
Theorem DeleteOldTransactions_removes failsq olderThan m :
  let r := queries.DeleteOldTransactions failsq olderThan m in
  (failsq queries.DeleteMany_old = true →
   r = ((0%Z, Some (Wrap "delete old transactions" ErrDriver)), m))
  ∧ (failsq queries.DeleteMany_old = false →
     snd (fst r) = None
     ∧ (∀ id row,
          database.transactions (snd r) !! id = Some row
          ↔ database.transactions m !! id = Some row
            ∧ ¬ ((database.tx_Status row = database.StatusCompleted
                  ∨ database.tx_Status row = database.StatusFailed)
                 ∧ (database.UpdatedAt row < olderThan)%Z))
     ∧ (∀ id row,
          database.transactions m !! id = Some row → database.is_pending row →
          database.transactions (snd r) !! id = Some row)
     ∧ database.deviceConfigs (snd r) = database.deviceConfigs m
     ∧ (Z.of_nat (size (database.transactions m))
        = fst (fst r) + Z.of_nat (size (database.transactions (snd r))))%Z
     ∧ queries.DeleteOldTransactions failsq olderThan (snd r) = ((0%Z, None), snd r)).
Proof.
  intros r. subst r. split.
  - intros H. unfold queries.DeleteOldTransactions. by rewrite H.
  - intros H. split; [by rewrite DeleteOldTransactions_eq|].
    split; [intros id row; by apply DeleteOldTransactions_lookup|].
    split; [|split; [by rewrite DeleteOldTransactions_eq|split]].
    + intros id row Hrow Hp. apply DeleteOldTransactions_lookup; [done|].
      split; [done|]. intros [[Hs|Hs] _]; destruct Hp; congruence.
    + rewrite DeleteOldTransactions_eq by done. simpl.
      rewrite <- Nat2Z.inj_add, <- map_size_disj_union
        by apply map_disjoint_filter_complement.
      by rewrite map_filter_union_complement.
    + rewrite (DeleteOldTransactions_eq failsq olderThan m H). simpl.
      rewrite DeleteOldTransactions_eq by done. simpl.
      set (kept := filter (λ kv, ¬ queries.is_old olderThan (snd kv))
                     (database.transactions m)).
      assert (Hnone : filter (λ kv, queries.is_old olderThan (snd kv)) kept = ∅).
      { apply map_empty_filter_2. intros id row Hrow. simpl.
        by apply map_lookup_filter_Some in Hrow as [_ Hn]. }
      assert (Hall : filter (λ kv, ¬ queries.is_old olderThan (snd kv)) kept = kept).
      { apply map_filter_id. intros id row Hrow. simpl.
        by apply map_lookup_filter_Some in Hrow as [_ Hn]. }
      rewrite Hnone, Hall, map_size_empty. done.
Qed.

Lemma DeleteOldTransactions_removes_witness :
  (Z.of_nat (size (database.transactions (store walk.s4)))
   = fst (fst (queries.DeleteOldTransactions (λ _, false) 100 (store walk.s4)))
     + Z.of_nat (size (database.transactions
                         (snd (queries.DeleteOldTransactions (λ _, false) 100
                                 (store walk.s4))))))%Z
  ∧ database.transactions
      (snd (queries.DeleteOldTransactions (λ _, false) 100 (store walk.s3))) !! "U"
    = database.transactions (store walk.s3) !! "U".
Proof.
  split.
  - exact (proj1 (proj2 (proj2 (proj2 (proj2
             (proj2 (DeleteOldTransactions_removes (λ _, false) 100 (store walk.s4))
                eq_refl)))))).
  - destruct (proj2 (DeleteOldTransactions_removes (λ _, false) 100 (store walk.s3))
                eq_refl) as (_ & _ & Hkeep & _).
    eapply Hkeep; [reflexivity|by left].
Defined.

Lemma runCleanup_eq e failsq sched s :
  retention.runCleanup e failsq sched s
  = (tt, set_store
           (snd (queries.DeleteOldTransactions failsq
                   (now e + retention.neg64 (retention.retentionPeriod sched))
                   (store s))) s).
Proof.
  unfold retention.runCleanup. rewrite bind_eq, db_eq. reflexivity.
Qed.

Lemma New_periods :
  retention.defaultRetentionPeriod ≠ 0%Z ∧ retention.defaultCleanupInterval ≠ 0%Z.
Proof. split; by vm_compute. Qed.

(** X6.  The scheduler never runs with a retention period or a cleanup
    interval of zero: a missing configuration and a zero in the configuration
    both give the defaults, 168 hours and 1 hour.  A run of the cleanup keeps
    every pending or processing transaction and every transaction updated
    within the retention period before now, changes no row it keeps, and
    touches nothing but the transactions: not the original states of the
    devices, and not the timers, which stay armed for the rows it
    removes. *)
Theorem runCleanup_window e failsq cfg s :
  let sched := retention.New cfg in
  let s' := snd (retention.runCleanup e failsq sched s) in
  retention.retentionPeriod sched ≠ 0%Z
  ∧ retention.cleanupInterval sched ≠ 0%Z
  ∧ (cfg = None ∨ (∃ c, cfg = Some c ∧ retention.RetentionPeriod c = 0%Z) →
     retention.retentionPeriod sched = retention.defaultRetentionPeriod)
  ∧ (cfg = None ∨ (∃ c, cfg = Some c ∧ retention.CleanupInterval c = 0%Z) →
     retention.cleanupInterval sched = retention.defaultCleanupInterval)
  ∧ (∀ id row,
       row_of s id = Some row →
       database.is_pending row
       ∨ ((- 2 ^ 63 < retention.retentionPeriod sched)%Z
          ∧ (now e - retention.retentionPeriod sched ≤ database.UpdatedAt row)%Z) →
       row_of s' id = Some row)
  ∧ (∀ id row, row_of s' id = Some row → row_of s id = Some row)
  ∧ database.deviceConfigs (store s') = database.deviceConfigs (store s)
  ∧ timers s' = timers s ∧ runtime s' = runtime s ∧ fireChan s' = fireChan s
  ∧ nefLog s' = nefLog s ∧ sendLog s' = sendLog s ∧ broker s' = broker s.
Proof.
  intros sched s'. subst s'. rewrite runCleanup_eq.
  destruct New_periods as (Hr0 & Hc0).
  assert (Hr : retention.retentionPeriod sched
               = match cfg with
                 | Some c => if (retention.RetentionPeriod c =? 0)%Z
                             then retention.defaultRetentionPeriod
                             else retention.RetentionPeriod c
                 | None => retention.defaultRetentionPeriod
                 end).
  { subst sched. unfold retention.New. destruct cfg as [c|]; [done|].
    cbn [retention.retentionPeriod retention.RetentionPeriod].
    by destruct (Z.eqb_spec retention.defaultRetentionPeriod 0). }
  assert (Hc : retention.cleanupInterval sched
               = match cfg with
                 | Some c => if (retention.CleanupInterval c =? 0)%Z
                             then retention.defaultCleanupInterval
                             else retention.CleanupInterval c
                 | None => retention.defaultCleanupInterval
                 end).
  { subst sched. unfold retention.New. destruct cfg as [c|]; [done|].
    cbn [retention.cleanupInterval retention.CleanupInterval].
    by destruct (Z.eqb_spec retention.defaultCleanupInterval 0). }
  clearbody sched. cbn [snd store timers runtime fireChan nefLog sendLog broker set_store].
  split; [|split; [|split; [|split]]].
  - rewrite Hr. destruct cfg as [c|]; [|done].
    by destruct (Z.eqb_spec (retention.RetentionPeriod c) 0).
  - rewrite Hc. destruct cfg as [c|]; [|done].
    by destruct (Z.eqb_spec (retention.CleanupInterval c) 0).
  - rewrite Hr. intros [->|(c & -> & H0)]; [done|]. by rewrite H0.
  - rewrite Hc. intros [->|(c & -> & H0)]; [done|]. by rewrite H0.
  - unfold row_of. cbn [store set_store].
    destruct (failsq queries.DeleteMany_old) eqn:Hf.
    + unfold queries.DeleteOldTransactions. rewrite Hf. simpl. tauto.
    + repeat split.
      * intros id row Hrow Hkeep. apply DeleteOldTransactions_lookup; [done|].
        split; [done|]. intros [Hst Hlt].
        destruct Hkeep as [[Hp|Hp]|[Hmin Hle]]; [destruct Hst; congruence..|].
        unfold retention.neg64 in Hlt.
        destruct (Z.eqb_spec (retention.retentionPeriod sched) (- 2 ^ 63)); lia.
      * intros id row Hrow. by apply DeleteOldTransactions_lookup in Hrow as [? _].
      * by rewrite DeleteOldTransactions_eq.
Qed.

(** X7.  The protection of a transaction identifier against a replayed
    request lasts as long as the row: once the cleanup has removed the row of
    a completed or failed transaction, the scheduler accepts a
    [ScheduleRequested] with the same identifier again, creates the row
    afresh and arms its start timer. *)
Theorem replay_after_cleanup e failsq sched e' data s row :
  let id := event.TransactionID (event.Payload data) in
  let s1 := snd (retention.runCleanup e failsq sched s) in
  let s2 := snd (scheduler.handleScheduleRequested e' data s1) in
  row_of s id = Some row →
  database.tx_Status row = database.StatusCompleted
  ∨ database.tx_Status row = database.StatusFailed →
  (database.UpdatedAt row
   < now e + retention.neg64 (retention.retentionPeriod sched))%Z →
  failsq queries.DeleteMany_old = false →
  fails e' (InsertOne id) = false →
  row_of s1 id = None
  ∧ fst (scheduler.handleScheduleRequested e' data s1) = None
  ∧ row_of s2 id = Some (created e' data)
  ∧ runtime s2 = runtime s ++ [start_timer e' data].
Proof.
  intros id s1 s2 Hrow Hst Hlt Hf Hins.
  assert (Hnone : row_of s1 id = None).
  { subst s1. rewrite runCleanup_eq. unfold row_of. simpl.
    destruct (database.transactions _ !! id) as [row'|] eqn:Hrow'; [|done].
    apply DeleteOldTransactions_lookup in Hrow' as [Hrow' Hn]; [|done].
    unfold row_of in Hrow. rewrite Hrow in Hrow'. injection Hrow' as <-.
    by destruct Hn. }
  split; [done|]. subst s2.
  rewrite (handleScheduleRequested_created e' data s1 Hnone Hins).
  unfold row_of. simpl. split; [done|]. split; [by rewrite lookup_insert_eq|].
  subst s1. by rewrite runCleanup_eq.
Qed.

Lemma replay_after_cleanup_witness :
  let e := quiet (12 + 168 * retention.Hour + 1) in
  let s1 := snd (retention.runCleanup e (λ _, false) (retention.New None) walk.s4) in
  row_of s1 "U" = None
  ∧ fst (scheduler.handleScheduleRequested e example.requested_open s1) = None.
Proof.
  pose proof (replay_after_cleanup (quiet (12 + 168 * retention.Hour + 1)) (λ _, false)
                (retention.New None) (quiet (12 + 168 * retention.Hour + 1))
                example.requested_open walk.s4
                (default (created (quiet 5) example.requested_open)
                   (row_of walk.s4 "U")))
    as H.
  destruct H as (H1 & H2 & _);
    [vm_compute; reflexivity|left; vm_compute; reflexivity|vm_compute; reflexivity
    |reflexivity|reflexivity|].
  split; [exact H1|exact H2].
Defined.

(** ** What the services never write *)

Lemma row_step_refl row : row_step row row.
Proof. split; [apply row_le_refl|by left]. Qed.

Lemma touch_row_step row row' : touch row row' → row_step row row'.
Proof. intros [Hle Hst]. split; [done|by left]. Qed.

Lemma updates_rows id (R : database.Transaction → database.Transaction → Prop) m m' id' :
  updates id R m m' → (∀ row, R row row) →
  match database.transactions m !! id' with
  | Some row => ∃ row', database.transactions m' !! id' = Some row' ∧ R row row'
  | None => database.transactions m' !! id' = None
  end.
Proof.
  intros [Hother Hid] Hrefl. destruct (decide (id' = id)) as [->|Hne]; [done|].
  rewrite (Hother id' Hne). destruct (database.transactions m !! id'); eauto.
Qed.

Lemma fireSchedule_store e schedAction s :
  let s' := snd (scheduler.fireSchedule e schedAction s) in
  updates (sa_TransactionID schedAction)
    (λ row row', row_le row row'
       ∧ (database.tx_Status row' = database.tx_Status row
          ∨ database.tx_Status row' = database.StatusFailed))
    (store s) (store s')
  ∧ database.deviceConfigs (store s') = database.deviceConfigs (store s).
Proof.
  unfold scheduler.fireSchedule. rewrite bind_eq, db_eq.
  pose proof (ClaimTransaction_updates e (sa_TransactionID schedAction)
                (sa_Action schedAction) (store s)) as Hclaim.
  assert (Hcfg : database.deviceConfigs
                   (snd (database.ClaimTransaction e (sa_TransactionID schedAction)
                           (sa_Action schedAction) (store s)))
                 = database.deviceConfigs (store s)).
  { unfold database.ClaimTransaction, database.updateOne.
    destruct (fails e _); [done|].
    destruct (database.transactions (store s) !! _) as [row|]; simpl.
    - destruct (database.claim_filter _ row); simpl; [done|].
      by destruct (database.GetTransaction e _ _) as [?|[]].
    - by destruct (database.GetTransaction e _ _) as [?|[]]. }
  destruct (database.ClaimTransaction e _ _ (store s)) as [[claimed err] m1].
  simpl in Hclaim, Hcfg. simpl.
  assert (Hweak : updates (sa_TransactionID schedAction)
            (λ row row', row_le row row'
               ∧ (database.tx_Status row' = database.tx_Status row
                  ∨ database.tx_Status row' = database.StatusFailed))
            (store s) m1).
  { destruct Hclaim as [Hother Hid]. split; [done|].
    destruct (database.transactions (store s) !! sa_TransactionID schedAction);
      [|done].
    destruct Hid as (row' & Hrow' & Hle & Hst). exists row'.
    split; [done|]. split; [done|by left]. }
  destruct err as [err|].
  { rewrite bind_eq, sendErrorNotification_eq. simpl.
    by destruct (String.eqb (models.Sink _) ""). }
  destruct claimed; simpl; [|done].
  rewrite bind_eq. unfold db_read at 1. simpl.
  destruct (database.GetTransaction e _ m1) as [transaction|err].
  - rewrite bind_eq.
    match goal with
    | |- context [for_each ?body ?items ?s1] =>
        destruct (publish_frame e transaction schedAction
                    (if String.eqb (sa_Action schedAction) event.ActionEnd
                     then negb (database.Enabled transaction)
                     else database.Enabled transaction) items s1)
          as (Hs & _)
    end.
    cbv zeta in *. simpl in *. by rewrite Hs.
  - rewrite bind_eq, db_eq. simpl. rewrite bind_eq, sendErrorNotification_eq. simpl.
    pose proof (MarkTransactionFailed_updates e (sa_TransactionID schedAction)
                  "failed to retrieve transaction data" m1) as Hfail.
    assert (Hcfg' : database.deviceConfigs
                      (snd (database.MarkTransactionFailed e
                              (sa_TransactionID schedAction)
                              "failed to retrieve transaction data" m1))
                    = database.deviceConfigs m1).
    { unfold database.MarkTransactionFailed, database.updateOne.
      destruct (fails e _); [done|]. simpl.
      by destruct (database.transactions m1 !! _). }
    assert (Hboth : updates (sa_TransactionID schedAction)
              (λ row row', row_le row row'
                 ∧ (database.tx_Status row' = database.tx_Status row
                    ∨ database.tx_Status row' = database.StatusFailed))
              (store s) (snd (database.MarkTransactionFailed e
                                (sa_TransactionID schedAction)
                                "failed to retrieve transaction data" m1))).
    { eapply updates_trans; [|exact Hclaim|exact Hfail].
      intros a b c [Hab Hst] [Hbc [Hst'|Hst']]; (split; [by eapply row_le_trans|]).
      - left. congruence.
      - by right. }
    destruct (String.eqb (models.Sink _) ""); simpl; (split; [done|congruence]).
Qed.

Lemma processDevice_deviceConfigs e cfg id device dev action enabled sub s d :
  is_Some (database.deviceConfigs (store s) !! d) →
  is_Some (database.deviceConfigs
             (store (snd (worker.processDevice e cfg id device dev action enabled sub s)))
           !! d).
Proof.
  intros Hd.
  pose proof (processDevice_actuation e cfg id device dev action enabled sub s) as Ha.
  cbv zeta in Ha.
  destruct (snd (fst (database.UpdateDeviceActionStatus e id dev action "in-progress"
                        (store s)))) as [err|].
  - destruct Ha as [_ ->]. done.
  - destruct Ha as [_ ->].
    assert (Hd1 : is_Some (database.deviceConfigs
              (store (set_store (snd (database.UpdateDeviceActionStatus e id dev action
                                        "in-progress" (store s))) s)) !! d)).
    { simpl. by rewrite UpdateDeviceActionStatus_deviceConfigs. }
    revert Hd1. generalize (set_store (snd (database.UpdateDeviceActionStatus e id dev
                                              action "in-progress" (store s))) s).
    intros s1 Hd1. unfold worker.actuate.
    assert (Hrestore : is_Some (database.deviceConfigs
                          (store (snd (worker.restoreOriginal e device dev s1))) !! d)).
    { rewrite restoreOriginal_eq. by destruct (database.GetDeviceOriginalState e dev _). }
    assert (Happly : is_Some (database.deviceConfigs
                          (store (snd (worker.applyPowerSaving e cfg device s1))) !! d)).
    { by rewrite applyPowerSaving_eq. }
    destruct (String.eqb action event.ActionStart).
    + destruct enabled; [|done].
      rewrite captureAndApply_eq. cbv zeta.
      destruct (easyapi.GetDeviceConfig (deviceClient e) device); [|done].
      destruct (fails e (ReplaceOne_config dev)); [done|]. simpl.
      destruct (decide (d = dev)) as [->|Hne].
      * rewrite lookup_insert_eq. eauto.
      * by rewrite lookup_insert_ne.
    + destruct (String.eqb action event.ActionEnd); [by destruct enabled|done].
Qed.

Lemma loadPendingSchedules_store e s :
  store (snd (scheduler.loadPendingSchedules e s)) = store s.
Proof.
  unfold scheduler.loadPendingSchedules. rewrite bind_eq. unfold db_read at 1. simpl.
  destruct (database.GetPendingTransactions e (store s)) as [txs|err]; [|done].
  rewrite bind_eq. simpl.
  by destruct (loadPendingSchedules_loop e txs s) as (-> & _).
Qed.

Lemma handleScheduleRequested_rows e data s :
  let id := event.TransactionID (event.Payload data) in
  let s' := snd (scheduler.handleScheduleRequested e data s) in
  database.deviceConfigs (store s') = database.deviceConfigs (store s)
  ∧ (store s' = store s
     ∨ (row_of s id = None
        ∧ database.transactions (store s')
          = <[id := created e data]> (database.transactions (store s)))).
Proof.
  intros id s'. subst s' id. unfold row_of.
  destruct (database.transactions (store s)
              !! event.TransactionID (event.Payload data)) as [row|] eqn:Hrow.
  - destruct (handleScheduleRequested_failed e data s) as (cause & _ & ->);
      [left; by rewrite Hrow|].
    simpl. destruct (String.eqb _ ""); simpl; auto.
  - destruct (fails e (InsertOne (event.TransactionID (event.Payload data)))) eqn:Hins.
    + destruct (handleScheduleRequested_failed e data s) as (cause & _ & ->);
        [by right|].
      simpl. destruct (String.eqb _ ""); simpl; auto.
    + rewrite (handleScheduleRequested_created e data s Hrow Hins). simpl.
      split; [done|]. right. done.
Qed.

Lemma step_rows cfg s s' id :
  step cfg s s' →
  match row_of s id with
  | Some row => ∃ row', row_of s' id = Some row' ∧ row_step row row'
  | None => row_of s' id = None ∨ ∃ e data, row_of s' id = Some (created e data)
  end.
Proof.
  assert (Hsame : ∀ s s', store s' = store s →
            match row_of s id with
            | Some row => ∃ row', row_of s' id = Some row' ∧ row_step row row'
            | None => row_of s' id = None ∨ ∃ e data, row_of s' id = Some (created e data)
            end).
  { intros s0 s0' H. unfold row_of. rewrite H.
    destruct (database.transactions (store s0) !! id); eauto using row_step_refl. }
  assert (Hupd : ∀ s s' id0 (R : database.Transaction → database.Transaction → Prop),
            updates id0 R (store s) (store s') →
            (∀ row, R row row) → (∀ row row', R row row' → row_step row row') →
            match row_of s id with
            | Some row => ∃ row', row_of s' id = Some row' ∧ row_step row row'
            | None => row_of s' id = None ∨ ∃ e data, row_of s' id = Some (created e data)
            end).
  { intros s0 s0' id0 R Hu Hrefl HR.
    pose proof (updates_rows id0 R (store s0) (store s0') id Hu Hrefl) as H.
    unfold row_of. destruct (database.transactions (store s0) !! id).
    - destruct H as (row' & ? & ?). eauto.
    - by left. }
  intros Hstep. inversion Hstep; subst.
  - destruct (handleScheduleRequested_rows e data s) as (_ & [Hst|[Hnone Hnew]]).
    + by apply Hsame.
    + unfold row_of in *. rewrite Hnew.
      destruct (decide (id = event.TransactionID (event.Payload data))) as [->|Hne].
      * rewrite Hnone, lookup_insert_eq. right. eauto.
      * rewrite lookup_insert_ne by done.
        destruct (database.transactions (store s) !! id); eauto using row_step_refl.
  - apply Hsame. rewrite handleAllDevicesCompleted_eq.
    destruct (negb _); [done|].
    destruct (database.GetTransaction e _ _) as [tx|]; [|done].
    by destruct (database.EndAt tx).
  - by apply Hsame.
  - destruct (fireSchedule_store e schedAction
                (set_scheduler (timers s) (runtime s) rest s)) as [Hu _].
    eapply (Hupd s _ _ _ Hu).
    + intros row. split; [apply row_le_refl|by left].
    + intros row row' [Hle [Hst|Hst]]; (split; [done|]); auto.
  - unfold worker.handleActuationRequest in *.
    destruct (models.NetworkAccessIdentifier _) as [dev|]; [|done].
    match goal with H : Some _ = Some _ |- _ => injection H as <- end.
    destruct (processDevice_outcome e cfg (event.dar_TransactionID data)
                (event.dar_Device data) dev (event.dar_Action data)
                (event.dar_Enabled data) (event.dar_SubscriptionRequest data) s)
      as (_ & _ & _ & [(Hu & _)|(row & row' & Hrow & Hrow' & Hu & _ & _ & _ & Hst & _)]).
    + eapply (Hupd s _ _ _ Hu); [apply touch_refl|apply touch_row_step].
    + destruct (decide (id = event.dar_TransactionID data)) as [->|Hne].
      * rewrite Hrow. exists row'. split; [done|].
        destruct Hu as [_ Hu]. unfold row_of in Hrow. rewrite Hrow in Hu.
        destruct Hu as (row'' & Hrow'' & Hle). unfold row_of in Hrow'.
        rewrite Hrow' in Hrow''. injection Hrow'' as <-.
        split; [done|]. destruct Hst; auto.
      * destruct Hu as [Hother _]. unfold row_of. rewrite (Hother id Hne).
        destruct (database.transactions (store s) !! id); eauto using row_step_refl.
  - apply Hsame. by rewrite loadPendingSchedules_store.
Qed.

Lemma run_never_set cfg s visited id row :
  run cfg s visited →
  row_of s id = Some row →
  database.StartActionCompleted row = false
  ∧ database.EndActionCompleted row = false
  ∧ database.tx_Status row ≠ database.StatusProcessing.
Proof.
  intros Hrun. revert id row.
  induction Hrun as [|s visited s' Hrun IH Hstep]; intros id row Hrow.
  - done.
  - pose proof (step_rows cfg s s' id Hstep) as H.
    destruct (row_of s id) as [row0|] eqn:Hrow0.
    + destruct H as (row' & Hrow' & (_ & _ & _ & Hs & He & _) & Hst).
      rewrite Hrow in Hrow'. injection Hrow' as <-.
      destruct (IH id row0 Hrow0) as (Hs0 & He0 & Hst0).
      repeat split; [congruence..|].
      destruct Hst as [Hst|[Hst|Hst]]; congruence.
    + destruct H as [H|(e & data & H)]; [congruence|].
      rewrite Hrow in H. injection H as ->. done.
Qed.

(** X8.  No handler ever sets [startActionCompleted] or [endActionCompleted],
    and none ever writes the status processing: in every state of every run,
    every row has both flags unset and a status other than processing.  The
    filter of the claim therefore rejects nothing: in every state of a run, a
    claim of a transaction that has a row succeeds, for whatever action, as
    often as it is made. *)
Theorem claim_never_rejects cfg s visited id row :
  run cfg s visited →
  row_of s id = Some row →
  database.StartActionCompleted row = false
  ∧ database.EndActionCompleted row = false
  ∧ database.tx_Status row ≠ database.StatusProcessing
  ∧ ∀ e action,
      fails e (UpdateOne_claim id action) = false →
      database.ClaimTransaction e id action (store s)
      = ((true, None),
         database.with_transactions (store s)
           (<[id := database.set_UpdatedAt (now e) row]>
              (database.transactions (store s)))).
Proof.
  intros Hrun Hrow.
  destruct (run_never_set cfg s visited id row Hrun Hrow) as (Hs & He & Hst).
  repeat split; try done.
  intros e action Hf. unfold database.ClaimTransaction, database.updateOne.
  unfold row_of in Hrow. rewrite Hf, Hrow.
  assert (Hfilter : database.claim_filter action row = true).
  { unfold database.claim_filter. rewrite Hs, He.
    by destruct (String.eqb action "start"), (String.eqb action "end"). }
  by rewrite Hfilter.
Qed.

Lemma claim_never_rejects_witness :
  fst (database.ClaimTransaction (quiet 13) "U" "start" (store walk.s4)) = (true, None)
  ∧ fst (database.ClaimTransaction (quiet 13) "U" "end" (store walk.s4)) = (true, None).
Proof.
  destruct (claim_never_rejects config.default walk.s4
              [walk.s4; walk.s3; walk.s2; walk.s1; initial] "U"
              (default (created (quiet 5) example.requested_open) (row_of walk.s4 "U"))
              walk_run ltac:(vm_compute; reflexivity)) as (_ & _ & _ & H).
  split.
  - rewrite (H (quiet 13) "start" eq_refl). reflexivity.
  - rewrite (H (quiet 13) "end" eq_refl). reflexivity.
Defined.

(** ** Recovery *)

Lemma loadPendingSchedules_loop_start e txs s :
  (∀ tx, tx ∈ txs → database.StartActionCompleted tx = false) →
  runtime (snd (for_each (scheduler.loadPendingSchedule e) txs s))
  = runtime s ++ (recovered_timer e <$> txs).
Proof.
  revert s. induction txs as [|tx txs IH]; intros s Hall.
  - simpl. by rewrite app_nil_r.
  - rewrite for_each_cons, IH by (intros; apply Hall; by right).
    unfold scheduler.loadPendingSchedule. rewrite bind_eq.
    rewrite (Hall tx) by by left. simpl.
    destruct (database.EndAt tx); simpl; by rewrite <- app_assoc.
Qed.

(** X9.  What a restart recovers, in every state of every run: one start
    timer for each row that is pending, in the order of the collection, and
    no end timer.  Since no row ever has [startActionCompleted] set, the
    start timer is armed again also for a transaction whose start phase has
    completed, and the end timer such a transaction waits for is not armed
    by the recovery. *)
Theorem recovery_rearms_start cfg s visited e :
  run cfg s visited →
  fails e Find_pending = false →
  let r := scheduler.loadPendingSchedules e (set_scheduler ∅ [] [] s) in
  fst r = None
  ∧ runtime (snd r)
    = recovered_timer e
        <$> filter database.is_pending
              (snd <$> map_to_list (database.transactions (store s)))
  ∧ (∀ t, t ∈ runtime (snd r) → sa_Action (fires t) = "start")
  ∧ (∀ id row, row_of s id = Some row → database.is_pending row →
       recovered_timer e row ∈ runtime (snd r))
  ∧ store (snd r) = store s.
Proof.
  intros Hrun Hf r.
  assert (Hr : fst r = None
               ∧ runtime (snd r)
                 = recovered_timer e
                     <$> filter database.is_pending
                           (snd <$> map_to_list (database.transactions (store s)))).
  { subst r. unfold scheduler.loadPendingSchedules.
    rewrite bind_eq. unfold db_read at 1. simpl.
    unfold database.GetPendingTransactions. rewrite Hf. simpl.
    rewrite bind_eq. simpl. split; [done|].
    rewrite loadPendingSchedules_loop_start; [done|].
    intros tx [_ Hin]%list_elem_of_filter.
    apply list_elem_of_fmap in Hin as ([id row] & -> & Hin).
    apply elem_of_map_to_list in Hin.
    by destruct (run_never_set cfg s visited id row Hrun Hin) as (? & _). }
  destruct Hr as [Hfst Hrt]. split; [done|]. split; [done|].
  split; [|split].
  - intros t. rewrite Hrt. by intros (tx & -> & _)%list_elem_of_fmap.
  - intros id row Hrow Hp. rewrite Hrt. apply list_elem_of_fmap_2.
    apply list_elem_of_filter. split; [done|].
    apply list_elem_of_fmap. exists (id, row). split; [done|].
    by apply elem_of_map_to_list.
  - subst r. by rewrite loadPendingSchedules_store.
Qed.

Lemma recovery_rearms_start_witness :
  runtime (snd (scheduler.loadPendingSchedules (quiet 15)
                  (set_scheduler ∅ [] [] tour.s6)))
  = recovered_timer (quiet 15)
      <$> filter database.is_pending
            (snd <$> map_to_list (database.transactions (store tour.s6))).
Proof.
  exact (proj1 (proj2 (recovery_rearms_start config.default tour.s6 _ (quiet 15)
                         tour_run eq_refl))).
Defined.

(** ** At most one completion, and the retention loop *)

Lemma store_le_kept id m m' : store_le m m' → kept id m m'.
Proof. intros Hle [row Hrow]. destruct (Hle _ _ Hrow) as (row' & -> & _). eauto. Qed.

(** The deletion leaves the rows it keeps as they are. *)
Lemma DeleteOldTransactions_row failsq olderThan m id row :
  database.transactions (snd (queries.DeleteOldTransactions failsq olderThan m)) !! id
    = Some row →
  database.transactions m !! id = Some row.
Proof.
  destruct (failsq queries.DeleteMany_old) eqn:Hf.
  - unfold queries.DeleteOldTransactions. by rewrite Hf.
  - intros Hrow. by apply DeleteOldTransactions_lookup in Hrow as [? _].
Qed.

Lemma DeleteOldTransactions_notified failsq olderThan m id f :
  kept id m (snd (queries.DeleteOldTransactions failsq olderThan m)) →
  election.notified id f m = true →
  election.notified id f (snd (queries.DeleteOldTransactions failsq olderThan m)) = true.
Proof.
  unfold election.notified. intros Hkept.
  destruct (database.transactions m !! id) as [row|] eqn:Hrow; [|done].
  destruct Hkept as [row' Hrow']; [by eauto|].
  rewrite Hrow'. apply DeleteOldTransactions_row in Hrow'. congruence.
Qed.

Lemma other_notified e o m id f :
  kept id m (election.other e o m) →
  election.notified id f m = true →
  election.notified id f (election.other e o m) = true.
Proof.
  intros Hkept.
  destruct o; try (by apply notified_le, other_le).
  by apply DeleteOldTransactions_notified.
Qed.

(** A step of the pool that keeps the row keeps the invariant of its
    flags. *)
Lemma winners_step id f p p' :
  election.step p p' →
  kept id (election.shared p) (election.shared p') →
  election.winners id f p ≤ (if election.notified id f (election.shared p) then 1 else 0) →
  election.winners id f p'
  ≤ (if election.notified id f (election.shared p') then 1 else 0).
Proof.
  intros Hstep Hkept Hinv.
  destruct Hstep as [c p Hph|e i c p Hc|e o p]; unfold election.winners in *;
    simpl in *.
  - rewrite List.filter_app, length_app. simpl.
    unfold election.is_winner at 2. rewrite Hph. simpl. lia.
  - pose proof (count_insert (election.is_winner id f) (election.callers p) i c
        (election.at_phase (fst (election.advance e c (election.shared p))) c) Hc) as Hcount.
    pose proof (notified_le _ _ id f (advance_le e c (election.shared p))) as Hmono.
    destruct (advance_winner e c (election.shared p) id f)
      as [Heq|(Hold & Hnew & Hbefore & Hafter)].
    + rewrite Heq in Hcount.
      destruct (election.notified id f (election.shared p)).
      * rewrite Hmono by done. lia.
      * destruct (election.notified id f _); lia.
    + rewrite Hold, Hnew in Hcount. rewrite Hbefore in Hinv. rewrite Hafter. lia.
  - pose proof (other_notified e o (election.shared p) id f Hkept) as Hmono.
    destruct (election.notified id f (election.shared p)).
    + rewrite Hmono by done. lia.
    + destruct (election.notified id f _); lia.
Qed.

Lemma winners_reachable id f m0 p :
  rtc (pool_keeps id) {| election.shared := m0; election.callers := [] |} p →
  election.winners id f p ≤ (if election.notified id f (election.shared p) then 1 else 0).
Proof.
  intros Hrtc.
  apply rtc_ind_r with (x := {| election.shared := m0; election.callers := [] |})
    (P := λ p, election.winners id f p
               ≤ (if election.notified id f (election.shared p) then 1 else 0)) in Hrtc;
    [done| |].
  - unfold election.winners. simpl. destruct (election.notified _ _ _); lia.
  - intros p1 p2 _ [Hstep Hkept] Hinv. by apply winners_step with p1.
Qed.

(** Once the flag is set, it stays set and nobody wins any more, for as
    long as the row is kept. *)
Lemma no_winner_while_kept p p' id f :
  rtc (pool_keeps id) p p' →
  election.notified id f (election.shared p) = true →
  election.notified id f (election.shared p') = true
  ∧ election.winners id f p' = election.winners id f p.
Proof.
  intros Hrtc Hn. induction Hrtc as [p|p p1 p2 [Hstep Hkept] _ IH]; [done|].
  assert (election.notified id f (election.shared p1) = true
          ∧ election.winners id f p1 = election.winners id f p) as [Hn1 Hw1].
  { destruct Hstep as [c p Hph|e i c p Hc|e o p]; unfold election.winners; simpl in *.
    - split; [done|]. rewrite List.filter_app, length_app. simpl.
      unfold election.is_winner at 2. rewrite Hph. simpl. lia.
    - split; [by apply (notified_le _ _ id f (advance_le e c (election.shared p)))|].
      pose proof (count_insert (election.is_winner id f) (election.callers p) i c
        (election.at_phase (fst (election.advance e c (election.shared p))) c) Hc) as Hcount.
      destruct (advance_winner e c (election.shared p) id f)
        as [Heq|(_ & _ & Hbefore & _)]; [|congruence].
      rewrite Heq in Hcount. lia.
    - split; [|done]. by apply other_notified. }
  destruct (IH Hn1) as [-> ->]. done.
Qed.

(** The steps of the race keep every row. *)
Lemma race_keeps id e i p : rtc (pool_keeps id) p (race.move e i p).
Proof.
  unfold race.move. destruct (election.callers p !! i) as [c|] eqn:Hc; [|done].
  apply rtc_once. split; [by apply election.step_advance|].
  apply store_le_kept, advance_le.
Qed.

Lemma race_kept id : rtc (pool_keeps id) race.start race.finish.
Proof.
  unfold race.finish.
  eapply rtc_l; [split; [by apply (election.step_call race.caller)|by intros ?]|].
  eapply rtc_l; [split; [by apply (election.step_call race.caller)|by intros ?]|].
  eapply rtc_trans; [apply race_keeps|].
  eapply rtc_trans; [apply race_keeps|].
  eapply rtc_trans; [apply race_keeps|].
  apply race_keeps.
Qed.

(** The race continued past the deletion of the row, step by step. *)
Lemma race_again : rtc election.step race.finish again.pool.
Proof.
  unfold again.pool, again.deleted.
  eapply rtc_l; [apply (election.step_other (quiet 16) (election.OtherMarkCompleted "T"))|].
  eapply rtc_l;
    [apply (election.step_other (quiet 18) (election.OtherDeleteOld (λ _, false) 17))|].
  eapply rtc_l;
    [apply (election.step_other (quiet 19)
              (election.OtherCreate (scheduler.newTransaction (quiet 19) example.requested)))|].
  eapply rtc_l; [by apply (election.step_call again.caller_b)|].
  eapply rtc_trans; [apply race_steps|].
  eapply rtc_trans; [apply race_steps|].
  eapply rtc_l; [by apply (election.step_call race.caller)|].
  eapply rtc_trans; [apply race_steps|].
  apply race_steps.
Qed.

(** *** The system *)

Lemma effect_kept s s' id : effect s s' → kept id (store s) (store s').
Proof.
  intros [Hold _ _ _] [row Hrow]. destruct (Hold id row Hrow) as (row' & Hrow' & _).
  unfold row_of in Hrow'. eauto.
Qed.

(** Once the flag of a transaction and an action is set, a step of the
    services sends no completion for them. *)
Lemma completions_after_flag s s' id f :
  effect s s' →
  election.notified id f (store s) = true →
  completions id f s' = completions id f s.
Proof.
  intros [_ _ (evs & Hl & _ & Hevs) _] Hn.
  unfold completions. rewrite Hl, List.filter_app, length_app.
  assert (Hnone : List.filter (is_completion id f) evs = []); [|rewrite Hnone; simpl; lia].
  apply filter_none. intros ev Hev.
  destruct (is_completion id f ev) eqn:Hc; [|done].
  destruct Hevs as [Hno|(ev0 & d & row & row' & -> & Hd & Hrow & _ & Hf & _)].
  - apply is_completion_AllDevicesCompleted in Hc. by destruct (Hno ev Hev).
  - apply list_elem_of_singleton in Hev. subst ev0.
    unfold is_completion in Hc. rewrite Hd in Hc.
    apply andb_true_iff in Hc. destruct Hc as [Hid%String.eqb_eq Hfd%bool_decide_eq_true].
    subst id f. unfold election.notified, row_of in *. rewrite Hrow in Hn. congruence.
Qed.

(** A run of the cleanup sends nothing, and keeps the flags of the rows it
    keeps. *)
Lemma runCleanup_completions e failsq sched s id f :
  let s' := snd (retention.runCleanup e failsq sched s) in
  sendLog s' = sendLog s
  ∧ (kept id (store s) (store s') →
     election.notified id f (store s) = true → election.notified id f (store s') = true).
Proof.
  intros s'. subst s'. rewrite runCleanup_eq. simpl. split; [done|].
  apply DeleteOldTransactions_notified.
Qed.

Lemma evolve_completions cfg s s' id f :
  evolve cfg s s' →
  kept id (store s) (store s') →
  (completions id f s ≤ (if election.notified id f (store s) then 1 else 0) →
   completions id f s' ≤ (if election.notified id f (store s') then 1 else 0))
  ∧ (election.notified id f (store s) = true →
     election.notified id f (store s') = true
     ∧ completions id f s' = completions id f s).
Proof.
  intros [s0 s0' Hstep|e failsq sched s0] Hkept.
  - apply step_effect in Hstep. split.
    + by apply completions_step.
    + intros Hn. split; [by apply effect_notified with s0|by apply completions_after_flag].
  - destruct (runCleanup_completions e failsq sched s0 id f) as [Hl Hmono].
    cbv zeta in *. unfold completions. rewrite Hl. split.
    + intros Hinv. destruct (election.notified id f (store s0)).
      * by rewrite Hmono.
      * destruct (election.notified id f _); lia.
    + intros Hn. split; [by apply Hmono|done].
Qed.

Lemma completions_reachable cfg id f s :
  rtc (evolve_keeps cfg id) initial s →
  completions id f s ≤ (if election.notified id f (store s) then 1 else 0).
Proof.
  intros Hrtc.
  apply rtc_ind_r with (x := initial)
    (P := λ s, completions id f s
               ≤ (if election.notified id f (store s) then 1 else 0)) in Hrtc; [done| |].
  - unfold completions. simpl. destruct (election.notified _ _ _); lia.
  - intros s1 s2 _ [Hstep Hkept] Hinv.
    by apply (evolve_completions cfg s1 s2 id f Hstep Hkept).
Qed.

Lemma no_completion_while_kept cfg id f s s' :
  rtc (evolve_keeps cfg id) s s' →
  election.notified id f (store s) = true →
  election.notified id f (store s') = true
  ∧ completions id f s' = completions id f s.
Proof.
  intros Hrtc Hn. induction Hrtc as [s|s s1 s2 [Hstep Hkept] _ IH]; [done|].
  destruct (evolve_completions cfg s s1 id f Hstep Hkept) as [_ H].
  destruct (H Hn) as [Hn1 Hc1]. destruct (IH Hn1) as [-> ->]. done.
Qed.

(** A run of the services is a run of the system that keeps every row. *)
Lemma run_keeps cfg id s visited :
  run cfg s visited → rtc (evolve_keeps cfg id) initial s.
Proof.
  induction 1 as [|s visited s' _ IH Hstep]; [done|].
  eapply rtc_r; [exact IH|]. split; [by apply evolve_step|].
  apply effect_kept. by apply step_effect with cfg.
Qed.

Lemma run_evolve cfg s visited : run cfg s visited → rtc (evolve cfg) initial s.
Proof.
  induction 1 as [|s visited s' _ IH Hstep]; [done|].
  eapply rtc_r; [exact IH|]. by apply evolve_step.
Qed.

(** The run of the example, continued past the retention period, step by
    step. *)
Lemma again_run : rtc (evolve config.default) initial again.s9.
Proof.
  eapply rtc_r; [eapply rtc_r; [eapply rtc_r; [eapply rtc_r; [eapply rtc_r|]|]|]|].
  - exact (run_evolve _ _ _ walk_run).
  - apply (evolve_cleanup config.default (quiet again.late) (λ _, false)
             (retention.New None) walk.s4).
  - apply evolve_step.
    apply (step_ScheduleRequested config.default (quiet again.late)
             example.requested_open again.s5).
  - apply evolve_step.
    apply (step_timer config.default
             {| delay := 0; fires := example.start_open |} [] [] again.s6).
    vm_compute. reflexivity.
  - apply evolve_step.
    apply (step_fire config.default (quiet (again.late + 1)) example.start_open []
             again.s7).
    vm_compute. reflexivity.
  - apply evolve_step.
    apply (step_actuation config.default (quiet (again.late + 2))
             {| event.ID := "U-start-device-0";
                event.data := event.DeviceActuationRequest walk.actuation |}
             walk.actuation
             (worker.processDevice (quiet (again.late + 2)) config.default "U"
                (example.device (Some "a")) "a" "start" true example.sub) again.s8).
    + vm_compute. apply list_elem_of_here.
    + reflexivity.
    + reflexivity.
Qed.

(** C1, as amended.  For a transaction and an action phase, at most one
    [AllDevicesCompleted] is emitted for as long as the row of the
    transaction is not deleted.  [UpdateDeviceActionStatus] returns
    [allCompleted = true] only after its write left every device terminal
    (the status written is then terminal itself, for the start and the end
    action) and its conditional update on [{_id, <action>ActionNotified:
    false}] matched ([MatchedCount = 1]), which sets the flag.  Among callers
    that run concurrently with the other writes of the services, each of the
    two driver calls being atomic, at most one returns [true] for a
    transaction and a flag, and none does once the flag is set, along the
    steps that keep the row.  The handler of the worker sends the event only
    as that winner, so that along the steps of the system that keep the row,
    the retention loop included, at most one completion is sent for a
    transaction and a flag, and none once the flag is set.  When the
    retention loop deletes the row, its flags read unset again. *)
Theorem at_most_one_completion :
  (∀ e id dev action status m,
     let r := database.UpdateDeviceActionStatus e id dev action status m in
     fst (fst r) = true →
     ∃ post m1,
       database.FindOneAndUpdate_deviceStatus e id dev action status m = inl (post, m1)
       ∧ database.all_completed action post = true
       ∧ r = database.UpdateOne_markNotified e id action m1
       ∧ fst (database.updateOne id
                (λ t, negb (database.get_notified (database.notifiedField action) t))
                (λ t, database.set_UpdatedAt (now e)
                        (database.set_notified (database.notifiedField action) true t))
                m1) = 1
       ∧ election.notified id (database.notifiedField action) m1 = false
       ∧ election.notified id (database.notifiedField action) (snd r) = true
       ∧ (action = "start" ∨ action = "end" →
          status = "success" ∨ status = "failed"))
  ∧ (∀ e c m,
       election.phase c = election.Called →
       let r := database.UpdateDeviceActionStatus e (election.transactionID c)
                  (election.deviceID c) (election.action c) (election.status c) m in
       let a1 := election.advance e c m in
       let a2 := election.advance e (election.at_phase (fst a1) c) (snd a1) in
       fst a2 = election.Returned (fst (fst r)) (snd (fst r)) ∧ snd a2 = snd r)
  ∧ (∀ m0 p id f,
       rtc (pool_keeps id) {| election.shared := m0; election.callers := [] |} p →
       election.winners id f p ≤ 1)
  ∧ (∀ p p' id f,
       rtc (pool_keeps id) p p' →
       election.notified id f (election.shared p) = true →
       election.notified id f (election.shared p') = true
       ∧ election.winners id f p' = election.winners id f p)
  ∧ (∀ e cfg id device dev action enabled sub s,
       let s' := snd (worker.processDevice e cfg id device dev action enabled sub s) in
       sendLog s' = sendLog s
       ∨ (sendLog s' = sendLog s ++ [completion_event e id action sub]
          ∧ election.notified id (database.notifiedField action) (store s) = false
          ∧ election.notified id (database.notifiedField action) (store s') = true))
  ∧ (∀ cfg s id f,
       rtc (evolve_keeps cfg id) initial s → completions id f s ≤ 1)
  ∧ (∀ cfg s s' id f,
       rtc (evolve_keeps cfg id) s s' →
       election.notified id f (store s) = true →
       election.notified id f (store s') = true
       ∧ completions id f s' = completions id f s)
  ∧ (∀ e failsq sched s id row f,
       let s' := snd (retention.runCleanup e failsq sched s) in
       row_of s id = Some row →
       queries.is_old (now e + retention.neg64 (retention.retentionPeriod sched)) row →
       failsq queries.DeleteMany_old = false →
       row_of s' id = None
       ∧ election.notified id f (store s') = false
       ∧ completions id f s' = completions id f s).
Proof.
  split; [|split; [|split; [|split; [|split; [|split; [|split]]]]]].
  - intros e id dev action status m r Hwon. subst r.
    unfold database.UpdateDeviceActionStatus in *.
    destruct (database.FindOneAndUpdate_deviceStatus e id dev action status m)
      as [[post m1]|err] eqn:HF; [|done].
    destruct (database.all_completed action post) eqn:Hall; [|done].
    exists post, m1. split; [done|]. split; [done|]. split; [done|].
    destruct (UpdateOne_markNotified_flag e id action m1 Hwon) as [Hbefore Hafter].
    apply UpdateOne_markNotified_won in Hwon. destruct Hwon as [_ Hmatched].
    repeat split; try done.
    by apply (all_completed_written e id dev action status m post m1).
  - intros e c m Hph. by apply advance_sequential.
  - intros m0 p id f Hrtc.
    pose proof (winners_reachable id f m0 p Hrtc) as H.
    destruct (election.notified id f (election.shared p)); lia.
  - intros p p' id f Hrtc Hn. by apply no_winner_while_kept.
  - intros e cfg id device dev action enabled sub s s'.
    destruct (processDevice_outcome e cfg id device dev action enabled sub s)
      as (_ & _ & _ & [(_ & Hl & _)|Hwon]); [by left|].
    destruct Hwon as (row & row' & Hrow & Hrow' & _ & Hf & Hf' & _ & _ & Hl & _).
    right. split; [done|]. unfold election.notified, row_of in *.
    fold s' in Hrow'. by rewrite Hrow, Hrow'.
  - intros cfg s id f Hrtc.
    pose proof (completions_reachable cfg id f s Hrtc) as H.
    destruct (election.notified id f (store s)); lia.
  - intros cfg s s' id f Hrtc Hn. by apply no_completion_while_kept with cfg.
  - intros e failsq sched s id row f s' Hrow Hold Hf. subst s'.
    rewrite runCleanup_eq. unfold completions, election.notified, row_of in *. simpl.
    assert (Hnone : database.transactions
              (snd (queries.DeleteOldTransactions failsq
                      (now e + retention.neg64 (retention.retentionPeriod sched))
                      (store s))) !! id = None).
    { destruct (database.transactions
                  (snd (queries.DeleteOldTransactions failsq
                          (now e + retention.neg64 (retention.retentionPeriod sched))
                          (store s))) !! id) as [row'|] eqn:Hrow'; [|done].
      apply DeleteOldTransactions_lookup in Hrow' as [Hrow' Hn]; [|done].
      rewrite Hrow in Hrow'. injection Hrow' as <-. by destruct Hn. }
    by rewrite Hnone.
Qed.

(** In the race of the example both handlers saw every device terminal, and
    one of them won; in the run of the example the cleanup runs before the
    retention period has passed, and one completion has been sent. *)
Lemma at_most_one_completion_witness :
  election.winners "T" database.startActionNotified race.finish = 1
  ∧ election.winners "T" database.startActionNotified race.finish ≤ 1
  ∧ completions "U" database.startActionNotified again.early = 1
  ∧ completions "U" database.startActionNotified again.early ≤ 1.
Proof.
  split; [vm_compute; reflexivity|].
  destruct at_most_one_completion as (_ & _ & Hpool & _ & _ & Hsys & _).
  split; [apply (Hpool race.before); exact (race_kept "T")|].
  split; [vm_compute; reflexivity|].
  apply (Hsys config.default).
  eapply rtc_r; [exact (run_keeps _ "U" _ _ walk_run)|].
  split.
  - apply (evolve_cleanup config.default (quiet 13) (λ _, false) (retention.New None)
             walk.s4).
  - intros _. eexists. vm_compute. reflexivity.
Defined.

(** C1, counterexample.  In the run of the example one completion has been
    sent for the start phase of "U" and its flag is set.  A week and an
    instant later the cleanup deletes the row; the request for "U" is
    delivered again and the scheduler creates the row afresh; the start timer
    fires, the fan-out publishes the actuation request, the worker handles it
    and wins the election on the new row: a second completion is sent for
    the start phase of "U".  In the same way, in the pool of the race, the
    flag of "T" is set and one caller has won; after the row is marked
    completed, deleted and created again, a second caller wins on the same
    transaction and flag. *)
Lemma completion_repeats_after_cleanup :
  completions "U" database.startActionNotified walk.s4 = 1
  ∧ election.notified "U" database.startActionNotified (store walk.s4) = true
  ∧ row_of again.s5 "U" = None
  ∧ completions "U" database.startActionNotified again.s9 = 2
  ∧ ¬ emitted_once_ever
  ∧ election.notified "T" database.startActionNotified (election.shared race.finish) = true
  ∧ election.winners "T" database.startActionNotified race.finish = 1
  ∧ election.winners "T" database.startActionNotified again.pool = 2
  ∧ ¬ no_winner_ever.
Proof.
  assert (H2 : completions "U" database.startActionNotified again.s9 = 2)
    by (vm_compute; reflexivity).
  assert (Hn : election.notified "T" database.startActionNotified
                 (election.shared race.finish) = true) by (vm_compute; reflexivity).
  assert (Hw1 : election.winners "T" database.startActionNotified race.finish = 1)
    by (vm_compute; reflexivity).
  assert (Hw2 : election.winners "T" database.startActionNotified again.pool = 2)
    by (vm_compute; reflexivity).
  split; [vm_compute; reflexivity|].
  split; [vm_compute; reflexivity|].
  split; [vm_compute; reflexivity|].
  split; [exact H2|]. split.
  { intros H.
    pose proof (H config.default again.s9 "U" database.startActionNotified again_run).
    lia. }
  split; [exact Hn|]. split; [exact Hw1|]. split; [exact Hw2|].
  intros H.
  pose proof (H race.finish again.pool "T" database.startActionNotified race_again Hn).
  lia.
Qed.

(** ** Busy devices *)

Lemma same_devices_refl row : same_devices row row.
Proof. done. Qed.

Lemma same_devices_trans r1 r2 r3 :
  same_devices r1 r2 → same_devices r2 r3 → same_devices r1 r3.
Proof. unfold same_devices. congruence. Qed.

Lemma update_first_ids deviceID f ds ds' :
  (∀ d, database.DeviceID (f d) = database.DeviceID d) →
  database.update_first deviceID f ds = Some ds' →
  database.DeviceID <$> ds' = database.DeviceID <$> ds.
Proof.
  intros Hf. revert ds'. induction ds as [|d ds IH]; intros ds'; simpl; [done|].
  destruct (String.eqb (database.DeviceID d) deviceID).
  - intros [= <-]. simpl. by rewrite Hf.
  - destruct (database.update_first deviceID f ds) as [ds0|]; simpl; [|done].
    intros [= <-]. simpl. f_equal. by apply IH.
Qed.

Lemma ClaimTransaction_devices e id action m :
  updates id same_devices m (snd (database.ClaimTransaction e id action m)).
Proof.
  unfold database.ClaimTransaction.
  destruct (fails e _); [by apply updates_refl|].
  pose proof (updateOne_updates id (database.claim_filter action)
                (database.set_UpdatedAt (now e)) same_devices m same_devices_refl
                (λ _, eq_refl)) as H.
  destruct (database.updateOne _ _ _ m) as [n m']. simpl in H.
  destruct (Nat.eqb n 0); [|done].
  by destruct (database.GetTransaction e id m') as [|[]].
Qed.

Lemma MarkTransactionFailed_devices e id msg m :
  updates id same_devices m (snd (database.MarkTransactionFailed e id msg m)).
Proof.
  unfold database.MarkTransactionFailed.
  destruct (fails e _); simpl; [by apply updates_refl|].
  by apply updateOne_updates.
Qed.

Lemma MarkTransactionCompleted_devices e id m :
  updates id same_devices m (snd (database.MarkTransactionCompleted e id m)).
Proof.
  unfold database.MarkTransactionCompleted.
  destruct (fails e _); simpl; [by apply updates_refl|].
  by apply updateOne_updates.
Qed.

Lemma FindOneAndUpdate_deviceStatus_devices e id dev action status m post m' :
  database.FindOneAndUpdate_deviceStatus e id dev action status m = inl (post, m') →
  updates id same_devices m m'
  ∧ database.transactions m' !! id = Some post.
Proof.
  intros HF. apply FindOneAndUpdate_deviceStatus_inl in HF.
  destruct HF as (row & ds & Hrow & Hds & -> & ->).
  split; [|simpl; apply lookup_insert_eq].
  apply updates_insert with row; [done|].
  unfold same_devices. simpl.
  apply update_first_ids in Hds; [done|]. by intros []; destruct (database.actionField _).
Qed.

Lemma UpdateDeviceActionStatus_devices e id dev action status m :
  updates id same_devices m
    (snd (database.UpdateDeviceActionStatus e id dev action status m)).
Proof.
  destruct (UpdateDeviceActionStatus_cases e id dev action status m)
    as [err HF|post m1 HF|post m1 HF|post m1 HF|post m1 HF];
    try (by apply updates_refl);
    try (by apply FindOneAndUpdate_deviceStatus_devices in HF as [? _]).
  apply FindOneAndUpdate_deviceStatus_devices in HF as [Hup Hpost].
  eapply updates_trans; [apply same_devices_trans|exact Hup|].
  by apply updates_insert with post.
Qed.

Lemma markTransactionCompleteIfDone_devices e id action s :
  updates id same_devices (store s)
    (store (snd (worker.markTransactionCompleteIfDone e id action s))).
Proof.
  rewrite markTransactionCompleteIfDone_eq.
  destruct (database.GetTransaction e id (store s)); [|by apply updates_refl].
  destruct (_ || _); [|by apply updates_refl].
  simpl. apply MarkTransactionCompleted_devices.
Qed.

Lemma processDevice_devices e cfg id device dev action enabled sub s :
  updates id same_devices (store s)
    (store (snd (worker.processDevice e cfg id device dev action enabled sub s))).
Proof.
  rewrite processDevice_eq. cbv zeta.
  pose proof (UpdateDeviceActionStatus_devices e id dev action "in-progress" (store s))
    as Hup1.
  destruct (database.UpdateDeviceActionStatus e id dev action "in-progress" (store s))
    as [[b1 err1] m1]. simpl in Hup1. simpl.
  destruct err1 as [err1|]; simpl; [done|].
  pose proof (actuate_frame e cfg device dev action enabled (set_store m1 s))
    as (Htx & _).
  destruct (worker.actuate e cfg device dev action enabled (set_store m1 s))
    as [finalStatus sa]. simpl in *.
  pose proof (UpdateDeviceActionStatus_devices e id dev action finalStatus (store sa))
    as Hup2.
  destruct (database.UpdateDeviceActionStatus e id dev action finalStatus (store sa))
    as [[b2 err2] m2]. simpl in *.
  assert (Hup : updates id same_devices (store s) m2).
  { eapply updates_trans; [apply same_devices_trans| |exact Hup2].
    eapply updates_trans; [apply same_devices_trans|exact Hup1|].
    by apply updates_same. }
  destruct err2 as [err2|]; simpl; [done|].
  destruct b2; simpl; [|done].
  unfold Send. destruct (sendFails e _); simpl; [done|].
  eapply updates_trans; [apply same_devices_trans|exact Hup|].
  match goal with
  | |- context [worker.markTransactionCompleteIfDone e id action ?s3] =>
      apply (markTransactionCompleteIfDone_devices e id action s3)
  end.
Qed.

Lemma fireSchedule_devices e schedAction s :
  updates (sa_TransactionID schedAction) same_devices (store s)
    (store (snd (scheduler.fireSchedule e schedAction s))).
Proof.
  unfold scheduler.fireSchedule. rewrite bind_eq, db_eq.
  pose proof (ClaimTransaction_devices e (sa_TransactionID schedAction)
                (sa_Action schedAction) (store s)) as Hclaim.
  destruct (database.ClaimTransaction e _ _ (store s)) as [[claimed err] m1].
  simpl in Hclaim. simpl.
  destruct err as [err|].
  { rewrite bind_eq, sendErrorNotification_eq. simpl.
    by destruct (String.eqb (models.Sink _) ""). }
  destruct claimed; simpl; [|done].
  rewrite bind_eq. unfold db_read at 1. simpl.
  destruct (database.GetTransaction e _ m1) as [transaction|err].
  - rewrite bind_eq.
    match goal with
    | |- context [for_each ?body ?items ?s1] =>
        destruct (publish_frame e transaction schedAction
                    (if String.eqb (sa_Action schedAction) event.ActionEnd
                     then negb (database.Enabled transaction)
                     else database.Enabled transaction) items s1)
          as (Hs & _)
    end.
    cbv zeta in *. simpl in *. by rewrite Hs.
  - rewrite bind_eq, db_eq. simpl. rewrite bind_eq, sendErrorNotification_eq. simpl.
    pose proof (MarkTransactionFailed_devices e (sa_TransactionID schedAction)
                  "failed to retrieve transaction data" m1) as Hfail.
    assert (Hboth : updates (sa_TransactionID schedAction) same_devices (store s)
              (snd (database.MarkTransactionFailed e (sa_TransactionID schedAction)
                      "failed to retrieve transaction data" m1)))
      by (eapply updates_trans; [apply same_devices_trans|exact Hclaim|exact Hfail]).
    by destruct (String.eqb (models.Sink _) "").
Qed.

(** No handler changes the identifiers of the devices of a row. *)
Lemma step_devices cfg s s' id row :
  step cfg s s' →
  row_of s id = Some row →
  ∃ row', row_of s' id = Some row' ∧ same_devices row row'.
Proof.
  assert (Hsame : ∀ s s', store s' = store s → row_of s id = Some row →
            ∃ row', row_of s' id = Some row' ∧ same_devices row row').
  { intros s0 s0' H Hrow. unfold row_of in *. rewrite H. eauto using same_devices_refl. }
  assert (Hupd : ∀ s s' id0,
            updates id0 same_devices (store s) (store s') → row_of s id = Some row →
            ∃ row', row_of s' id = Some row' ∧ same_devices row row').
  { intros s0 s0' id0 Hu Hrow.
    pose proof (updates_rows id0 same_devices (store s0) (store s0') id Hu
                  same_devices_refl) as H.
    unfold row_of in *. by rewrite Hrow in H. }
  intros Hstep. inversion Hstep; subst.
  - destruct (handleScheduleRequested_rows e data s) as (_ & [Hst|[Hnone Hnew]]).
    + by apply Hsame.
    + intros Hrow. unfold row_of in *. rewrite Hnew.
      destruct (decide (id = event.TransactionID (event.Payload data))) as [->|Hne];
        [congruence|].
      rewrite lookup_insert_ne by done. eauto using same_devices_refl.
  - apply Hsame. rewrite handleAllDevicesCompleted_eq.
    destruct (negb _); [done|].
    destruct (database.GetTransaction e _ _) as [tx|]; [|done].
    by destruct (database.EndAt tx).
  - by apply Hsame.
  - apply (Hupd s _ (sa_TransactionID schedAction)).
    apply (fireSchedule_devices e schedAction
             (set_scheduler (timers s) (runtime s) rest s)).
  - unfold worker.handleActuationRequest in *.
    destruct (models.NetworkAccessIdentifier _) as [dev|]; [|done].
    match goal with H : Some _ = Some _ |- _ => injection H as <- end.
    apply (Hupd s _ (event.dar_TransactionID data)). apply processDevice_devices.
  - apply Hsame. by rewrite loadPendingSchedules_store.
Qed.

Lemma CheckDeviceConflicts_reports failsq deviceIDs m :
  failsq queries.Find_conflicts = false →
  ∃ ids,
    queries.CheckDeviceConflicts failsq deviceIDs m = inl ids
    ∧ ∀ id, id ∈ ids ↔
        ∃ row, database.transactions m !! id = Some row
               ∧ database.is_pending row
               ∧ ∃ d, d ∈ database.Devices row ∧ database.DeviceID d ∈ deviceIDs.
Proof.
  intros Hok.
  assert (Hr : ∃ ids, queries.CheckDeviceConflicts failsq deviceIDs m = inl ids).
  { unfold queries.CheckDeviceConflicts. rewrite Hok. eauto. }
  destruct Hr as [ids Hr]. exists ids. split; [done|].
  intros id. rewrite (CheckDeviceConflicts_elem _ _ _ _ _ Hr).
  by setoid_rewrite conflicts_with_spec.
Qed.

(** While the transaction stays pending or processing, its row stays and
    holds the same devices. *)
Lemma pending_devices cfg id s s' row :
  rtc (evolve_pending cfg id) s s' →
  row_of s id = Some row → database.is_pending row →
  ∃ row', row_of s' id = Some row' ∧ database.is_pending row' ∧ same_devices row row'.
Proof.
  intros Hrtc. revert row.
  induction Hrtc as [s|s s1 s2 [Hstep (row1 & Hrow1 & Hp1)] _ IH]; intros row Hrow Hp.
  { exists row. eauto using same_devices_refl. }
  assert (Hsame : same_devices row row1).
  { destruct Hstep as [s0 s0' Hstep|e failsq sched s0].
    - destruct (step_devices cfg s0 s0' id row Hstep Hrow) as (row' & Hrow' & Hd).
      rewrite Hrow1 in Hrow'. by injection Hrow' as <-.
    - rewrite runCleanup_eq in Hrow1. unfold row_of in *. simpl in Hrow1.
      apply DeleteOldTransactions_row in Hrow1. rewrite Hrow in Hrow1.
      injection Hrow1 as <-. apply same_devices_refl. }
  destruct (IH row1 Hrow1 Hp1) as (row' & Hrow' & Hp' & Hd').
  exists row'. eauto using same_devices_trans.
Qed.

(** While the row of a completed or failed transaction is kept, it stays
    completed or failed. *)
Lemma marked_stays cfg id s s' row :
  rtc (evolve_keeps cfg id) s s' →
  row_of s id = Some row →
  database.tx_Status row = database.StatusCompleted
  ∨ database.tx_Status row = database.StatusFailed →
  ∃ row', row_of s' id = Some row'
          ∧ (database.tx_Status row' = database.StatusCompleted
             ∨ database.tx_Status row' = database.StatusFailed).
Proof.
  intros Hrtc. revert row.
  induction Hrtc as [s|s s1 s2 [Hstep Hkept] _ IH]; intros row Hrow Hst; [by eauto|].
  assert (H1 : ∃ row1, row_of s1 id = Some row1
                       ∧ (database.tx_Status row1 = database.StatusCompleted
                          ∨ database.tx_Status row1 = database.StatusFailed)).
  { destruct Hstep as [s0 s0' Hstep|e failsq sched s0].
    - pose proof (step_rows cfg s0 s0' id Hstep) as H. rewrite Hrow in H.
      destruct H as (row1 & Hrow1 & _ & Hst1). exists row1. split; [done|].
      destruct Hst1 as [Hst1|[Hst1|Hst1]]; [rewrite Hst1; exact Hst|by right|by left].
    - destruct Hkept as [row1 Hrow1]; [unfold row_of in Hrow; by eauto|].
      exists row1. split; [done|].
      rewrite runCleanup_eq in Hrow1. simpl in Hrow1.
      apply DeleteOldTransactions_row in Hrow1. unfold row_of in Hrow.
      rewrite Hrow in Hrow1. by injection Hrow1 as <-. }
  destruct H1 as (row1 & Hrow1 & Hst1). by apply (IH row1).
Qed.

(** X4.  A device is busy from the creation of its transaction until the
    transaction is marked, and not after, for as long as the row is kept.
    Once the scheduler has created the row of a request, the conflict check
    reports the transaction for every device of the request that has an
    identifier; it reports the transaction for every device of the row in
    every later state of the system, the retention loop included, up to
    which the transaction stayed pending or processing.  In the store that
    [MarkTransactionCompleted] or [MarkTransactionFailed] leaves, the check
    does not report the transaction, whatever the devices, and it does not
    report it in any later state of the system up to which the row of the
    completed or failed transaction has not been deleted. *)
Theorem device_busy_until_marked failsq :
  failsq queries.Find_conflicts = false →
  (∀ e data s device d,
     let id := event.TransactionID (event.Payload data) in
     database.transactions (store s) !! id = None →
     fails e (InsertOne id) = false →
     device ∈ event.Devices (event.Payload data) →
     models.NetworkAccessIdentifier device = Some d →
     ∃ ids,
       queries.CheckDeviceConflicts failsq [d]
         (store (snd (scheduler.handleScheduleRequested e data s))) = inl ids
       ∧ id ∈ ids)
  ∧ (∀ cfg s s' id row d,
       rtc (evolve_pending cfg id) s s' →
       row_of s id = Some row →
       database.is_pending row →
       d ∈ database.DeviceID <$> database.Devices row →
       ∃ ids,
         queries.CheckDeviceConflicts failsq [d] (store s') = inl ids
         ∧ id ∈ ids)
  ∧ (∀ e id deviceIDs m,
       fails e (UpdateOne_completed id) = false →
       ∃ ids,
         queries.CheckDeviceConflicts failsq deviceIDs
           (snd (database.MarkTransactionCompleted e id m)) = inl ids
         ∧ id ∉ ids)
  ∧ (∀ e id msg deviceIDs m,
       fails e (UpdateOne_failed id) = false →
       ∃ ids,
         queries.CheckDeviceConflicts failsq deviceIDs
           (snd (database.MarkTransactionFailed e id msg m)) = inl ids
         ∧ id ∉ ids)
  ∧ (∀ cfg s s' id row deviceIDs,
       rtc (evolve_keeps cfg id) s s' →
       row_of s id = Some row →
       database.tx_Status row = database.StatusCompleted
       ∨ database.tx_Status row = database.StatusFailed →
       ∃ ids,
         queries.CheckDeviceConflicts failsq deviceIDs (store s') = inl ids
         ∧ id ∉ ids).
Proof.
  intros Hok. split; [|split; [|split; [|split]]].
  - intros e data s device d id Hnone Hins Hin Hd.
    destruct (CheckDeviceConflicts_reports failsq [d]
                (store (snd (scheduler.handleScheduleRequested e data s))) Hok)
      as (ids & Hr & Hspec).
    exists ids. split; [done|]. apply Hspec.
    rewrite (handleScheduleRequested_created e data s Hnone Hins). simpl.
    eexists. split; [apply lookup_insert_eq|]. split; [by left|]. simpl.
    destruct (transactionDevices_elem e _ device d Hin Hd) as (txDevice & Hx & Hid & _).
    exists txDevice. split; [done|]. rewrite Hid. by left.
  - intros cfg s s' id row d Hrtc Hrow Hp Hd.
    destruct (pending_devices cfg id s s' row Hrtc Hrow Hp) as (row' & Hrow' & Hp' & Hsame).
    destruct (CheckDeviceConflicts_reports failsq [d] (store s') Hok) as (ids & Hr & Hspec).
    exists ids. split; [done|]. apply Hspec. exists row'. split; [done|]. split; [done|].
    unfold same_devices in Hsame. rewrite <- Hsame in Hd.
    apply list_elem_of_fmap in Hd as (txDevice & -> & Hx).
    exists txDevice. split; [done|]. by left.
  - intros e id deviceIDs m Hc.
    destruct (CheckDeviceConflicts_reports failsq deviceIDs
                (snd (database.MarkTransactionCompleted e id m)) Hok)
      as (ids & Hr & Hspec).
    exists ids. split; [done|]. intros (row & Hrow & Hp & _)%Hspec.
    rewrite MarkTransactionCompleted_eq, Hc in Hrow. simpl in Hrow.
    destruct (database.transactions m !! id) as [row0|] eqn:Hrow0.
    + simpl in Hrow. rewrite lookup_insert_eq in Hrow. injection Hrow as <-.
      destruct Hp as [Hp|Hp]; simpl in Hp; congruence.
    + congruence.
  - intros e id msg deviceIDs m Hc.
    destruct (CheckDeviceConflicts_reports failsq deviceIDs
                (snd (database.MarkTransactionFailed e id msg m)) Hok)
      as (ids & Hr & Hspec).
    exists ids. split; [done|]. intros (row & Hrow & Hp & _)%Hspec.
    unfold database.MarkTransactionFailed, database.updateOne in Hrow.
    rewrite Hc in Hrow. simpl in Hrow.
    destruct (database.transactions m !! id) as [row0|] eqn:Hrow0.
    + simpl in Hrow. rewrite lookup_insert_eq in Hrow. injection Hrow as <-.
      destruct Hp as [Hp|Hp]; simpl in Hp; congruence.
    + simpl in Hrow. congruence.
  - intros cfg s s' id row deviceIDs Hrtc Hrow Hst.
    destruct (marked_stays cfg id s s' row Hrtc Hrow Hst) as (row' & Hrow' & Hst').
    destruct (CheckDeviceConflicts_reports failsq deviceIDs (store s') Hok)
      as (ids & Hr & Hspec).
    exists ids. split; [done|]. intros (row'' & Hrow'' & [Hp|Hp] & _)%Hspec;
      unfold row_of in Hrow'; rewrite Hrow' in Hrow''; injection Hrow'' as <-;
      destruct Hst'; congruence.
Qed.

(** In the run of the example the device "a" is busy with "U" once the row
    is created and still after the fan-out; it is not after the worker
    completed "U", the cleanup having kept the row; and it is again once the
    cleanup has deleted the row and the request has been delivered again. *)
Lemma device_busy_until_marked_witness :
  (∃ ids, queries.CheckDeviceConflicts (λ _, false) ["a"] (store walk.s1) = inl ids
          ∧ "U" ∈ ids)
  ∧ (∃ ids, queries.CheckDeviceConflicts (λ _, false) ["a"] (store walk.s3) = inl ids
            ∧ "U" ∈ ids)
  ∧ (∃ ids, queries.CheckDeviceConflicts (λ _, false) ["a"] (store again.early) = inl ids
            ∧ "U" ∉ ids)
  ∧ (∃ ids, queries.CheckDeviceConflicts (λ _, false) ["a"] (store again.s6) = inl ids
            ∧ "U" ∈ ids).
Proof.
  pose proof (device_busy_until_marked (λ _, false) eq_refl)
    as (Hnew & Hbusy & _ & _ & Hfree).
  split; [|split; [|split]].
  - apply (Hnew (quiet 5) example.requested_open initial (example.device (Some "a")) "a");
      [reflexivity|reflexivity|by left|reflexivity].
  - apply (Hbusy config.default walk.s1 walk.s3 "U"
             (created (quiet 5) example.requested_open) "a").
    + eapply rtc_l; [|eapply rtc_l; [|apply rtc_refl]].
      * split.
        -- apply evolve_step.
           apply (step_timer config.default
                    {| delay := 5; fires := example.start_open |} [] [] walk.s1).
           vm_compute. reflexivity.
        -- eexists. split; [vm_compute; reflexivity|left; reflexivity].
      * split.
        -- apply evolve_step.
           apply (step_fire config.default (quiet 10) example.start_open [] walk.s2).
           vm_compute. reflexivity.
        -- eexists. split; [vm_compute; reflexivity|left; reflexivity].
    + vm_compute. reflexivity.
    + left. reflexivity.
    + vm_compute. apply list_elem_of_here.
  - apply (Hfree config.default walk.s4 again.early "U"
             (default (created (quiet 5) example.requested_open) (row_of walk.s4 "U"))
             ["a"]).
    + apply rtc_once. split.
      * apply (evolve_cleanup config.default (quiet 13) (λ _, false) (retention.New None)
                 walk.s4).
      * intros _. eexists. vm_compute. reflexivity.
    + vm_compute. reflexivity.
    + left. vm_compute. reflexivity.
  - apply (Hnew (quiet again.late) example.requested_open again.s5
             (example.device (Some "a")) "a");
      [vm_compute; reflexivity|reflexivity|by left|reflexivity].
Defined.

(** * The HTTP handler and the notifier: properties *)

(** ** The checks on a subscription *)

Lemma PowerSaving_neq : subscription.PowerSaving ≠ subscription.PowerSavingError.
Proof. intros H. apply (f_equal String.length) in H. vm_compute in H. discriminate. Qed.

Lemma seeType_two a b :
  foldl subscription.seeType (false, false) [a; b] = (true, true) ↔
  (a = subscription.PowerSaving ∧ b = subscription.PowerSavingError)
  ∨ (a = subscription.PowerSavingError ∧ b = subscription.PowerSaving).
Proof.
  pose proof PowerSaving_neq as Hne.
  simpl. unfold subscription.seeType.
  destruct (String.eqb_spec a subscription.PowerSaving) as [Ha|Ha];
    destruct (String.eqb_spec a subscription.PowerSavingError) as [Ha'|Ha'];
    destruct (String.eqb_spec b subscription.PowerSaving) as [Hb|Hb];
    destruct (String.eqb_spec b subscription.PowerSavingError) as [Hb'|Hb'];
    simpl; split; try congruence; try tauto;
    intros [[? ?]|[? ?]]; congruence.
Qed.

(** X10.  The checks of the handler on a subscription.  [ValidateTypes]
    accepts exactly the two orders of the two event types; [ValidateProtocol]
    accepts exactly "HTTP"; [Validate] accepts the absent credential and
    every credential of type ACCESSTOKEN, whatever its token; and
    [AuthorizationHeader] yields a header exactly for a credential of type
    ACCESSTOKEN whose token is not empty and whose token type is "bearer",
    in that spelling.  So a credential can pass [Validate] and yield no
    header. *)
Theorem subscription_checks :
  (∀ sr, subscription.ValidateTypes sr = None ↔
         models.Types sr = [subscription.PowerSaving; subscription.PowerSavingError]
         ∨ models.Types sr = [subscription.PowerSavingError; subscription.PowerSaving])
  ∧ (∀ sr, subscription.ValidateProtocol sr = None ↔ models.Protocol sr = "HTTP")
  ∧ (∀ sc, subscription.Validate sc = None ↔
           sc = None
           ∨ ∃ c, sc = Some c ∧ subscription.CredentialType c = "ACCESSTOKEN")
  ∧ (∀ sc header,
       subscription.AuthorizationHeader sc = (header, true) ↔
       ∃ c, sc = Some c
            ∧ subscription.CredentialType c = "ACCESSTOKEN"
            ∧ subscription.AccessToken c ≠ ""
            ∧ subscription.AccessTokenType c = "bearer"
            ∧ header = "Bearer " +:+ subscription.AccessToken c)
  ∧ (∀ sc, snd (subscription.AuthorizationHeader sc) = false →
           fst (subscription.AuthorizationHeader sc) = "")
  ∧ (∀ c, subscription.CredentialType c = "ACCESSTOKEN" →
          subscription.AccessToken c = "" ∨ subscription.AccessTokenType c ≠ "bearer" →
          subscription.Validate (Some c) = None
          ∧ subscription.AuthorizationHeader (Some c) = ("", false)).
Proof.
  split; [|split; [|split; [|split; [|split]]]].
  - intros sr. unfold subscription.ValidateTypes.
    destruct (models.Types sr) as [|a [|b [|c l]]];
      try (simpl; split; [done|by intros [?|?]]).
    pose proof (seeType_two a b) as H.
    cbn [length Nat.eqb negb].
    destruct (foldl subscription.seeType (false, false) [a; b]) as [[] []];
      simpl; split; try done; try (intros _; destruct H as [H _];
        destruct (H eq_refl) as [[-> ->]|[-> ->]]; auto);
      intros [[= -> ->]|[= -> ->]]; destruct H as [_ H];
      (discriminate H; auto).
  - intros sr. unfold subscription.ValidateProtocol, subscription.HTTP.
    destruct (String.eqb_spec (models.Protocol sr) "HTTP"); simpl; split; done.
  - intros [c|]; simpl; [|split; auto].
    destruct (String.eqb_spec (subscription.CredentialType c) "ACCESSTOKEN"); simpl.
    + split; [|done]. intros _. right. eauto.
    + split; [done|]. intros [?|(c' & [= <-] & ?)]; done.
  - intros [c|] header; simpl; [|split; [done|by intros (c & ? & _)]].
    destruct (String.eqb_spec (subscription.CredentialType c) "ACCESSTOKEN"); simpl.
    + destruct (String.eqb_spec (subscription.AccessToken c) ""); simpl.
      { split; [done|]. intros (c' & [= <-] & _ & ? & _). done. }
      destruct (String.eqb_spec (subscription.AccessTokenType c) "bearer"); simpl.
      * split.
        -- intros [= <-]. exists c. done.
        -- intros (c' & [= <-] & _ & _ & _ & ->). done.
      * split; [done|]. intros (c' & [= <-] & _ & _ & ? & _). done.
    + split; [done|]. intros (c' & [= <-] & ? & _). done.
  - intros [c|]; simpl; [|done].
    destruct (negb _); [done|]. by destruct (_ || _).
  - intros c Ht Hno. simpl. rewrite Ht. simpl. split; [done|].
    destruct Hno as [-> |Hno]; [done|].
    destruct (String.eqb_spec (subscription.AccessTokenType c) "bearer"); [done|].
    simpl. by rewrite orb_true_r.
Qed.

(** ** The admission of a request *)









(** ** The statuses the services report *)



(** ** The callbacks of the notifier *)

Lemma deliver_once http req :
  let r := notifier.deliver http req in
  (fst r = None ∧ snd r = [req]
   ∧ ((∃ cause, http req = notifier.DoFails cause)
      ∨ ∃ code, http req = notifier.Responds code))
  ∨ (snd r = [] ∧ ∃ err, fst r = Some err).
Proof.
  unfold notifier.deliver. destruct (http req); simpl; eauto 10.
Qed.

(** X14.  A handler of the notifier calls the sink at most once for an
    event, and answers the broker with an error only when it has not called
    the sink: whatever the sink answers, and when the call fails, the
    handler returns nil, so that the broker does not deliver the event
    again.  Without a sink nothing is read and nothing is sent.  The
    callback of a completed phase is a POST to the sink of the CloudEvent
    whose id is the transaction id and the action, with one status per
    device of the row as the store holds it when the notifier reads it, in
    order; the callback of an error carries the transaction id, status,
    code and message of the event.  The Authorization header is the one
    [AuthorizationHeader] yields, and there is none when it yields none. *)
Theorem callback_at_most_once e http sinkCredential m :
  (∀ data,
     let r := notifier.handleAllDevicesCompleted e http sinkCredential data m in
     let id := event.adc_TransactionID data in
     let action := event.adc_Action data in
     let sink := models.Sink (event.adc_SubscriptionRequest data) in
     length (snd r) ≤ 1
     ∧ (fst r ≠ None → snd r = [])
     ∧ (sink = "" → r = (None, []))
     ∧ (sink ≠ "" →
        fails e (FindOne id) = true ∨ database.transactions m !! id = None →
        ∃ err, r = (Some (Wrap "failed to get transaction devices" err), []))
     ∧ (sink ≠ "" →
        fails e (FindOne id) = false → is_Some (database.transactions m !! id) →
        ∃ req,
          (∀ code, http req = notifier.Responds code → r = (None, [req]))
          ∧ (∀ cause, http req = notifier.DoFails cause → r = (None, [req])))
     ∧ (∀ req, req ∈ snd r →
          fst r = None
          ∧ notifier.Method req = "POST"
          ∧ notifier.URL req = sink
          ∧ notifier.ContentType req = "application/cloudevents+json"
          ∧ notifier.ce_ID (notifier.Body req) = id +:+ "-" +:+ action
          ∧ notifier.ce_Source (notifier.Body req) = "urn:tim:iot-api"
          ∧ notifier.ce_Type (notifier.Body req) = subscription.PowerSaving
          ∧ (∃ row,
               database.transactions m !! id = Some row
               ∧ notifier.ce_Data (notifier.Body req)
                 = notifier.PowerSavingPayload
                     {| handler.ActivationStatus :=
                          notifier.deviceStatus action <$> database.Devices row;
                        handler.TransactionId := id |})
          ∧ (∀ header,
               notifier.Authorization req = Some header ↔
               subscription.AuthorizationHeader sinkCredential = (header, true))))
  ∧ (∀ errorData,
       let r := notifier.handleErrorNotification e http sinkCredential errorData in
       let sink := models.Sink (event.en_SubscriptionRequest errorData) in
       length (snd r) ≤ 1
       ∧ (fst r ≠ None → snd r = [])
       ∧ (sink = "" → r = (None, []))
       ∧ (sink ≠ "" →
          ∃ req,
            (∀ code, http req = notifier.Responds code → r = (None, [req]))
            ∧ (∀ cause, http req = notifier.DoFails cause → r = (None, [req])))
       ∧ (∀ req, req ∈ snd r →
            fst r = None
            ∧ notifier.Method req = "POST"
            ∧ notifier.URL req = sink
            ∧ notifier.ContentType req = "application/cloudevents+json"
            ∧ notifier.ce_ID (notifier.Body req)
              = event.en_TransactionID errorData +:+ "-error"
            ∧ notifier.ce_Source (notifier.Body req) = "urn:tim:iot-notify"
            ∧ notifier.ce_Type (notifier.Body req) = subscription.PowerSavingError
            ∧ notifier.ce_Data (notifier.Body req)
              = notifier.ErrorPayload (event.en_TransactionID errorData)
                  (event.en_Status errorData) (event.en_Code errorData)
                  (event.en_Message errorData)
            ∧ (∀ header,
                 notifier.Authorization req = Some header ↔
                 subscription.AuthorizationHeader sinkCredential = (header, true)))).
Proof.
  assert (Hauth : ∀ header,
    (if snd (subscription.AuthorizationHeader sinkCredential)
     then Some (fst (subscription.AuthorizationHeader sinkCredential)) else None)
    = Some header ↔ subscription.AuthorizationHeader sinkCredential = (header, true)).
  { intros header. destruct (subscription.AuthorizationHeader sinkCredential) as [h []];
      simpl; split; congruence. }
  assert (Hsent : ∀ req,
    (∀ code, http req = notifier.Responds code →
             notifier.deliver http req = (None, [req]))
    ∧ (∀ cause, http req = notifier.DoFails cause →
                notifier.deliver http req = (None, [req]))).
  { intros req. unfold notifier.deliver. split; by intros ? ->. }
  split.
  - intros data r id action sink. subst r id action sink.
    unfold notifier.handleAllDevicesCompleted. cbv zeta.
    destruct (String.eqb_spec (models.Sink (event.adc_SubscriptionRequest data)) "")
      as [Hsink|Hsink].
    { simpl. split; [lia|]. split; [done|]. split; [done|]. split; [done|].
      split; [done|]. by intros rq Hrq%elem_of_nil. }
    unfold queries.GetTransactionDevices, database.GetTransaction.
    destruct (fails e (FindOne (event.adc_TransactionID data))).
    { simpl. split; [lia|]. split; [done|]. split; [done|]. split; [by eauto|].
      split; [done|]. by intros rq Hrq%elem_of_nil. }
    destruct (database.transactions m !! event.adc_TransactionID data) as [row|] eqn:Hrow.
    2: { simpl. split; [lia|]. split; [done|]. split; [done|]. split; [by eauto|].
         split; [by intros _ _ [? ?]|]. by intros rq Hrq%elem_of_nil. }
    match goal with
    | |- context [notifier.deliver http ?req0] =>
        pose proof (Hsent req0) as Hreq0;
        destruct (deliver_once http req0) as [(Hf & Hs & _)|(Hs & err & Hf)];
        cbv zeta in Hf, Hs;
        destruct (notifier.deliver http req0) as [result sent]
    end; simpl in Hf, Hs; subst result sent.
    + simpl. split; [lia|]. split; [done|]. split; [done|].
      split; [by intros _ [?|?]|]. split; [intros _ _ _; by eexists|].
      intros rq ->%list_elem_of_singleton. simpl. repeat split; try done.
      * by exists row.
      * by apply Hauth.
      * by apply Hauth.
    + simpl. split; [lia|]. split; [done|]. split; [done|].
      split; [by intros _ [?|?]|]. split; [intros _ _ _; by eexists|].
      by intros rq Hrq%elem_of_nil.
  - intros errorData r sink. subst r sink.
    unfold notifier.handleErrorNotification. cbv zeta.
    destruct (String.eqb_spec (models.Sink (event.en_SubscriptionRequest errorData)) "")
      as [Hsink|Hsink].
    { simpl. split; [lia|]. split; [done|]. split; [done|]. split; [done|].
      by intros rq Hrq%elem_of_nil. }
    match goal with
    | |- context [notifier.deliver http ?req0] =>
        pose proof (Hsent req0) as Hreq0;
        destruct (deliver_once http req0) as [(Hf & Hs & _)|(Hs & err & Hf)];
        cbv zeta in Hf, Hs;
        destruct (notifier.deliver http req0) as [result sent]
    end; simpl in Hf, Hs; subst result sent.
    + simpl. split; [lia|]. split; [done|]. split; [done|].
      split; [intros _; by eexists|].
      intros rq ->%list_elem_of_singleton. simpl. repeat split; try done.
      * by apply Hauth.
      * by apply Hauth.
    + simpl. split; [lia|]. split; [done|]. split; [done|].
      split; [intros _; by eexists|].
      by intros rq Hrq%elem_of_nil.
Qed.

(** ** The completion of the start phase, delivered more than once *)

(** X15.  Every delivery of the [AllDevicesCompleted] of a start phase arms
    an end timer.  For a transaction with an end whose row can be read, [n]
    deliveries of the event leave [n] end timers running, each to fire at
    the end of the transaction as the scheduler saw it on that delivery,
    while the map of the timers holds one entry for them; the store and the
    events are untouched. *)
Theorem end_timer_per_delivery n e data s row endAt :
  let id := event.adc_TransactionID data in
  let t := end_timer e id endAt (database.SubscriptionRequest row) in
  let s' := redeliver n e data s in
  event.adc_Action data = "start" →
  fails e (FindOne id) = false →
  row_of s id = Some row →
  database.EndAt row = Some endAt →
  runtime s' = runtime s ++ replicate n t
  ∧ (0 < n → timers s' = <[scheduler.timerKey id "end" := t]> (timers s))
  ∧ store s' = store s ∧ fireChan s' = fireChan s
  ∧ sendLog s' = sendLog s ∧ broker s' = broker s.
Proof.
  intros id t s' Haction Hread Hrow Hend. subst s'. revert s Hrow.
  induction n as [|n IH]; intros s Hrow; simpl.
  - rewrite app_nil_r. repeat split; try done. lia.
  - rewrite handleAllDevicesCompleted_eq, Haction. simpl.
    unfold database.GetTransaction. fold id. rewrite Hread.
    unfold row_of in Hrow. rewrite Hrow, Hend. cbv zeta. simpl.
    fold id. fold t.
    match goal with
    | |- context [redeliver n e data ?s1] =>
        destruct (IH s1) as (Hr & Ht & Hs & Hc & Hl & Hb); [exact Hrow|]
    end.
    rewrite Hr, Hs, Hc, Hl, Hb. simpl. rewrite <- app_assoc. simpl.
    repeat split; try done.
    intros _. destruct n as [|n]; [done|].
    rewrite Ht by lia. simpl. by rewrite insert_insert_eq.
Qed.

(** In the run of the example with an end, the completion of the start
    phase of "T" is delivered twice at 14: two end timers are running. *)
Lemma end_timer_per_delivery_witness :
  runtime (redeliver 2 (quiet 14) tour.completion tour.s5)
  = runtime tour.s5 ++ [tour.armed; tour.armed].
Proof.
  apply (end_timer_per_delivery 2 (quiet 14) tour.completion tour.s5
           (default example.row (row_of tour.s5 "T")) 20);
    [reflexivity|reflexivity|vm_compute; reflexivity|vm_compute; reflexivity].
Defined.
